(** * fastgltf: the glTF document handle and its object parsers

    A shallow embedding of [src/fastgltf.cpp].  The DOM that simdjson hands to
    the parsers is an inductive value; the handle ([glTF]) is a record that is
    passed through every member function; a member function that can stop
    early with [returnError] is written in a small error monad.

    Values that the code only stores and never inspects are kept symbolic:
    IEEE numbers ([double], [float32]), filesystem paths ([path]) and the
    output of the base64 decoders ([bytes]).  *)

From Stdlib Require Import ZArith QArith String Ascii List Bool Lia.
From stdpp Require Import base list strings gmap.

Local Open Scope string_scope.

(** ** Numbers the code stores without looking at them *)

(** A [double] is the number simdjson read from a literal, or the conversion
    of an integer element; no arithmetic is ever done on it. *)
Inductive double : Type :=
| double_literal (q : Q)
| double_of_integer (z : Z).

(** [static_cast<float>(d)]. *)
Inductive float32 : Type :=
| static_cast_float (d : double).

Definition f32 (z : Z) : float32 := static_cast_float (double_literal (inject_Z z)).

(** [std::numeric_limits<size_t>::max()] on the 64-bit targets the library builds for. *)
Definition size_t_max : Z := 18446744073709551615%Z.

(** [static_cast<uint32_t>] and [static_cast<size_t>] of an integer: the
    value modulo 2^32 and 2^64. *)
Definition static_cast_uint32 (z : Z) : Z := (z mod 2 ^ 32)%Z.
Definition static_cast_size_t (z : Z) : Z := (z mod 2 ^ 64)%Z.

(** ** simdjson's DOM, as far as the parsers use it *)
Module simdjson.

Inductive error_code : Type :=
| SUCCESS | NO_SUCH_FIELD | INCORRECT_TYPE | NUMBER_OUT_OF_RANGE | INDEX_OUT_OF_BOUNDS.

(** [dom::element], one constructor per [element_type]: integers that fit
    [int64_t] are [INT64], larger ones [UINT64], every other number is a
    [DOUBLE]. *)
#[warnings="-register-all"]
Inductive element : Type :=
| NULL_VALUE
| BOOL (b : bool)
| INT64 (z : Z)
| UINT64 (z : Z)
| DOUBLE (d : double)
| STRING (s : string)
| ARRAY (items : list element)
| OBJECT (fields : list (string * element)).

Definition array : Type := list element.
Definition object : Type := list (string * element).

(** [simdjson_result<T>] *)
Inductive result (T : Type) : Type :=
| ok (v : T)
| err (e : error_code).
Arguments ok {T} v.
Arguments err {T} e.

Definition error {T} (r : result T) : error_code :=
  match r with ok _ => SUCCESS | err e => e end.

Definition and_then {T U} (r : result T) (f : T -> result U) : result U :=
  match r with ok v => f v | err e => err e end.

(** [object::operator[](key)]: the first field with that key. *)
Fixpoint at_key (o : object) (key : string) : result element :=
  match o with
  | [] => err NO_SUCH_FIELD
  | (k, v) :: rest => if String.eqb k key then ok v else at_key rest key
  end.

(** [array::at(i)] *)
Definition at_index (a : array) (i : nat) : result element :=
  match a !! i with
  | Some v => ok v
  | None => err INDEX_OUT_OF_BOUNDS
  end.

Definition as_object (e : element) : result object :=
  match e with OBJECT o => ok o | _ => err INCORRECT_TYPE end.

Definition as_array (e : element) : result array :=
  match e with ARRAY a => ok a | _ => err INCORRECT_TYPE end.

Definition as_string (e : element) : result string :=
  match e with STRING s => ok s | _ => err INCORRECT_TYPE end.

Definition as_bool (e : element) : result bool :=
  match e with BOOL b => ok b | _ => err INCORRECT_TYPE end.

Definition as_uint64 (e : element) : result Z :=
  match e with
  | UINT64 z => ok z
  | INT64 z => if (z <? 0)%Z then err NUMBER_OUT_OF_RANGE else ok z
  | _ => err INCORRECT_TYPE
  end.

Definition as_double (e : element) : result double :=
  match e with
  | DOUBLE d => ok d
  | UINT64 z => ok (double_of_integer z)
  | INT64 z => ok (double_of_integer z)
  | _ => err INCORRECT_TYPE
  end.

(** The getters of [simdjson_result<element>] pass an earlier error on. *)
Definition get_object (r : result element) : result object := and_then r as_object.
Definition get_array (r : result element) : result array := and_then r as_array.
Definition get_string (r : result element) : result string := and_then r as_string.
Definition get_bool (r : result element) : result bool := and_then r as_bool.
Definition get_uint64 (r : result element) : result Z := and_then r as_uint64.
Definition get_double (r : result element) : result double := and_then r as_double.

End simdjson.

Import simdjson.

(** ** The types of [fastgltf_types.hpp] and [fastgltf_parser.hpp] *)

(** Modelled from the spec: the header that declares [enum class Error] is not
    among the sources; the variants are those of the spec's error table. *)
Module Error.
Inductive t : Type :=
| None
| InvalidPath
| InvalidJson
| InvalidGLB
| InvalidGltf
| InvalidOrMissingAssetField
| MissingField
| UnsupportedExtensions
| MissingExtensions.

Definition eqb (a b : t) : bool :=
  match a, b with
  | None, None | InvalidPath, InvalidPath | InvalidJson, InvalidJson
  | InvalidGLB, InvalidGLB | InvalidGltf, InvalidGltf
  | InvalidOrMissingAssetField, InvalidOrMissingAssetField
  | MissingField, MissingField | UnsupportedExtensions, UnsupportedExtensions
  | MissingExtensions, MissingExtensions => true
  | _, _ => false
  end.
End Error.

(** Modelled from the spec: [hasBit] is declared in a header that is not
    among the sources.  The spec speaks of bit flags that the caller's set
    includes: every bit of [bit] is set in [flags]. *)
Definition hasBit (flags bit : Z) : bool := (Z.land flags bit =? bit)%Z.

(** Modelled from the spec: [enum class Extensions] is declared in the missing
    header; the spec only says that the three names are paired with bit
    flags, taken here as three different single bits. *)
Module Extensions.
Definition None : Z := 0.
Definition KHR_texture_transform : Z := Z.shiftl 1 1.
Definition KHR_texture_basisu : Z := Z.shiftl 1 2.
Definition MSFT_texture_dds : Z := Z.shiftl 1 3.
End Extensions.

(** Modelled from the spec: [enum class Options] is declared in the missing
    header; four different single bits, one per row of the spec's option table. *)
Module Options.
Definition None : Z := 0.
Definition AllowDouble : Z := Z.shiftl 1 0.
Definition DontRequireValidAssetMember : Z := Z.shiftl 1 1.
Definition DontUseSIMD : Z := Z.shiftl 1 2.
Definition LoadGLBBuffers : Z := Z.shiftl 1 3.
End Options.

(** [std::filesystem::path], kept symbolic: the parsers build paths and never
    look inside one. *)
Inductive path : Type :=
| path_of (s : string)
| path_append (p : path) (s : string)
| parent_path (p : path).

(** [std::vector<uint8_t>] contents.  What [base64::decode] and
    [base64::fallback_decode] (declared in [base64_decode.hpp], not among the
    sources) return is kept as the call itself: the names only record which
    decoder was called on which text, and no statement below relies on two
    of these values being different. *)
Inductive bytes : Type :=
| raw_bytes (l : list Byte.byte)
| base64_decode (encoded : string)
| base64_fallback_decode (encoded : string).

(** Modelled from the spec: the four enumerations below are declared in the
    missing [fastgltf_types.hpp]; their members are the ones the spec's data
    model lists (and [Invalid] for a code or name that is none of them). *)
Module MimeType.
Inductive t : Type := None | JPEG | PNG | KTX2 | DDS | GltfBuffer | OctetStream.
End MimeType.

Module DataLocation.
Inductive t : Type := None | VectorWithMime | FilePathWithByteRange | BufferViewWithMime.

Definition eqb (a b : t) : bool :=
  match a, b with
  | None, None | VectorWithMime, VectorWithMime
  | FilePathWithByteRange, FilePathWithByteRange
  | BufferViewWithMime, BufferViewWithMime => true
  | _, _ => false
  end.
End DataLocation.

Module ComponentType.
Inductive t : Type :=
| Invalid | Byte | UnsignedByte | Short | UnsignedShort | UnsignedInt | Float | Double.
End ComponentType.

Module AccessorType.
Inductive t : Type := Invalid | Scalar | Vec2 | Vec3 | Vec4 | Mat2 | Mat3 | Mat4.
End AccessorType.

(** Modelled from the spec: the structs below are declared in the missing
    [fastgltf_types.hpp]; fields and defaults follow the spec's data model.
    [std::optional<T>] is [option T], [size_t] and [uint64_t] are [Z]. *)
Module DataSource.
Record t : Type := mk {
  bytes : bytes;
  path : path;
  mimeType : MimeType.t;
  fileByteOffset : Z;
  bufferViewIndex : option Z;
}.
(** [DataSource {}] *)
Definition init : t :=
  mk (raw_bytes []) (path_of "") MimeType.None 0 Datatypes.None.
End DataSource.

Module Accessor.
Record t : Type := mk {
  componentType : ComponentType.t;
  type : AccessorType.t;
  count : Z;
  byteOffset : Z;
  normalized : bool;
  bufferViewIndex : option Z;
  name : option string;
}.
End Accessor.

(** [enum class BufferTarget] and [enum class PrimitiveType] are declared in
    the missing header.  The code only makes their values by a [static_cast]
    from the integer of the document and never looks at them, so a value is
    kept as that cast. *)
Module BufferTarget.
Inductive t : Type := static_cast (target : Z).
End BufferTarget.

Module PrimitiveType.
Inductive t : Type := static_cast (mode : Z).
End PrimitiveType.

Module BufferView.
Record t : Type := mk {
  bufferIndex : Z;
  byteLength : Z;
  byteOffset : Z;
  byteStride : option Z;
  target : option BufferTarget.t;
  name : option string;
}.
End BufferView.

Module Buffer.
Record t : Type := mk {
  byteLength : Z;
  data : DataSource.t;
  location : DataLocation.t;
  name : option string;
}.
End Buffer.

Module Image.
Record t : Type := mk {
  data : DataSource.t;
  location : DataLocation.t;
  name : option string;
}.
End Image.

Module Texture.
Record t : Type := mk {
  imageIndex : Z;
  fallbackImageIndex : option Z;
  samplerIndex : option Z;
  name : option string;
}.
End Texture.

Module TextureInfo.
Record t : Type := mk {
  textureIndex : Z;
  texCoordIndex : Z;
  scale : float32;
  rotation : float32;
  uvOffset : list float32;
  uvScale : list float32;
}.
(** [TextureInfo info = {}]: the header's member initialisers are not among
    the sources, the defaults are those the spec lists. *)
Definition init : t := mk 0 0 (f32 1) (f32 0) [f32 0; f32 0] [f32 1; f32 1].

Definition set_textureIndex (v : Z) (i : t) : t :=
  mk v (texCoordIndex i) (scale i) (rotation i) (uvOffset i) (uvScale i).
Definition set_texCoordIndex (v : Z) (i : t) : t :=
  mk (textureIndex i) v (scale i) (rotation i) (uvOffset i) (uvScale i).
Definition set_scale (v : float32) (i : t) : t :=
  mk (textureIndex i) (texCoordIndex i) v (rotation i) (uvOffset i) (uvScale i).
Definition set_rotation (v : float32) (i : t) : t :=
  mk (textureIndex i) (texCoordIndex i) (scale i) v (uvOffset i) (uvScale i).
Definition set_uvOffset (v : list float32) (i : t) : t :=
  mk (textureIndex i) (texCoordIndex i) (scale i) (rotation i) v (uvScale i).
Definition set_uvScale (v : list float32) (i : t) : t :=
  mk (textureIndex i) (texCoordIndex i) (scale i) (rotation i) (uvOffset i) v.
End TextureInfo.

Module PBRData.
Record t : Type := mk {
  baseColorFactor : list float32;
  metallicFactor : float32;
  roughnessFactor : float32;
  baseColorTexture : option TextureInfo.t;
  metallicRoughnessTexture : option TextureInfo.t;
}.
End PBRData.

Module Material.
Record t : Type := mk {
  emissiveFactor : list float32;
  normalTexture : option TextureInfo.t;
  occlusionTexture : option TextureInfo.t;
  emissiveTexture : option TextureInfo.t;
  pbrData : option PBRData.t;
  name : option string;
}.
End Material.

Module Primitive.
Record t : Type := mk {
  attributes : gmap string Z;
  type : PrimitiveType.t;
  indicesAccessor : option Z;
  materialIndex : option Z;
}.
End Primitive.

Module Mesh.
Record t : Type := mk {
  primitives : list Primitive.t;
  name : option string;
}.
End Mesh.

Module Node.
Record t : Type := mk {
  meshIndex : option Z;
  children : list Z;
  hasMatrix : bool;
  matrix : list float32;
  scale : list float32;
  translation : list float32;
  rotation : list float32;
  name : option string;
}.
End Node.

Module Scene.
Record t : Type := mk {
  nodeIndices : list Z;
  name : option string;
}.
End Scene.

Module Asset.
Record t : Type := mk {
  defaultScene : option Z;
  accessors : list Accessor.t;
  buffers : list Buffer.t;
  bufferViews : list BufferView.t;
  images : list Image.t;
  textures : list Texture.t;
  materials : list Material.t;
  meshes : list Mesh.t;
  nodes : list Node.t;
  scenes : list Scene.t;
}.
(** [std::make_unique<Asset>()] *)
Definition init : t := mk Datatypes.None [] [] [] [] [] [] [] [] [].
End Asset.

Module GLBBuffer.
Record t : Type := mk {
  fileOffset : Z;
  fileSize : Z;
  file : path;
  buffer : bytes;
}.
End GLBBuffer.

(** ** The document handle, [class glTF] *)

(** Modelled from the spec: the class is declared in the missing
    [fastgltf_parser.hpp]; the members are the ones the member functions of
    [fastgltf.cpp] use.  [root] is [data->root]; a null [unique_ptr] is [None]. *)
Record glTF : Type := mk_glTF {
  root : object;
  directory : path;
  options : Z;
  extensions : Z;
  glb : option GLBBuffer.t;
  errorCode : Error.t;
  parsedAsset : option Asset.t;
}.

Definition set_errorCode (e : Error.t) (h : glTF) : glTF :=
  mk_glTF (root h) (directory h) (options h) (extensions h) (glb h) e (parsedAsset h).

Definition set_parsedAsset (a : option Asset.t) (h : glTF) : glTF :=
  mk_glTF (root h) (directory h) (options h) (extensions h) (glb h) (errorCode h) a.

Definition set_glb (g : option GLBBuffer.t) (h : glTF) : glTF :=
  mk_glTF (root h) (directory h) (options h) (extensions h) g (errorCode h) (parsedAsset h).

(** The three constructors (lines 112-130).  The second one leaves
    [fileOffset] and [fileSize] of the [GLBBuffer] as they are constructed,
    taken as 0. *)
Definition glTF_new (data : object) (directory : path) (options extensions : Z) : glTF :=
  mk_glTF data directory options extensions None Error.None (Some Asset.init).

Definition glTF_new_loaded (data : object) (file : path) (glbData : bytes)
    (options extensions : Z) : glTF :=
  mk_glTF data (parent_path file) options extensions
    (Some (GLBBuffer.mk 0 0 file glbData)) Error.None (Some Asset.init).

Definition glTF_new_lazy (data : object) (file : path) (fileOffset fileSize : Z)
    (options extensions : Z) : glTF :=
  mk_glTF data (parent_path file) options extensions
    (Some (GLBBuffer.mk fileOffset fileSize file (raw_bytes []))) Error.None (Some Asset.init).

(** What a call of one of the [parse...] members amounts to: the [Error] it
    returns and the handle it leaves, or undefined behaviour (a null
    [parsedAsset] dereferenced, a [std::array] written past its end). *)
Inductive outcome : Type :=
| Returned (e : Error.t) (h : glTF)
| Undefined.

(** One turn of a range-[for] over a JSON array: go on with the next element,
    or leave the member function. *)
Inductive flow : Type :=
| Continue (h : glTF)
| Leave (o : outcome).

(** The body of such a loop up to the [emplace_back]: the object built, or
    [return returnError(e)], or undefined behaviour. *)
Inductive parsed (A : Type) : Type :=
| Parsed (a : A)
| Failed (e : Error.t)
| Overrun.
Arguments Parsed {A} a.
Arguments Failed {A} e.
Arguments Overrun {A}.

Definition parsed_bind {A B} (p : parsed A) (k : A -> parsed B) : parsed B :=
  match p with
  | Parsed a => k a
  | Failed e => Failed e
  | Overrun => Overrun
  end.

Notation "x <- p ;; k" := (parsed_bind p (fun x => k))
  (at level 100, p at next level, right associativity, only parsing).

(** [if (r.get(x) != SUCCESS) return returnError(Error::InvalidGltf);] *)
Definition required {A} (r : simdjson.result A) : parsed A :=
  match r with
  | ok v => Parsed v
  | err _ => Failed Error.InvalidGltf
  end.

(** [if (r.get(x) == SUCCESS) field = x;] on a [std::optional] field. *)
Definition optional {A} (r : simdjson.result A) : option A :=
  match r with
  | ok v => Some v
  | err _ => None
  end.

(** [r.get(x)] on an [x] that already holds [d]: an error leaves [x] alone. *)
Definition value_or {A} (r : simdjson.result A) (d : A) : A :=
  match r with
  | ok v => v
  | err _ => d
  end.

Definition succeeded {A} (r : simdjson.result A) : bool :=
  match r with
  | ok _ => true
  | err _ => false
  end.

(** ** [std::string_view] operations of [decodeUri] *)

Fixpoint string_drop (n : nat) (s : string) : string :=
  match n, s with
  | O, _ => s
  | S n', EmptyString => EmptyString
  | S n', String _ s' => string_drop n' s'
  end.

Fixpoint string_take (n : nat) (s : string) : string :=
  match n, s with
  | O, _ => EmptyString
  | S n', EmptyString => EmptyString
  | S n', String a s' => String a (string_take n' s')
  end.

(** [s.substr(pos, count)] for [pos <= s.size()]; a [count] of [None] is one
    at least as large as the string ([npos], or a wrapped difference). *)
Definition substr (s : string) (pos : nat) (count : option nat) : string :=
  match count with
  | Some n => string_take n (string_drop pos s)
  | None => string_drop pos s
  end.

Fixpoint find_first (s : string) (c : ascii) : option nat :=
  match s with
  | EmptyString => None
  | String a s' => if Ascii.eqb a c then Some O else S <$> find_first s' c
  end.

(** [s.find(c, pos)]; [None] is [npos]. *)
Definition find (s : string) (c : ascii) (pos : nat) : option nat :=
  (fun i => pos + i) <$> find_first (string_drop pos s) c.

(** [index + 1] on a [size_t]: [npos + 1] wraps to 0. *)
Definition size_t_succ (index : option nat) : nat :=
  match index with
  | Some i => S i
  | None => O
  end.

(** [a - b] on [size_t]: below zero it wraps to a value no string is as long as. *)
Definition size_t_sub (a b : nat) : option nat :=
  if (b <=? a)%nat then Some (a - b) else None.

(** ** Free functions (lines 51-109) *)

(** [getImageIndexForExtension]: [(invalidGltf, extensionNotPresent, imageIndex)]. *)
Definition getImageIndexForExtension (object : object) (extension : string)
    : bool * bool * Z :=
  match get_object (at_key object extension) with
  | err _ => (false, true, 0%Z)
  | ok sourceExtensionObject =>
      match get_uint64 (at_key sourceExtensionObject "source") with
      | err _ => (true, false, 0%Z)
      | ok imageIndex => (false, false, imageIndex)
      end
  end.

(** [getJsonArray]: the error and what [*array] holds afterwards. *)
Definition getJsonArray (parent : object) (arrayName : string) : Error.t * array :=
  match get_array (at_key parent arrayName) with
  | err NO_SUCH_FIELD => (Error.MissingField, [])
  | ok array => (Error.None, array)
  | err _ => (Error.InvalidGltf, [])
  end.

Definition Texture_set_imageIndex (v : Z) (t : Texture.t) : Texture.t :=
  Texture.mk v (Texture.fallbackImageIndex t) (Texture.samplerIndex t) (Texture.name t).

(** [parseTextureExtensions]: the value returned and what [texture] holds afterwards. *)
Definition parseTextureExtensions (texture : Texture.t) (extensions : object)
    (extensionFlags : Z) : bool * Texture.t :=
  let try_dds :=
    if hasBit extensionFlags Extensions.MSFT_texture_dds then
      let '(invalidGltf, extensionNotPresent, imageIndex) :=
        getImageIndexForExtension extensions "MSFT_texture_dds" in
      if invalidGltf then (false, texture)
      else if negb extensionNotPresent then (true, Texture_set_imageIndex imageIndex texture)
      else (false, texture)
    else (false, texture) in
  if hasBit extensionFlags Extensions.KHR_texture_basisu then
    let '(invalidGltf, extensionNotPresent, imageIndex) :=
      getImageIndexForExtension extensions "KHR_texture_basisu" in
    if invalidGltf then (false, texture)
    else if negb extensionNotPresent then (true, Texture_set_imageIndex imageIndex texture)
    else try_dds
  else try_dds.

(** ** Members of [glTF] that do not parse an array (lines 136-271) *)

Definition checkAssetField (h : glTF) : bool * glTF :=
  match get_object (at_key (root h) "asset") with
  | err _ => (false, set_errorCode Error.InvalidOrMissingAssetField h)
  | ok asset =>
      match get_string (at_key asset "version") with
      | err _ => (false, set_errorCode Error.InvalidOrMissingAssetField h)
      | ok _ => (true, h)
      end
  end.

Definition extensionStrings : list (string * Z) :=
  [ ("KHR_texture_basisu", Extensions.KHR_texture_basisu);
    ("KHR_texture_transform", Extensions.KHR_texture_transform);
    ("MSFT_texture_dds", Extensions.MSFT_texture_dds) ].

(** The inner loop of [checkExtensions] (lines 177-186) over what is left of
    the registry, from the current values of [known] and [listed]. *)
Fixpoint checkExtensions_registry (extensions : Z) (str : string)
    (registry : list (string * Z)) (known listed : bool) : bool * bool :=
  match registry with
  | [] => (known, listed)
  | (extensionString, extensionEnum) :: rest =>
      let known := if negb known then String.eqb extensionString str else known in
      let listed := if negb listed then hasBit extensions extensionEnum else listed in
      if known && listed then (known, listed)
      else checkExtensions_registry extensions str rest known listed
  end.

(** The outer loop (lines 167-195): the error of the first entry that is
    refused, if any. *)
Fixpoint checkExtensions_required (extensions : Z) (extensionsRequired : array)
    : option Error.t :=
  match extensionsRequired with
  | [] => None
  | extension :: rest =>
      match as_string extension with
      | err _ => Some Error.InvalidGltf
      | ok str =>
          let '(known, listed) :=
            checkExtensions_registry extensions str extensionStrings false false in
          if negb known then Some Error.UnsupportedExtensions
          else if negb listed then Some Error.MissingExtensions
          else checkExtensions_required extensions rest
      end
  end.

Definition checkExtensions (h : glTF) : bool * glTF :=
  match get_array (at_key (root h) "extensionsRequired") with
  | ok extensionsRequired =>
      match checkExtensions_required (extensions h) extensionsRequired with
      | Some e => (false, set_errorCode e h)
      | None => (true, h)
      end
  | err _ => (true, h)
  end.

Definition getMimeTypeFromString (mime : string) : MimeType.t :=
  if String.eqb mime "image/jpeg" then MimeType.JPEG
  else if String.eqb mime "image/png" then MimeType.PNG
  else if String.eqb mime "image/ktx2" then MimeType.KTX2
  else if String.eqb mime "image/vnd-ms.dds" then MimeType.DDS
  else if String.eqb mime "application/gltf-buffer" then MimeType.GltfBuffer
  else if String.eqb mime "application/octet-stream" then MimeType.OctetStream
  else MimeType.None.

Definition decodeUri (h : glTF) (uri : string)
    : Error.t * DataSource.t * DataLocation.t :=
  if String.eqb (substr uri 0 (Some 4)) "data" then
    let index := find uri ";" 0 in
    let encodingEnd := find uri "," (size_t_succ index) in
    match index, encodingEnd with
    | Some index, Some encodingEnd =>
        let encoding := substr uri (index + 1) (Some (encodingEnd - index - 1)) in
        if negb (String.eqb encoding "base64") then
          (Error.InvalidGltf, DataSource.init, DataLocation.None)
        else
          let encodedData := substr uri (encodingEnd + 1) None in
          let uriData :=
            if hasBit (options h) Options.DontUseSIMD
            then base64_fallback_decode encodedData
            else base64_decode encodedData in
          let source :=
            DataSource.mk uriData (path_of "")
              (getMimeTypeFromString (substr uri 5 (size_t_sub index 5)))
              0 None in
          (Error.None, source, DataLocation.VectorWithMime)
    | _, _ => (Error.InvalidGltf, DataSource.init, DataLocation.None)
    end
  else
    let source :=
      DataSource.mk (raw_bytes []) (path_append (directory h) uri) MimeType.None 0 None in
    (Error.None, source, DataLocation.FilePathWithByteRange).

Definition returnError (error : Error.t) (h : glTF) : outcome :=
  Returned error (set_errorCode error h).

(** [getParsedAsset]: the pointer returned ([None] is [nullptr]) and the
    handle, whose [parsedAsset] has been moved from. *)
Definition getParsedAsset (h : glTF) : option Asset.t * glTF :=
  if negb (Error.eqb (errorCode h) Error.None) then (None, h)
  else (parsedAsset h, set_parsedAsset None h).

Definition getParsedAssetPointer (h : glTF) : option Asset.t :=
  if negb (Error.eqb (errorCode h) Error.None) then None
  else parsedAsset h.

(** ** Loops over a JSON array *)

(** [parsedAsset->...]: dereferencing a null pointer is undefined. *)
Definition with_asset (h : glTF) (k : glTF -> outcome) : outcome :=
  match parsedAsset h with
  | Some _ => k h
  | None => Undefined
  end.

Definition update_asset (f : Asset.t -> Asset.t) (h : glTF) : glTF :=
  set_parsedAsset (f <$> parsedAsset h) h.

(** [for (auto value : array) { body }  return errorCode;] *)
Fixpoint for_each (body : element -> glTF -> flow) (values : array) (h : glTF) : outcome :=
  match values with
  | [] => Returned (errorCode h) h
  | value :: rest =>
      match body value h with
      | Continue h' => for_each body rest h'
      | Leave o => o
      end
  end.

(** The end of a loop body: [parsedAsset->xs.emplace_back(std::move(x))], or
    nothing after a [continue] ([Parsed None]). *)
Definition emplace {A} (p : parsed (option A)) (emplace_back : A -> Asset.t -> Asset.t)
    (h : glTF) : flow :=
  match p with
  | Parsed (Some a) => Continue (update_asset (emplace_back a) h)
  | Parsed None => Continue h
  | Failed e => Leave (returnError e h)
  | Overrun => Leave Undefined
  end.

(** A body without [continue]: what it builds is always appended. *)
Definition keep {A} (p : parsed A) : parsed (option A) :=
  a <- p ;; Parsed (Some a).

(** The opening of every array parser (e.g. lines 275-283): a missing array is
    success, any other failure of [getJsonArray] is recorded. *)
Definition top_level_array (arrayName : string) (k : array -> glTF -> outcome)
    (h : glTF) : outcome :=
  let '(error, values) := getJsonArray (root h) arrayName in
  if Error.eqb error Error.MissingField then Returned Error.None h
  else if negb (Error.eqb error Error.None) then returnError error h
  else k values h.

(** A nested loop that fills a [std::vector] in order and stops at the first failure. *)
Fixpoint parse_all {A} (body : element -> parsed A) (values : array) : parsed (list A) :=
  match values with
  | [] => Parsed []
  | value :: rest =>
      a <- body value ;;
      others <- parse_all body rest ;;
      Parsed (a :: others)
  end.

(** [for (i = 0; i < count; ++i) { if (array.at(i).get_double().get(val) != SUCCESS) fail;
    dst[i] = static_cast<float>(val); }] from index [i]: whether it ran to the
    end, and [dst] afterwards. *)
Fixpoint read_floats (values : array) (i count : nat) (dst : list float32)
    : bool * list float32 :=
  match count with
  | O => (true, dst)
  | S count' =>
      match get_double (at_index values i) with
      | err _ => (false, dst)
      | ok val => read_floats values (S i) count' (<[i := static_cast_float val]> dst)
      end
  end.

(** [i = 0; for (auto num : array) { if (num.get_double().get(val) != SUCCESS) stop;
    dst[i] = static_cast<float>(val); ++i; }] on a [std::array<float, size>]. *)
Inductive assigned : Type :=
| Assigned (dst : list float32)
| NotANumber (dst : list float32)
| PastTheEnd.

Fixpoint assign_each (size : nat) (values : array) (i : nat) (dst : list float32)
    : assigned :=
  match values with
  | [] => Assigned dst
  | num :: rest =>
      match as_double num with
      | err _ => NotANumber dst
      | ok val =>
          if (i <? size)%nat
          then assign_each size rest (S i) (<[i := static_cast_float val]> dst)
          else PastTheEnd
      end
  end.

(** ** [parseTextureObject] (lines 911-981): the error returned and [*info] afterwards *)

Definition parseTextureObject (h : glTF) (obj : object) (key : string)
    (info : TextureInfo.t) : Error.t * TextureInfo.t :=
  match get_object (at_key obj key) with
  | err _ => (Error.None, info)
  | ok child =>
  match get_uint64 (at_key child "index") with
  | err _ => (Error.InvalidGltf, info)
  | ok index =>
  let info := TextureInfo.set_textureIndex index info in
  let info :=
    TextureInfo.set_texCoordIndex (value_or (get_uint64 (at_key child "texCoord")) 0%Z) info in
  let scale := value_or (get_double (at_key child "scale")) (double_literal 1) in
  let info := TextureInfo.set_scale (static_cast_float scale) info in
  if negb (hasBit (extensions h) Extensions.KHR_texture_transform) then
    (Error.None,
     TextureInfo.set_uvScale [f32 1; f32 1]
       (TextureInfo.set_uvOffset [f32 0; f32 0]
          (TextureInfo.set_rotation (f32 0) info)))
  else
  match get_object (at_key child "extensions") with
  | err _ => (Error.None, info)
  | ok extensions =>
  match get_object (at_key extensions "KHR_texture_transform") with
  | err _ => (Error.None, info)
  | ok textureTransform =>
  let info :=
    match get_uint64 (at_key textureTransform "texCoord") with
    | ok index => TextureInfo.set_texCoordIndex index info
    | err _ => info
    end in
  let rotation := value_or (get_double (at_key textureTransform "rotation")) (double_literal 0) in
  let info := TextureInfo.set_rotation (static_cast_float rotation) info in
  let '(offset_ok, info) :=
    match get_array (at_key textureTransform "offset") with
    | ok array =>
        let '(done, uvOffset) := read_floats array 0 2 (TextureInfo.uvOffset info) in
        (done, TextureInfo.set_uvOffset uvOffset info)
    | err _ => (true, info)
    end in
  if negb offset_ok then (Error.InvalidGltf, info)
  else
  let '(scale_ok, info) :=
    match get_array (at_key textureTransform "scale") with
    | ok array =>
        let '(done, uvScale) := read_floats array 0 2 (TextureInfo.uvScale info) in
        (done, TextureInfo.set_uvScale uvScale info)
    | err _ => (true, info)
    end in
  if negb scale_ok then (Error.InvalidGltf, info)
  else (Error.None, info)
  end end end end.

(** ** The array parsers (lines 273-909, 983-1044) *)

(** Modelled from the spec: [getComponentType] and [getAccessorType] are
    declared in the missing [fastgltf_types.hpp].  The spec names the seven
    component types and gives 5130 for [f64]; the other codes are glTF's.
    The argument of [getComponentType] has the enumeration's underlying
    type, taken to be [uint32_t]: [parseAccessor] narrows the 64-bit integer
    of the document to it (line 296). *)
Definition getComponentType (componentType : Z) : ComponentType.t :=
  if (componentType =? 5120)%Z then ComponentType.Byte
  else if (componentType =? 5121)%Z then ComponentType.UnsignedByte
  else if (componentType =? 5122)%Z then ComponentType.Short
  else if (componentType =? 5123)%Z then ComponentType.UnsignedShort
  else if (componentType =? 5125)%Z then ComponentType.UnsignedInt
  else if (componentType =? 5126)%Z then ComponentType.Float
  else if (componentType =? 5130)%Z then ComponentType.Double
  else ComponentType.Invalid.

Definition getAccessorType (accessorType : string) : AccessorType.t :=
  if String.eqb accessorType "SCALAR" then AccessorType.Scalar
  else if String.eqb accessorType "VEC2" then AccessorType.Vec2
  else if String.eqb accessorType "VEC3" then AccessorType.Vec3
  else if String.eqb accessorType "VEC4" then AccessorType.Vec4
  else if String.eqb accessorType "MAT2" then AccessorType.Mat2
  else if String.eqb accessorType "MAT3" then AccessorType.Mat3
  else if String.eqb accessorType "MAT4" then AccessorType.Mat4
  else AccessorType.Invalid.

Definition is_Double (c : ComponentType.t) : bool :=
  match c with
  | ComponentType.Double => true
  | _ => false
  end.

(** [emplace_back] on each of the nine sequences of the asset. *)
Definition push_accessor (x : Accessor.t) (a : Asset.t) : Asset.t :=
  Asset.mk (Asset.defaultScene a) (Asset.accessors a ++ [x]) (Asset.buffers a)
    (Asset.bufferViews a) (Asset.images a) (Asset.textures a) (Asset.materials a)
    (Asset.meshes a) (Asset.nodes a) (Asset.scenes a).
Definition push_buffer (x : Buffer.t) (a : Asset.t) : Asset.t :=
  Asset.mk (Asset.defaultScene a) (Asset.accessors a) (Asset.buffers a ++ [x])
    (Asset.bufferViews a) (Asset.images a) (Asset.textures a) (Asset.materials a)
    (Asset.meshes a) (Asset.nodes a) (Asset.scenes a).
Definition push_bufferView (x : BufferView.t) (a : Asset.t) : Asset.t :=
  Asset.mk (Asset.defaultScene a) (Asset.accessors a) (Asset.buffers a)
    (Asset.bufferViews a ++ [x]) (Asset.images a) (Asset.textures a) (Asset.materials a)
    (Asset.meshes a) (Asset.nodes a) (Asset.scenes a).
Definition push_image (x : Image.t) (a : Asset.t) : Asset.t :=
  Asset.mk (Asset.defaultScene a) (Asset.accessors a) (Asset.buffers a)
    (Asset.bufferViews a) (Asset.images a ++ [x]) (Asset.textures a) (Asset.materials a)
    (Asset.meshes a) (Asset.nodes a) (Asset.scenes a).
Definition push_texture (x : Texture.t) (a : Asset.t) : Asset.t :=
  Asset.mk (Asset.defaultScene a) (Asset.accessors a) (Asset.buffers a)
    (Asset.bufferViews a) (Asset.images a) (Asset.textures a ++ [x]) (Asset.materials a)
    (Asset.meshes a) (Asset.nodes a) (Asset.scenes a).
Definition push_material (x : Material.t) (a : Asset.t) : Asset.t :=
  Asset.mk (Asset.defaultScene a) (Asset.accessors a) (Asset.buffers a)
    (Asset.bufferViews a) (Asset.images a) (Asset.textures a) (Asset.materials a ++ [x])
    (Asset.meshes a) (Asset.nodes a) (Asset.scenes a).
Definition push_mesh (x : Mesh.t) (a : Asset.t) : Asset.t :=
  Asset.mk (Asset.defaultScene a) (Asset.accessors a) (Asset.buffers a)
    (Asset.bufferViews a) (Asset.images a) (Asset.textures a) (Asset.materials a)
    (Asset.meshes a ++ [x]) (Asset.nodes a) (Asset.scenes a).
Definition push_node (x : Node.t) (a : Asset.t) : Asset.t :=
  Asset.mk (Asset.defaultScene a) (Asset.accessors a) (Asset.buffers a)
    (Asset.bufferViews a) (Asset.images a) (Asset.textures a) (Asset.materials a)
    (Asset.meshes a) (Asset.nodes a ++ [x]) (Asset.scenes a).
Definition push_scene (x : Scene.t) (a : Asset.t) : Asset.t :=
  Asset.mk (Asset.defaultScene a) (Asset.accessors a) (Asset.buffers a)
    (Asset.bufferViews a) (Asset.images a) (Asset.textures a) (Asset.materials a)
    (Asset.meshes a) (Asset.nodes a) (Asset.scenes a ++ [x]).
Definition set_defaultScene (v : Z) (a : Asset.t) : Asset.t :=
  Asset.mk (Some v) (Asset.accessors a) (Asset.buffers a)
    (Asset.bufferViews a) (Asset.images a) (Asset.textures a) (Asset.materials a)
    (Asset.meshes a) (Asset.nodes a) (Asset.scenes a).

(** The body of the loop of [parseAccessors] (lines 285-332). *)
Definition parseAccessor (h : glTF) (accessorValue : element) : parsed Accessor.t :=
  accessorObject <- required (as_object accessorValue) ;;
  componentType <- required (get_uint64 (at_key accessorObject "componentType")) ;;
  let componentType := getComponentType (static_cast_uint32 componentType) in
  if is_Double componentType && negb (hasBit (options h) Options.AllowDouble)
  then Failed Error.InvalidGltf
  else
  accessorType <- required (get_string (at_key accessorObject "type")) ;;
  count <- required (get_uint64 (at_key accessorObject "count")) ;;
  Parsed (Accessor.mk componentType (getAccessorType accessorType) count
            (value_or (get_uint64 (at_key accessorObject "byteOffset")) 0%Z)
            (value_or (get_bool (at_key accessorObject "normalized")) false)
            (optional (get_uint64 (at_key accessorObject "bufferView")))
            (optional (get_string (at_key accessorObject "name")))).

Definition parseAccessors (h : glTF) : outcome :=
  top_level_array "accessors" (fun accessors h =>
    with_asset h (for_each (fun accessorValue h =>
      emplace (keep (parseAccessor h accessorValue)) push_accessor h) accessors)) h.

Definition DataSource_set_mimeType (v : MimeType.t) (d : DataSource.t) : DataSource.t :=
  DataSource.mk (DataSource.bytes d) (DataSource.path d) v
    (DataSource.fileByteOffset d) (DataSource.bufferViewIndex d).

Definition DataSource_set_bufferViewIndex (v : Z) (d : DataSource.t) : DataSource.t :=
  DataSource.mk (DataSource.bytes d) (DataSource.path d) (DataSource.mimeType d)
    (DataSource.fileByteOffset d) (Some v).

Definition GLBBuffer_set_buffer (v : bytes) (g : GLBBuffer.t) : GLBBuffer.t :=
  GLBBuffer.mk (GLBBuffer.fileOffset g) (GLBBuffer.fileSize g) (GLBBuffer.file g) v.

(** The body of the loop of [parseBuffers] (lines 352-399), for the current
    [bufferIndex]: the buffer built and the handle, whose [glb->buffer] is
    left empty when it has been moved into the buffer. *)
Definition parseBuffer (h : glTF) (bufferIndex : Z) (bufferValue : element)
    : parsed (Buffer.t * glTF) :=
  bufferObject <- required (as_object bufferValue) ;;
  byteLength <- required (get_uint64 (at_key bufferObject "byteLength")) ;;
  chosen <-
    match get_string (at_key bufferObject "uri") with
    | ok uri =>
        let '(error, source, location) := decodeUri h uri in
        if negb (Error.eqb error Error.None) then Failed error
        else Parsed (source, location, h)
    | err _ =>
        match (bufferIndex =? 0)%Z, glb h with
        | true, Some glb =>
            if hasBit (options h) Options.LoadGLBBuffers then
              Parsed (DataSource.mk (GLBBuffer.buffer glb) (path_of "") MimeType.None 0 None,
                      DataLocation.VectorWithMime,
                      set_glb (Some (GLBBuffer_set_buffer (raw_bytes []) glb)) h)
            else if negb (hasBit (options h) Options.LoadGLBBuffers) then
              Parsed (DataSource.mk (raw_bytes []) (GLBBuffer.file glb) MimeType.GltfBuffer
                        (GLBBuffer.fileOffset glb) None,
                      DataLocation.FilePathWithByteRange,
                      h)
            else Parsed (DataSource.init, DataLocation.None, h)
        | _, _ => Failed Error.InvalidGltf
        end
    end ;;
  let '(data, location, h) := chosen in
  if DataLocation.eqb location DataLocation.None then Failed Error.InvalidGltf
  else
  Parsed (Buffer.mk byteLength data location
            (optional (get_string (at_key bufferObject "name"))),
          h).

(** The loop of [parseBuffers] with its counter. *)
Fixpoint parseBuffers_loop (bufferIndex : Z) (buffers : array) (h : glTF) : outcome :=
  match buffers with
  | [] => Returned (errorCode h) h
  | bufferValue :: rest =>
      match parseBuffer h bufferIndex bufferValue with
      | Parsed (buffer, h') =>
          parseBuffers_loop (bufferIndex + 1) rest (update_asset (push_buffer buffer) h')
      | Failed e => returnError e h
      | Overrun => Undefined
      end
  end.

Definition parseBuffers (h : glTF) : outcome :=
  top_level_array "buffers" (fun buffers h =>
    with_asset h (parseBuffers_loop 0 buffers)) h.

(** The body of the loop of [parseBufferViews] (lines 419-456). *)
Definition parseBufferView (bufferViewValue : element) : parsed BufferView.t :=
  bufferViewObject <- required (as_object bufferViewValue) ;;
  bufferIndex <- required (get_uint64 (at_key bufferViewObject "buffer")) ;;
  byteLength <- required (get_uint64 (at_key bufferViewObject "byteLength")) ;;
  Parsed (BufferView.mk bufferIndex byteLength
            (value_or (get_uint64 (at_key bufferViewObject "byteOffset")) 0%Z)
            (optional (get_uint64 (at_key bufferViewObject "byteStride")))
            (match get_uint64 (at_key bufferViewObject "target") with
             | ok target => Some (BufferTarget.static_cast target)
             | err _ => None
             end)
            (optional (get_string (at_key bufferViewObject "name")))).

Definition parseBufferViews (h : glTF) : outcome :=
  top_level_array "bufferViews" (fun bufferViews h =>
    with_asset h (for_each (fun bufferViewValue h =>
      emplace (keep (parseBufferView bufferViewValue)) push_bufferView h) bufferViews)) h.

(** The body of the loop of [parseImages] (lines 475-521). *)
Definition parseImage (h : glTF) (imageValue : element) : parsed Image.t :=
  imageObject <- required (as_object imageValue) ;;
  from_uri <-
    match get_string (at_key imageObject "uri") with
    | ok uri =>
        if succeeded (at_key imageObject "bufferView") then Failed Error.InvalidGltf
        else
          let '(error, source, location) := decodeUri h uri in
          if negb (Error.eqb error Error.None) then Failed error
          else
            match get_string (at_key imageObject "mimeType") with
            | ok mimeType =>
                Parsed (DataSource_set_mimeType (getMimeTypeFromString mimeType) source,
                        location)
            | err _ => Parsed (source, location)
            end
    | err _ => Parsed (DataSource.init, DataLocation.None)
    end ;;
  let '(data, location) := from_uri in
  data <-
    match get_uint64 (at_key imageObject "bufferView") with
    | ok bufferViewIndex =>
        match get_string (at_key imageObject "mimeType") with
        | err _ => Failed Error.InvalidGltf
        | ok mimeType =>
            Parsed (DataSource_set_mimeType (getMimeTypeFromString mimeType)
                      (DataSource_set_bufferViewIndex bufferViewIndex data))
        end
    | err _ => Parsed data
    end ;;
  if DataLocation.eqb location DataLocation.None then Failed Error.InvalidGltf
  else
  Parsed (Image.mk data location (optional (get_string (at_key imageObject "name")))).

Definition parseImages (h : glTF) : outcome :=
  top_level_array "images" (fun images h =>
    with_asset h (for_each (fun imageValue h =>
      emplace (keep (parseImage h imageValue)) push_image h) images)) h.

(** [TextureInfo t = {}; auto error = parseTextureObject(&object, key, &t);
    if (error != Error::None) return returnError(error);] *)
Definition texture_member (h : glTF) (obj : object) (key : string) : parsed TextureInfo.t :=
  let '(error, info) := parseTextureObject h obj key TextureInfo.init in
  if negb (Error.eqb error Error.None) then Failed error
  else Parsed info.

(** Lines 585-632 of [parseMaterials]. *)
Definition parsePBRData (h : glTF) (pbrMetallicRoughness : object) : parsed PBRData.t :=
  baseColorFactor <-
    match get_array (at_key pbrMetallicRoughness "baseColorFactor") with
    | ok baseColorFactor =>
        let '(done, factor) := read_floats baseColorFactor 0 4 [f32 0; f32 0; f32 0; f32 0] in
        if done then Parsed factor else Failed Error.InvalidGltf
    | err _ => Parsed [f32 1; f32 1; f32 1; f32 1]
    end ;;
  let metallicFactor :=
    match get_double (at_key pbrMetallicRoughness "metallicFactor") with
    | ok factor => static_cast_float factor
    | err _ => f32 1
    end in
  let roughnessFactor :=
    match get_double (at_key pbrMetallicRoughness "roughnessFactor") with
    | ok factor => static_cast_float factor
    | err _ => f32 1
    end in
  baseColorTexture <- texture_member h pbrMetallicRoughness "baseColorTexture" ;;
  metallicRoughnessTexture <-
    texture_member h pbrMetallicRoughness "metallicRoughnessTexture" ;;
  Parsed (PBRData.mk baseColorFactor metallicFactor roughnessFactor
            (Some baseColorTexture) (Some metallicRoughnessTexture)).

(** The body of the loop of [parseMaterials] (lines 540-640). *)
Definition parseMaterial (h : glTF) (materialValue : element) : parsed Material.t :=
  materialObject <- required (as_object materialValue) ;;
  emissiveFactor <-
    match get_array (at_key materialObject "emissiveFactor") with
    | ok emissiveFactor =>
        if negb (length emissiveFactor =? 3)%nat then Failed Error.InvalidGltf
        else
          let '(done, factor) := read_floats emissiveFactor 0 3 [f32 0; f32 0; f32 0] in
          if done then Parsed factor else Failed Error.InvalidGltf
    | err _ => Parsed [f32 0; f32 0; f32 0]
    end ;;
  normalTexture <- texture_member h materialObject "normalTexture" ;;
  occlusionTexture <- texture_member h materialObject "occlusionTexture" ;;
  emissiveTexture <- texture_member h materialObject "emissiveTexture" ;;
  pbrData <-
    match get_object (at_key materialObject "pbrMetallicRoughness") with
    | ok pbrMetallicRoughness =>
        pbr <- parsePBRData h pbrMetallicRoughness ;;
        Parsed (Some pbr)
    | err _ => Parsed None
    end ;;
  Parsed (Material.mk emissiveFactor (Some normalTexture) (Some occlusionTexture)
            (Some emissiveTexture) pbrData
            (optional (get_string (at_key materialObject "name")))).

Definition parseMaterials (h : glTF) : outcome :=
  top_level_array "materials" (fun materials h =>
    with_asset h (for_each (fun materialValue h =>
      emplace (keep (parseMaterial h materialValue)) push_material h) materials)) h.

(** Lines 689-696: every key of [attributes] goes into the map, a later
    occurrence of a key replacing an earlier one. *)
Fixpoint parseAttributes (fields : list (string * element)) (attributes : gmap string Z)
    : parsed (gmap string Z) :=
  match fields with
  | [] => Parsed attributes
  | (key, value) :: rest =>
      attribute <- required (as_uint64 value) ;;
      parseAttributes rest (<[key := attribute]> attributes)
  end.

(** The body of the inner loop of [parseMeshes] (lines 675-718). *)
Definition parsePrimitive (primitiveValue : element) : parsed Primitive.t :=
  primitiveObject <- required (as_object primitiveValue) ;;
  attributesObject <- required (get_object (at_key primitiveObject "attributes")) ;;
  attributes <- parseAttributes attributesObject ∅ ;;
  Parsed (Primitive.mk attributes
            (PrimitiveType.static_cast
               (value_or (get_uint64 (at_key primitiveObject "mode")) 4%Z))
            (optional (get_uint64 (at_key primitiveObject "indices")))
            (optional (get_uint64 (at_key primitiveObject "material")))).

(** The body of the outer loop of [parseMeshes] (lines 659-728); [Parsed None]
    is the [continue] of a mesh without [primitives]. *)
Definition parseMesh (meshValue : element) : parsed (option Mesh.t) :=
  meshObject <- required (as_object meshValue) ;;
  let '(meshError, primitives) := getJsonArray meshObject "primitives" in
  if Error.eqb meshError Error.MissingField then Parsed None
  else if negb (Error.eqb meshError Error.None) then Failed meshError
  else
    primitives <- parse_all parsePrimitive primitives ;;
    Parsed (Some (Mesh.mk primitives (optional (get_string (at_key meshObject "name"))))).

Definition parseMeshes (h : glTF) : outcome :=
  top_level_array "meshes" (fun meshes h =>
    with_asset h (for_each (fun meshValue h =>
      emplace (parseMesh meshValue) push_mesh h) meshes)) h.

(** [Node node = {}]: the arrays before the loops below write into them,
    with the defaults of the spec's data model. *)
Definition identity_matrix : list float32 :=
  [ f32 1; f32 0; f32 0; f32 0;
    f32 0; f32 1; f32 0; f32 0;
    f32 0; f32 0; f32 1; f32 0;
    f32 0; f32 0; f32 0; f32 1 ].

(** Lines 799-842: [scale], [translation] and [rotation] are read alike,
    into a [std::array<float, size>]. *)
Definition parseNodeArray (nodeObject : object) (key : string) (size : nat)
    (initial default : list float32) : parsed (list float32) :=
  match get_array (at_key nodeObject key) with
  | ok values =>
      match assign_each size values 0 initial with
      | Assigned dst => Parsed dst
      | NotANumber _ => Failed Error.InvalidGltf
      | PastTheEnd => Overrun
      end
  | err _ => Parsed default
  end.

(** The body of the loop of [parseNodes] (lines 746-852). *)
Definition parseNode (nodeValue : element) : parsed Node.t :=
  nodeObject <- required (as_object nodeValue) ;;
  let meshIndex := optional (get_uint64 (at_key nodeObject "mesh")) in
  children <-
    (let '(childError, children) := getJsonArray nodeObject "children" in
     if Error.eqb childError Error.None then
       parse_all (fun childValue => required (as_uint64 childValue)) children
     else if negb (Error.eqb childError Error.None) then Failed childError
     else Parsed []) ;;
  with_matrix <-
    match get_array (at_key nodeObject "matrix") with
    | ok matrix =>
        match assign_each 16 matrix 0 identity_matrix with
        | Assigned dst => Parsed (true, dst)
        | NotANumber dst => Parsed (false, dst)
        | PastTheEnd => Overrun
        end
    | err _ => Parsed (false, identity_matrix)
    end ;;
  let '(hasMatrix, matrix) := with_matrix in
  scale <- parseNodeArray nodeObject "scale" 3
             [f32 1; f32 1; f32 1] [f32 1; f32 1; f32 1] ;;
  translation <- parseNodeArray nodeObject "translation" 3
                   [f32 0; f32 0; f32 0] [f32 0; f32 0; f32 0] ;;
  rotation <- parseNodeArray nodeObject "rotation" 4
                [f32 0; f32 0; f32 0; f32 1] [f32 0; f32 0; f32 0; f32 1] ;;
  Parsed (Node.mk meshIndex children hasMatrix matrix scale translation rotation
            (optional (get_string (at_key nodeObject "name")))).

Definition parseNodes (h : glTF) : outcome :=
  top_level_array "nodes" (fun nodes h =>
    with_asset h (for_each (fun nodeValue h =>
      emplace (keep (parseNode nodeValue)) push_node h) nodes)) h.

(** The body of the loop of [parseScenes] (lines 876-905); [Parsed None] is a
    turn that reaches the end of the body without [emplace_back]. *)
Definition parseScene (sceneValue : element) : parsed (option Scene.t) :=
  sceneObject <- required (as_object sceneValue) ;;
  let name := optional (get_string (at_key sceneObject "name")) in
  let '(nodeError, nodes) := getJsonArray sceneObject "nodes" in
  if Error.eqb nodeError Error.None then
    nodeIndices <- parse_all (fun nodeValue => required (as_uint64 nodeValue)) nodes ;;
    Parsed (Some (Scene.mk nodeIndices name))
  else if negb (Error.eqb nodeError Error.None) then Failed nodeError
  else Parsed None.

Definition parseScenes (h : glTF) : outcome :=
  top_level_array "scenes" (fun scenes h =>
    with_asset h (fun h =>
      let h :=
        match get_uint64 (at_key (root h) "scene") with
        | ok defaultScene => update_asset (set_defaultScene defaultScene) h
        | err _ => h
        end in
      for_each (fun sceneValue h => emplace (parseScene sceneValue) push_scene h) scenes h)) h.

(** The body of the loop of [parseTextures] (lines 995-1040). *)
Definition parseTexture (h : glTF) (textureValue : element) : parsed Texture.t :=
  textureObject <- required (as_object textureValue) ;;
  let '(hasExtensions, extensionsObject) :=
    match get_object (at_key textureObject "extensions") with
    | ok extensionsObject => (true, extensionsObject)
    | err _ => (false, [])
    end in
  let source := get_uint64 (at_key textureObject "source") in
  let imageIndex := value_or source size_t_max in
  if negb (succeeded source) && negb hasExtensions then Failed Error.InvalidGltf
  else
  texture <-
    (let texture := Texture.mk imageIndex None None None in
     if hasExtensions then
       let texture :=
         if negb (imageIndex =? size_t_max)%Z
         then Texture.mk imageIndex (Some imageIndex) None None
         else texture in
       let '(found, texture) := parseTextureExtensions texture extensionsObject (extensions h) in
       if negb found then Failed Error.InvalidGltf else Parsed texture
     else Parsed texture) ;;
  Parsed (Texture.mk (Texture.imageIndex texture) (Texture.fallbackImageIndex texture)
            (optional (get_uint64 (at_key textureObject "sampler")))
            (optional (get_string (at_key textureObject "name")))).

Definition parseTextures (h : glTF) : outcome :=
  top_level_array "textures" (fun textures h =>
    with_asset h (for_each (fun textureValue h =>
      emplace (keep (parseTexture h textureValue)) push_texture h) textures)) h.

(** The nine array parsers under one name, for statements about all of them. *)
Inductive parser : Type :=
| Accessors | Buffers | BufferViews | Images | Materials | Meshes | Nodes | Scenes | Textures.

Definition run (p : parser) : glTF -> outcome :=
  match p with
  | Accessors => parseAccessors
  | Buffers => parseBuffers
  | BufferViews => parseBufferViews
  | Images => parseImages
  | Materials => parseMaterials
  | Meshes => parseMeshes
  | Nodes => parseNodes
  | Scenes => parseScenes
  | Textures => parseTextures
  end.

(** ** [class Parser] (lines 1070-1119) *)

Module Parser.
Record t : Type := mk {
  extensions : Z;
  errorCode : Error.t;
}.
Definition set_errorCode (e : Error.t) (p : t) : t := mk (extensions p) e.
End Parser.

(** [Parser::loadGLTF(jsonData, fs::path directory, options)].  The two things
    it asks of the outside are arguments: [is_directory] is what
    [fs::is_directory(directory)] answers and [document] is what
    [jsonParser->parse] returns for the JSON text.  The result is the handle
    ([None] is [nullptr]) and the parser with its error code. *)
Definition loadGLTF (parser : Parser.t) (document : simdjson.result element)
    (directory : path) (is_directory : bool) (options : Z) : option glTF * Parser.t :=
  if negb is_directory then (None, Parser.set_errorCode Error.InvalidPath parser)
  else
    let parser := Parser.set_errorCode Error.None parser in
    match get_object document with
    | err _ => (None, Parser.set_errorCode Error.InvalidJson parser)
    | ok data =>
        let gltf := glTF_new data directory options (Parser.extensions parser) in
        if negb (hasBit options Options.DontRequireValidAssetMember)
           && negb (fst (checkAssetField gltf))
        then (None, Parser.set_errorCode Error.InvalidOrMissingAssetField parser)
        else
          let '(passed, gltf) := checkExtensions gltf in
          if negb passed then (None, Parser.set_errorCode (errorCode gltf) parser)
          else (Some gltf, parser)
    end.

(** ** Words of the specification *)

(** A JSON object has no field named [key]. *)
Definition absent (key : string) (o : object) : Prop := key ∉ o.*1.

(** [c] occurs nowhere in [s]. *)
Definition free_of (c : ascii) (s : string) : Prop := ¬ In c (list_ascii_of_string s).

(** The segment of a data URI between the first [;] and the [,] that follows
    it, when both are there. *)
Inductive encoding_segment (uri : string) : option string -> Prop :=
| segment_between (before encoding rest : string) :
    uri = before ++ ";" ++ encoding ++ "," ++ rest ->
    free_of ";" before ->
    free_of "," encoding ->
    encoding_segment uri (Some encoding)
| segment_without_semicolon :
    free_of ";" uri ->
    encoding_segment uri None
| segment_without_comma (before rest : string) :
    uri = before ++ ";" ++ rest ->
    free_of ";" before ->
    free_of "," rest ->
    encoding_segment uri None.

(** An extension object holds an object [name] whose [source] is the index [n]. *)
Definition has_source (ext : object) (name : string) (n : Z) : Prop :=
  ∃ o, get_object (at_key ext name) = ok o ∧ get_uint64 (at_key o "source") = ok n.

(** An extension object holds no object named [name]. *)
Definition not_present (ext : object) (name : string) : Prop :=
  ∃ e, get_object (at_key ext name) = err e.

(** The enabled texture extensions, KHR_texture_basisu before
    MSFT_texture_dds, supply the image index [n]. *)
Definition supplies_source (flags : Z) (ext : object) (n : Z) : Prop :=
  (hasBit flags Extensions.KHR_texture_basisu = true ∧ has_source ext "KHR_texture_basisu" n)
  ∨ ((hasBit flags Extensions.KHR_texture_basisu = false ∨ not_present ext "KHR_texture_basisu")
     ∧ hasBit flags Extensions.MSFT_texture_dds = true
     ∧ has_source ext "MSFT_texture_dds" n).

(** The first two elements of a JSON array are numbers. *)
Definition two_numbers (a : array) : Prop :=
  ∃ x y, get_double (at_index a 0) = ok x ∧ get_double (at_index a 1) = ok y.

(** A member that should be a pair of floats is missing, or not an array, or
    an array that starts with two numbers. *)
Definition well_formed_pair (o : object) (key : string) : Prop :=
  match get_array (at_key o key) with
  | ok a => two_numbers a
  | err _ => True
  end.

(** A sequence of calls on one handle. *)
Inductive call : Type :=
| Parse (p : parser)
| GetParsedAsset.

(** The handle after the calls, unless one of them was undefined. *)
Fixpoint after_calls (calls : list call) (h : glTF) : option glTF :=
  match calls with
  | [] => Some h
  | Parse p :: rest =>
      match run p h with
      | Returned _ h' => after_calls rest h'
      | Undefined => None
      end
  | GetParsedAsset :: rest => after_calls rest (snd (getParsedAsset h))
  end.

(** ** What a loop body and a parser may do to the error code *)

(** A loop body, before its [emplace_back], never leaves through
    [returnError(Error::None)]; [ub] tells whether it may run into
    undefined behaviour. *)
Definition sound {A} (ub : bool) (p : parsed A) : Prop :=
  match p with
  | Parsed _ => True
  | Failed e => e ≠ Error.None
  | Overrun => ub = true
  end.


(** A turn of a loop either goes on with the error code it found, or leaves
    through [returnError] with a real error. *)
Definition turn_ok (ub : bool) (h : glTF) (f : flow) : Prop :=
  match f with
  | Continue h' => errorCode h' = errorCode h
  | Leave (Returned e h') => e ≠ Error.None ∧ errorCode h' = e
  | Leave Undefined => ub = true
  end.

(** A parser returns with the error code untouched (and then returns it, or
    [None] for a missing array), or with its own error recorded. *)
Definition error_kept_or_replaced (h : glTF) (e : Error.t) (h' : glTF) : Prop :=
  (errorCode h' = errorCode h ∧ (e = Error.None ∨ e = errorCode h))
  ∨ (e ≠ Error.None ∧ errorCode h' = e).

Definition outcome_ok (ub : bool) (h : glTF) (o : outcome) : Prop :=
  match o with
  | Returned e h' => error_kept_or_replaced h e h'
  | Undefined => ub = true
  end.

(** ** Documents and handles the examples are run on *)

(** [{"asset":{"version":"2.0"},"extensionsRequired":["KHR_texture_transform"]}],
    loaded by a parser that enables KHR_texture_basisu only. *)
Definition transform_required : object :=
  [ ("asset", OBJECT [("version", STRING "2.0")]);
    ("extensionsRequired", ARRAY [STRING "KHR_texture_transform"]) ].

Definition basisu_parser : Parser.t :=
  Parser.mk Extensions.KHR_texture_basisu Error.None.

Definition transform_required_handle : glTF :=
  glTF_new transform_required (path_of "models") Options.None Extensions.KHR_texture_basisu.

(** [{"scene":0,"nodes":[{"name":"leaf"},{"children":[]}]}] *)
Definition leaf_first : object :=
  [ ("scene", INT64 0);
    ("nodes", ARRAY [ OBJECT [("name", STRING "leaf")];
                      OBJECT [("children", ARRAY [])] ]) ].

Definition leaf_first_handle : glTF :=
  glTF_new leaf_first (path_of "models") Options.None Extensions.None.

(** [{"scenes":[{"name":"empty"},{"nodes":[0]}]}] *)
Definition empty_scene_first : object :=
  [ ("scenes", ARRAY [ OBJECT [("name", STRING "empty")];
                       OBJECT [("nodes", ARRAY [INT64 0])] ]) ].

Definition empty_scene_first_handle : glTF :=
  glTF_new empty_scene_first (path_of "models") Options.None Extensions.None.










(** Texture objects: [{"source":7,"extensions":{"KHR_texture_basisu":{"source":9}}}],
    [{"source":7}], [{"source":7,"extensions":{}}], the first one with the
    largest [uint64] as its [source], and [{"name":"none"}]. *)
Definition basisu_texture : object :=
  [ ("source", INT64 7);
    ("extensions", OBJECT [("KHR_texture_basisu", OBJECT [("source", INT64 9)])]) ].




Definition sourceless_texture : object := [ ("name", STRING "none") ].



(** [{"textures":[<basisu_texture>,<sourceless_texture>]}] with KHR_texture_basisu enabled. *)
Definition textures_handle : glTF :=
  glTF_new [ ("textures", ARRAY [OBJECT basisu_texture; OBJECT sourceless_texture]) ]
    (path_of "models") Options.None Extensions.KHR_texture_basisu.

(** A material member [{"index":0,"texCoord":1,"extensions":{"KHR_texture_transform":T}}]
    for a transform object [T], read with KHR_texture_transform enabled. *)
Definition textured (transform : object) : object :=
  [ ("baseColorTexture",
     OBJECT [ ("index", INT64 0);
              ("texCoord", INT64 1);
              ("extensions", OBJECT [("KHR_texture_transform", OBJECT transform)]) ]) ].

Definition transform_handle : glTF :=
  glTF_new [] (path_of "models") Options.None Extensions.KHR_texture_transform.

(** [{"texCoord":2,"offset":[0.5,0.25]}], given as [[1/2, 1/4]]. *)
Definition shifting_transform : object :=
  [ ("texCoord", INT64 2);
    ("offset", ARRAY [ DOUBLE (double_literal (1 # 2)); DOUBLE (double_literal (1 # 4)) ]) ].

(** [{"scale":[2]}]: one element short. *)
Definition short_scale_transform : object :=
  [ ("scale", ARRAY [ INT64 2 ]) ].

(** [{"texCoord":"x","rotation":"y","offset":3,"scale":[1,2,3]}]: nothing in
    it has the shape the extension asks for. *)
Definition malformed_transform : object :=
  [ ("texCoord", STRING "x");
    ("rotation", STRING "y");
    ("offset", INT64 3);
    ("scale", ARRAY [ INT64 1; INT64 2; INT64 3 ]) ].

(** ** The other entry points of [class Parser] (lines 1076-1078, 1112-1119) *)

Definition Parser_getError (parser : Parser.t) : Error.t := Parser.errorCode parser.

(** [Parser::loadGLTF(jsonData, std::string_view directory, options)]:
    [parsed.empty()] is the directory string being empty. *)
Definition loadGLTF_string_view (parser : Parser.t) (document : simdjson.result element)
    (directory : string) (is_directory : bool) (options : Z) : option glTF * Parser.t :=
  if String.eqb directory "" || negb is_directory
  then (None, Parser.set_errorCode Error.InvalidPath parser)
  else loadGLTF parser document (path_of directory) is_directory options.

(** ** Words for the further properties *)

(** The member of the document that each array parser reads. *)
Definition array_name (p : parser) : string :=
  match p with
  | Accessors => "accessors"
  | Buffers => "buffers"
  | BufferViews => "bufferViews"
  | Images => "images"
  | Materials => "materials"
  | Meshes => "meshes"
  | Nodes => "nodes"
  | Scenes => "scenes"
  | Textures => "textures"
  end.

(** How many objects the sequence of the asset that a parser fills holds. *)
Definition sequence_length (p : parser) (a : Asset.t) : nat :=
  match p with
  | Accessors => length (Asset.accessors a)
  | Buffers => length (Asset.buffers a)
  | BufferViews => length (Asset.bufferViews a)
  | Images => length (Asset.images a)
  | Materials => length (Asset.materials a)
  | Meshes => length (Asset.meshes a)
  | Nodes => length (Asset.nodes a)
  | Scenes => length (Asset.scenes a)
  | Textures => length (Asset.textures a)
  end.

(** At least one of the three registry flags is set. *)
Definition any_enabled (flags : Z) : bool :=
  hasBit flags Extensions.KHR_texture_basisu
  || hasBit flags Extensions.KHR_texture_transform
  || hasBit flags Extensions.MSFT_texture_dds.

(** A string is one of the three names of the registry. *)
Definition is_registry_name (s : string) : bool :=
  String.eqb "KHR_texture_basisu" s
  || String.eqb "KHR_texture_transform" s
  || String.eqb "MSFT_texture_dds" s.

(** An entry of [extensionsRequired] that the gate lets through. *)
Definition accepted_entry (flags : Z) (entry : element) : Prop :=
  ∃ s, entry = STRING s ∧ is_registry_name s = true ∧ any_enabled flags = true.

(** The error the gate gives for an entry it refuses. *)
Definition refusal (flags : Z) (entry : element) (e : Error.t) : Prop :=
  match entry with
  | STRING s =>
      if is_registry_name s
      then any_enabled flags = false ∧ e = Error.MissingExtensions
      else e = Error.UnsupportedExtensions
  | _ => e = Error.InvalidGltf
  end.

(** A JSON element that [get_double] accepts. *)
Definition is_number (v : element) : bool := succeeded (as_double v).

(** A loop body fails with no error outside [allowed]. *)
Definition fails_within {A} (allowed : list Error.t) (p : parsed A) : Prop :=
  match p with
  | Failed e => In e allowed
  | _ => True
  end.

(** The errors a given parser can record. *)
Definition recordable (p : parser) : list Error.t :=
  match p with
  | Nodes | Scenes => [Error.InvalidGltf; Error.MissingField]
  | _ => [Error.InvalidGltf]
  end.

(** ** Documents and handles for the further examples *)

(** [{"extensionsRequired":["KHR_texture_basisu","EXT_unknown"]}] with
    KHR_texture_basisu enabled. *)
Definition unknown_required_handle : glTF :=
  glTF_new [ ("extensionsRequired",
              ARRAY [STRING "KHR_texture_basisu"; STRING "EXT_unknown"]) ]
    (path_of "models") Options.None Extensions.KHR_texture_basisu.

(** ** What a parser may change *)

(** The asset with the sequence of parser [p] emptied (and, for
    [parseScenes], [defaultScene] erased): what [p] has no business with. *)
Definition elsewhere (p : parser) (a : Asset.t) : Asset.t :=
  match p with
  | Accessors =>
      Asset.mk (Asset.defaultScene a) [] (Asset.buffers a) (Asset.bufferViews a)
        (Asset.images a) (Asset.textures a) (Asset.materials a) (Asset.meshes a)
        (Asset.nodes a) (Asset.scenes a)
  | Buffers =>
      Asset.mk (Asset.defaultScene a) (Asset.accessors a) [] (Asset.bufferViews a)
        (Asset.images a) (Asset.textures a) (Asset.materials a) (Asset.meshes a)
        (Asset.nodes a) (Asset.scenes a)
  | BufferViews =>
      Asset.mk (Asset.defaultScene a) (Asset.accessors a) (Asset.buffers a) []
        (Asset.images a) (Asset.textures a) (Asset.materials a) (Asset.meshes a)
        (Asset.nodes a) (Asset.scenes a)
  | Images =>
      Asset.mk (Asset.defaultScene a) (Asset.accessors a) (Asset.buffers a)
        (Asset.bufferViews a) [] (Asset.textures a) (Asset.materials a) (Asset.meshes a)
        (Asset.nodes a) (Asset.scenes a)
  | Textures =>
      Asset.mk (Asset.defaultScene a) (Asset.accessors a) (Asset.buffers a)
        (Asset.bufferViews a) (Asset.images a) [] (Asset.materials a) (Asset.meshes a)
        (Asset.nodes a) (Asset.scenes a)
  | Materials =>
      Asset.mk (Asset.defaultScene a) (Asset.accessors a) (Asset.buffers a)
        (Asset.bufferViews a) (Asset.images a) (Asset.textures a) [] (Asset.meshes a)
        (Asset.nodes a) (Asset.scenes a)
  | Meshes =>
      Asset.mk (Asset.defaultScene a) (Asset.accessors a) (Asset.buffers a)
        (Asset.bufferViews a) (Asset.images a) (Asset.textures a) (Asset.materials a) []
        (Asset.nodes a) (Asset.scenes a)
  | Nodes =>
      Asset.mk (Asset.defaultScene a) (Asset.accessors a) (Asset.buffers a)
        (Asset.bufferViews a) (Asset.images a) (Asset.textures a) (Asset.materials a)
        (Asset.meshes a) [] (Asset.scenes a)
  | Scenes =>
      Asset.mk None (Asset.accessors a) (Asset.buffers a)
        (Asset.bufferViews a) (Asset.images a) (Asset.textures a) (Asset.materials a)
        (Asset.meshes a) (Asset.nodes a) []
  end.

(** The sequence of parser [p] in [a'] starts with the one in [a]. *)
Definition own_prefix (p : parser) (a a' : Asset.t) : Prop :=
  match p with
  | Accessors => Asset.accessors a `prefix_of` Asset.accessors a'
  | Buffers => Asset.buffers a `prefix_of` Asset.buffers a'
  | BufferViews => Asset.bufferViews a `prefix_of` Asset.bufferViews a'
  | Images => Asset.images a `prefix_of` Asset.images a'
  | Textures => Asset.textures a `prefix_of` Asset.textures a'
  | Materials => Asset.materials a `prefix_of` Asset.materials a'
  | Meshes => Asset.meshes a `prefix_of` Asset.meshes a'
  | Nodes => Asset.nodes a `prefix_of` Asset.nodes a'
  | Scenes => Asset.scenes a `prefix_of` Asset.scenes a'
  end.

(** Two handles on the same document, with the same settings. *)
Definition same_document (h h' : glTF) : Prop :=
  root h' = root h ∧ directory h' = directory h
  ∧ options h' = options h ∧ extensions h' = extensions h.

(** [a'] is [a] with objects appended to the sequence of [p] and nothing else. *)
Definition grown (p : parser) (a a' : Asset.t) : Prop :=
  elsewhere p a' = elsewhere p a ∧ own_prefix p a a'.

(** The handle after [n] turns of the loop of [p] started on [h0], whose
    asset was [a0]. *)
Definition progress (p : parser) (h0 : glTF) (a0 : Asset.t) (n : nat) (h : glTF) : Prop :=
  errorCode h = errorCode h0
  ∧ same_document h0 h
  ∧ ∃ a, parsedAsset h = Some a
         ∧ grown p a0 a
         ∧ (sequence_length p a <= sequence_length p a0 + n)%nat
         ∧ (p ≠ Meshes -> sequence_length p a = (sequence_length p a0 + n)%nat).

(** The handle that the loop of [p] leaves through [returnError(e)]. *)
Definition stopped (p : parser) (h0 : glTF) (a0 : Asset.t) (e : Error.t) (h : glTF) : Prop :=
  In e (recordable p)
  ∧ errorCode h = e
  ∧ same_document h0 h
  ∧ ∃ a, parsedAsset h = Some a ∧ grown p a0 a.

(** What a loop body of [p] may give: an object, nothing (only the
    [continue] of [parseMeshes]), or one of the errors of [p]. *)
Definition shape {A} (p : parser) (x : parsed (option A)) : Prop :=
  match x with
  | Parsed (Some _) => True
  | Parsed None => p = Meshes
  | Failed e => In e (recordable p)
  | Overrun => True
  end.

(** An [emplace_back] of [p]: it appends one object to the sequence of [p]. *)
Definition appends {A} (p : parser) (push : A -> Asset.t -> Asset.t) : Prop :=
  ∀ x a, elsewhere p (push x a) = elsewhere p a
         ∧ own_prefix p a (push x a)
         ∧ sequence_length p (push x a) = S (sequence_length p a).

(** [{"meshes":[{"name":"empty"},{"primitives":[{"attributes":{"POSITION":0}}]}],
    "nodes":[{"children":[1]},{"children":[]}],"images":7}] *)
Definition small_scene : object :=
  [ ("meshes", ARRAY [ OBJECT [("name", STRING "empty")];
                       OBJECT [("primitives",
                                ARRAY [OBJECT [("attributes",
                                                OBJECT [("POSITION", INT64 0)])]])] ]);
    ("nodes", ARRAY [ OBJECT [("children", ARRAY [INT64 1])];
                      OBJECT [("children", ARRAY [])] ]);
    ("images", INT64 7) ].

Definition small_scene_handle : glTF :=
  glTF_new small_scene (path_of "models") Options.None Extensions.None.

(** Two outcomes that cannot be told apart through the error returned, the
    error recorded and the asset. *)
Definition same_result (o1 o2 : outcome) : Prop :=
  match o1, o2 with
  | Returned e1 h1, Returned e2 h2 =>
      e1 = e2 ∧ errorCode h1 = errorCode h2 ∧ parsedAsset h1 = parsedAsset h2
  | Undefined, Undefined => True
  | _, _ => False
  end.

(** [small_scene] without its first mesh. *)
Definition one_mesh_handle : glTF :=
  glTF_new
    [ ("meshes", ARRAY [ OBJECT [("primitives",
                                  ARRAY [OBJECT [("attributes",
                                                  OBJECT [("POSITION", INT64 0)])]])] ]) ]
    (path_of "models") Options.None Extensions.None.


(** ** Arrays of a node and the [std::array] they are copied into *)

(** How many elements at the start of an array are numbers. *)
Fixpoint leading_numbers (values : array) : nat :=
  match values with
  | [] => 0
  | v :: rest => if is_number v then S (leading_numbers rest) else 0
  end.

(** The array under [key], when there is one, starts with at most [size] numbers. *)
Definition fits (o : object) (key : string) (size : nat) : Prop :=
  match get_array (at_key o key) with
  | ok values => (leading_numbers values <= size)%nat
  | err _ => True
  end.

(** The four arrays of a node fit the [std::array] members of [Node]. *)
Definition node_fits (v : element) : Prop :=
  match v with
  | OBJECT o =>
      fits o "matrix" 16 ∧ fits o "scale" 3 ∧ fits o "translation" 3 ∧ fits o "rotation" 4
  | _ => True
  end.

(** [{"nodes":[{"children":[],"matrix":[1,0,0,1]},{"children":[],"matrix":[1,"x"]}]}] *)
Definition short_matrix_handle : glTF :=
  glTF_new
    [ ("nodes", ARRAY [ OBJECT [ ("children", ARRAY []);
                                 ("matrix", ARRAY [INT64 1; INT64 0; INT64 0; INT64 1]) ];
                        OBJECT [ ("children", ARRAY []);
                                 ("matrix", ARRAY [INT64 1; STRING "x"]) ] ]) ]
    (path_of "models") Options.None Extensions.None.

(** A node with a [matrix] of seventeen numbers after a node that is accepted. *)
Definition long_matrix_node : object :=
  [ ("children", ARRAY []);
    ("matrix", ARRAY (repeat (INT64 0) 17)) ].

Definition long_matrix_handle : glTF :=
  glTF_new
    [ ("nodes", ARRAY [ OBJECT [ ("children", ARRAY []) ]; OBJECT long_matrix_node ]) ]
    (path_of "models") Options.None Extensions.None.

(** [{"children":[],"matrix":[1,0,0,1]}] *)
Definition short_matrix_node : object :=
  [ ("children", ARRAY []);
    ("matrix", ARRAY [INT64 1; INT64 0; INT64 0; INT64 1]) ].


(** [{"uri":"textures/wood.png","mimeType":"image/png"}] *)
Definition wood_image : object :=
  [ ("uri", STRING "textures/wood.png"); ("mimeType", STRING "image/png") ].





(** ** [Parser::loadBinaryGLTF] (lines 1121-1223), as compiled without [DEBUG] *)

(** ASCII for "glTF" (line 31), and the chunk types compared at lines 1160 and 1189. *)
Definition binaryGltfHeaderMagic : Z := 0x46546C67.
Definition jsonChunkType : Z := 0x4E4F534A.
Definition binaryChunkType : Z := 0x004E4942.

(** A [uint32_t] as the four bytes that a little-endian machine stores. *)
Definition uint32_le (b : list Byte.byte) : Z :=
  fold_right (fun byte value => (Z.of_N (Byte.to_N byte) + 256 * value)%Z) 0%Z b.

(** [struct BinaryGltfHeader] (lines 33-37), filled from its twelve bytes. *)
Module BinaryGltfHeader.
Record t : Type := mk {
  magic : Z;
  version : Z;
  length : Z;
}.
Definition of_bytes (b : list Byte.byte) : t :=
  mk (uint32_le (take 4 b)) (uint32_le (take 4 (drop 4 b))) (uint32_le (take 4 (drop 8 b))).
End BinaryGltfHeader.

(** [struct BinaryGltfChunk] (lines 40-43), filled from its eight bytes. *)
Module BinaryGltfChunk.
Record t : Type := mk {
  chunkLength : Z;
  chunkType : Z;
}.
Definition of_bytes (b : list Byte.byte) : t :=
  mk (uint32_le (take 4 b)) (uint32_le (take 4 (drop 4 b))).
End BinaryGltfChunk.

(** [std::ifstream], as far as [loadBinaryGLTF] uses it: the bytes of the
    file, the read position and [failbit]. *)
Module ifstream.
Record t : Type := mk {
  content : list Byte.byte;
  position : nat;
  failbit : bool;
}.

(** [std::ifstream gltfFile(file, std::ios::binary)]; a file that cannot be
    opened ([None]) leaves the stream failed. *)
Definition open (file : option (list Byte.byte)) : t :=
  match file with
  | Some content => mk content 0 false
  | None => mk [] 0 true
  end.

(** [gltfFile.read(dst, size)] into a zero-initialised [dst] of [size] bytes:
    what [dst] holds afterwards, and the stream.  A failed stream reads
    nothing; a read that meets the end of the file stores the bytes there
    are and sets [failbit]. *)
Definition read (size : nat) (s : t) : list Byte.byte * t :=
  if failbit s then (replicate size Byte.x00, s)
  else
    let available := take size (drop (position s) (content s)) in
    if (List.length available <? size)%nat
    then ((available ++ replicate (size - List.length available) Byte.x00)%list,
          mk (content s) (position s + List.length available) true)
    else (available, mk (content s) (position s + size) false).

(** [gltfFile.tellg()]: -1 on a failed stream. *)
Definition tellg (s : t) : Z :=
  if failbit s then (-1)%Z else Z.of_nat (position s).
End ifstream.

(** The end of [loadBinaryGLTF], written out twice there (lines 1200-1208 and
    1213-1221): the two checks a new handle has to pass. *)
Definition checked_handle (parser : Parser.t) (options : Z) (gltf : glTF)
    : option glTF * Parser.t :=
  if negb (hasBit options Options.DontRequireValidAssetMember)
     && negb (fst (checkAssetField gltf))
  then (None, Parser.set_errorCode Error.InvalidOrMissingAssetField parser)
  else
    let '(passed, gltf) := checkExtensions gltf in
    if negb passed then (None, Parser.set_errorCode (errorCode gltf) parser)
    else (Some gltf, parser).

(** [Parser::loadBinaryGLTF(const fs::path& file, options)].  What it asks of
    the outside are arguments: [is_regular_file] is what
    [fs::is_regular_file(file)] answers, [contents] are the bytes of the file
    ([None] when it cannot be opened) and [parse] is what [jsonParser->parse]
    returns for the bytes of the JSON chunk.  The vectors are taken to be
    allocated without an exception. *)
Definition loadBinaryGLTF (parse : list Byte.byte -> simdjson.result element)
    (parser : Parser.t) (file : path) (is_regular_file : bool)
    (contents : option (list Byte.byte)) (options : Z) : option glTF * Parser.t :=
  if negb is_regular_file then (None, Parser.set_errorCode Error.InvalidPath parser)
  else
    let parser := Parser.set_errorCode Error.None parser in
    let gltfFile := ifstream.open contents in
    let '(bytes, gltfFile) := ifstream.read 12 gltfFile in
    let header := BinaryGltfHeader.of_bytes bytes in
    if negb (BinaryGltfHeader.magic header =? binaryGltfHeaderMagic)%Z
       || negb (BinaryGltfHeader.version header =? 2)%Z
    then (None, Parser.set_errorCode Error.InvalidGLB parser)
    else
      let '(bytes, gltfFile) := ifstream.read 8 gltfFile in
      let jsonChunk := BinaryGltfChunk.of_bytes bytes in
      if negb (BinaryGltfChunk.chunkType jsonChunk =? jsonChunkType)%Z
      then (None, Parser.set_errorCode Error.InvalidGLB parser)
      else
        let '(jsonData, gltfFile) :=
          ifstream.read (Z.to_nat (BinaryGltfChunk.chunkLength jsonChunk)) gltfFile in
        match get_object (parse jsonData) with
        | err _ => (None, Parser.set_errorCode Error.InvalidJson parser)
        | ok data =>
            if (BinaryGltfHeader.length header
                >? static_cast_uint32 (ifstream.tellg gltfFile) + 8)%Z
            then
              let '(bytes, gltfFile) := ifstream.read 8 gltfFile in
              let binaryChunk := BinaryGltfChunk.of_bytes bytes in
              if negb (BinaryGltfChunk.chunkType binaryChunk =? binaryChunkType)%Z
              then (None, Parser.set_errorCode Error.InvalidGLB parser)
              else
                let gltf :=
                  if hasBit options Options.LoadGLBBuffers then
                    let '(binary, gltfFile) :=
                      ifstream.read (Z.to_nat (BinaryGltfChunk.chunkLength binaryChunk))
                        gltfFile in
                    glTF_new_loaded data file (raw_bytes binary) options
                      (Parser.extensions parser)
                  else
                    glTF_new_lazy data file
                      (static_cast_size_t (ifstream.tellg gltfFile))
                      (BinaryGltfChunk.chunkLength binaryChunk) options
                      (Parser.extensions parser) in
                checked_handle parser options gltf
            else
              checked_handle parser options
                (glTF_new data file options (Parser.extensions parser))
        end.

(** [Parser::loadBinaryGLTF(std::string_view file, options)] (lines 1225-1232). *)
Definition loadBinaryGLTF_string_view (parse : list Byte.byte -> simdjson.result element)
    (parser : Parser.t) (file : string) (is_regular_file : bool)
    (contents : option (list Byte.byte)) (options : Z) : option glTF * Parser.t :=
  if String.eqb file "" || negb is_regular_file
  then (None, Parser.set_errorCode Error.InvalidPath parser)
  else loadBinaryGLTF parse parser (path_of file) is_regular_file contents options.

(** ** The GLB container, to state what [loadBinaryGLTF] reads back *)

(** The four bytes of a [uint32_t], least significant first. *)
Definition byte_of (z : Z) : Byte.byte :=
  default Byte.x00 (Byte.of_N (Z.to_N (z mod 256))).

Definition uint32_bytes (z : Z) : list Byte.byte :=
  [ byte_of z; byte_of (z / 256); byte_of (z / 65536); byte_of (z / 16777216) ].

(** The header and the JSON chunk of a file of [total] bytes. *)
Definition glb_head (total : Z) (json : list Byte.byte) : list Byte.byte :=
  (uint32_bytes binaryGltfHeaderMagic ++ uint32_bytes 2 ++ uint32_bytes total
   ++ uint32_bytes (Z.of_nat (length json)) ++ uint32_bytes jsonChunkType ++ json)%list.


(** A GLB file with a JSON chunk and a BIN chunk. *)
Definition glb_json_bin (json bin : list Byte.byte) : list Byte.byte :=
  (glb_head (28 + Z.of_nat (length json) + Z.of_nat (length bin)) json
   ++ uint32_bytes (Z.of_nat (length bin)) ++ uint32_bytes binaryChunkType ++ bin)%list.


(** A small GLB file: the JSON text [{}] and three bytes of binary data;
    the parser of the example reads every text as the empty object. *)
Definition box_json : list Byte.byte := [Byte.x7b; Byte.x7d].
Definition box_bin : list Byte.byte := [Byte.x01; Byte.x02; Byte.x03].
Definition box_parse (text : list Byte.byte) : simdjson.result element := ok (OBJECT []).
Definition box_parser : Parser.t := Parser.mk Extensions.None Error.InvalidPath.


(** [{"buffers":[{"byteLength":3}]}], and the parser of an example that
    reads every text as this document. *)
Definition box_document : object :=
  [ ("buffers", ARRAY [OBJECT [("byteLength", INT64 3)]]) ].
Definition box_document_parse (text : list Byte.byte) : simdjson.result element :=
  ok (OBJECT box_document).


(** [{"emissiveFactor":[1,0,0],"pbrMetallicRoughness":{"baseColorFactor":[1,1,1,1,9]}}] *)
Definition glowing_material : object :=
  [ ("emissiveFactor", ARRAY [INT64 1; INT64 0; INT64 0]);
    ("pbrMetallicRoughness",
     OBJECT [("baseColorFactor", ARRAY [INT64 1; INT64 1; INT64 1; INT64 1; INT64 9])]) ].


(** [{"attributes":{"POSITION":0,"NORMAL":1,"POSITION":2}}] *)
Definition twice_positioned_primitive : object :=
  [ ("attributes",
     OBJECT [("POSITION", INT64 0); ("NORMAL", INT64 1); ("POSITION", INT64 2)]) ].


(** [{"scene":5,"scenes":[{"nodes":[0]},{"name":"empty"}]}] *)
Definition far_default_scene_handle : glTF :=
  glTF_new
    [ ("scene", INT64 5);
      ("scenes", ARRAY [ OBJECT [("nodes", ARRAY [INT64 0])];
                         OBJECT [("name", STRING "empty")] ]) ]
    (path_of "models") Options.None Extensions.None.




(** ** What [loadBinaryGLTF] makes of any file *)

(** What a zero-initialised destination of [size] bytes holds after a read at
    [offset] from a stream that has not failed: the bytes that the file has
    there, then zeros. *)
Definition file_bytes (content : list Byte.byte) (offset size : nat) : list Byte.byte :=
  let available := take size (drop offset content) in
  (available ++ replicate (size - length available) Byte.x00)%list.

(** The header, the header of the JSON chunk and the length of that chunk, as
    the file has them. *)
Definition glb_header (content : list Byte.byte) : BinaryGltfHeader.t :=
  BinaryGltfHeader.of_bytes (file_bytes content 0 12).
Definition glb_json_chunk (content : list Byte.byte) : BinaryGltfChunk.t :=
  BinaryGltfChunk.of_bytes (file_bytes content 12 8).
Definition glb_json_length (content : list Byte.byte) : nat :=
  Z.to_nat (BinaryGltfChunk.chunkLength (glb_json_chunk content)).

(** The text that is handed to the JSON parser. *)
Definition glb_json_text (content : list Byte.byte) : list Byte.byte :=
  file_bytes content 20 (glb_json_length content).

(** The header of the chunk after the JSON chunk. *)
Definition glb_binary_chunk (content : list Byte.byte) : BinaryGltfChunk.t :=
  BinaryGltfChunk.of_bytes (file_bytes content (20 + glb_json_length content) 8).

(** The file holds all of its JSON chunk, and its header gives a length that
    leaves room for the header of another chunk after it. *)
Definition glb_has_binary_chunk (content : list Byte.byte) : bool :=
  (20 + glb_json_length content <=? length content)%nat
  && (BinaryGltfHeader.length (glb_header content)
      >? static_cast_uint32 (Z.of_nat (20 + glb_json_length content)) + 8)%Z.

(** The handle for a file whose JSON chunk is the object [data]: with the
    bytes after the header of the second chunk (as many as that header says,
    zeros where the file ends before), or with their place in the file (-1
    as a [size_t] when the file ends within that header), or without a GLB
    part. *)
Definition glb_handle (content : list Byte.byte) (data : object) (file : path)
    (options extensions : Z) : glTF :=
  let n := glb_json_length content in
  if glb_has_binary_chunk content then
    if hasBit options Options.LoadGLBBuffers then
      glTF_new_loaded data file
        (raw_bytes (file_bytes content (28 + n)
                      (Z.to_nat (BinaryGltfChunk.chunkLength (glb_binary_chunk content)))))
        options extensions
    else
      glTF_new_lazy data file
        (if (28 + n <=? length content)%nat then Z.of_nat (28 + n)
         else static_cast_size_t (-1))
        (BinaryGltfChunk.chunkLength (glb_binary_chunk content))
        options extensions
  else glTF_new data file options extensions.


(** * Properties *)

(** ** The extension gate *)

(** Once a name of the registry is being looked up, [listed] ends up set as
    soon as any one of the three flags is enabled. *)
Lemma checkExtensions_registry_known (flags : Z) (name : string) :
  In name (map fst extensionStrings) ->
  checkExtensions_registry flags name extensionStrings false false
  = (true, hasBit flags Extensions.KHR_texture_basisu
           || hasBit flags Extensions.KHR_texture_transform
           || hasBit flags Extensions.MSFT_texture_dds).
Proof.
  intros Hin. simpl in Hin.
  destruct Hin as [<- | [<- | [<- | []]]]; simpl;
    destruct (hasBit flags Extensions.KHR_texture_basisu),
             (hasBit flags Extensions.KHR_texture_transform),
             (hasBit flags Extensions.MSFT_texture_dds); reflexivity.
Qed.

(** C1, at its failing input: the document requires KHR_texture_transform,
    the caller enabled KHR_texture_basisu only, and yet [checkExtensions]
    returns [true], records no error, and [loadGLTF] returns the handle.
    The same document is refused with [MissingExtensions] only when no
    extension at all is enabled. *)
Theorem checkExtensions_accepts_when_another_is_enabled :
  hasBit (extensions transform_required_handle) Extensions.KHR_texture_transform = false
  /\ checkExtensions transform_required_handle = (true, transform_required_handle)
  /\ loadGLTF basisu_parser (ok (OBJECT transform_required)) (path_of "models") true
       Options.None
     = (Some transform_required_handle, basisu_parser)
  /\ loadGLTF (Parser.mk Extensions.None Error.None) (ok (OBJECT transform_required))
       (path_of "models") true Options.None
     = (None, Parser.mk Extensions.None Error.MissingExtensions).
Proof. repeat split; vm_compute; reflexivity. Qed.

(** ** Nodes and scenes *)

Lemma at_key_absent (o : object) (key : string) :
  absent key o <-> at_key o key = err NO_SUCH_FIELD.
Proof.
  unfold absent. induction o as [| [k v] o IH]; simpl.
  - split; [reflexivity | intros _; apply not_elem_of_nil].
  - rewrite not_elem_of_cons, IH.
    destruct (String.eqb_spec k key) as [-> | Hne].
    + split; [intros [[] _]; reflexivity | discriminate].
    + split; [intros [_ H]; exact H | intros H; split; [congruence | exact H]].
Qed.

Lemma getJsonArray_absent (o : object) (key : string) :
  absent key o -> getJsonArray o key = (Error.MissingField, []).
Proof.
  intros H. apply at_key_absent in H. unfold getJsonArray. rewrite H. reflexivity.
Qed.

(** A node object without [children] makes the loop body leave with [MissingField]. *)
Lemma parseNode_without_children (o : object) :
  absent "children" o -> parseNode (OBJECT o) = Failed Error.MissingField.
Proof.
  intros H. unfold parseNode. simpl.
  rewrite (getJsonArray_absent _ _ H). reflexivity.
Qed.

(** A scene object without [nodes] makes the loop body leave with [MissingField]. *)
Lemma parseScene_without_nodes (o : object) :
  absent "nodes" o -> parseScene (OBJECT o) = Failed Error.MissingField.
Proof.
  intros H. unfold parseScene. simpl.
  rewrite (getJsonArray_absent _ _ H). reflexivity.
Qed.

(** C2, at its failing input: the first node has no [children]; [parseNodes]
    returns [MissingField], records it on the handle, emits no node at all
    (the second, well-formed node is never reached), and the asset is no
    longer handed out. *)
Theorem parseNodes_node_without_children :
  parseNodes leaf_first_handle
  = Returned Error.MissingField (set_errorCode Error.MissingField leaf_first_handle)
  /\ (Asset.nodes <$> parsedAsset (set_errorCode Error.MissingField leaf_first_handle)) = Some []
  /\ fst (getParsedAsset (set_errorCode Error.MissingField leaf_first_handle)) = None.
Proof. repeat split; vm_compute; reflexivity. Qed.

(** C3, at its failing input: the first scene has no [nodes]; [parseScenes]
    returns [MissingField] and records it on the handle, so the error does
    reach the caller; the second scene is never reached. *)
Theorem parseScenes_scene_without_nodes :
  parseScenes empty_scene_first_handle
  = Returned Error.MissingField (set_errorCode Error.MissingField empty_scene_first_handle)
  /\ errorCode (set_errorCode Error.MissingField empty_scene_first_handle) = Error.MissingField
  /\ fst (getParsedAsset (set_errorCode Error.MissingField empty_scene_first_handle)) = None.
Proof. repeat split; vm_compute; reflexivity. Qed.

(** ** The sticky error code *)

Lemma Error_eqb_eq (a b : Error.t) : Error.eqb a b = true <-> a = b.
Proof. destruct a, b; simpl; split; intros H; try reflexivity; discriminate. Qed.

Lemma Error_eqb_neq (a b : Error.t) : Error.eqb a b = false <-> a ≠ b.
Proof.
  rewrite <- Error_eqb_eq. destruct (Error.eqb a b); split; congruence.
Qed.

Lemma negb_Error_eqb (a b : Error.t) : negb (Error.eqb a b) = true -> a ≠ b.
Proof. intros H. apply Error_eqb_neq. destruct (Error.eqb a b); [discriminate | reflexivity]. Qed.

Lemma sound_bind {A B} ub (p : parsed A) (k : A -> parsed B) :
  sound ub p -> (∀ a, sound ub (k a)) -> sound ub (parsed_bind p k).
Proof. destruct p; simpl; auto. Qed.

Lemma sound_required {A} ub (r : simdjson.result A) : sound ub (required r).
Proof. destruct r; simpl; [exact I | discriminate]. Qed.

Lemma sound_keep {A} ub (p : parsed A) : sound ub p -> sound ub (keep p).
Proof. destruct p; simpl; auto. Qed.

Lemma sound_parse_all {A} ub (body : element -> parsed A) (values : array) :
  (∀ v, sound ub (body v)) -> sound ub (parse_all body values).
Proof.
  intros Hbody. induction values as [| v values IH]; simpl; [exact I |].
  apply sound_bind; [apply Hbody | intros a].
  apply sound_bind; [exact IH | intros others; exact I].
Qed.

(** Takes a goal [sound ub p] apart along the binds, conditionals and matches of [p]. *)
Ltac sound_step :=
  lazymatch goal with
  | |- sound _ (parsed_bind _ _) => apply sound_bind; [| intros ?]
  | |- sound _ (required _) => apply sound_required
  | |- sound _ (keep _) => apply sound_keep
  | |- sound _ (parse_all _ _) => apply sound_parse_all; intros ?
  | |- sound _ (Parsed _) => exact I
  | |- sound _ (Failed Error.InvalidGltf) => discriminate
  | H : negb (Error.eqb ?e Error.None) = true |- sound _ (Failed ?e) =>
      exact (negb_Error_eqb _ _ H)
  | H : Error.eqb ?e Error.None = false |- sound _ (Failed ?e) =>
      exact (proj1 (Error_eqb_neq _ _) H)
  | |- sound _ (if ?b then _ else _) => destruct b eqn:?
  | |- sound _ (match ?x with _ => _ end) => destruct x eqn:?
  end.

Ltac sound_tac := repeat sound_step.

Lemma sound_parseAccessor h v : sound false (parseAccessor h v).
Proof. unfold parseAccessor. sound_tac. Qed.

Lemma sound_parseBufferView v : sound false (parseBufferView v).
Proof. unfold parseBufferView. sound_tac. Qed.

Lemma sound_parseBuffer h i v : sound false (parseBuffer h i v).
Proof. unfold parseBuffer. sound_tac. Qed.

Lemma sound_parseImage h v : sound false (parseImage h v).
Proof. unfold parseImage. sound_tac. Qed.

Lemma sound_texture_member h o key : sound false (texture_member h o key).
Proof. unfold texture_member. sound_tac. Qed.

Lemma sound_parsePBRData h o : sound false (parsePBRData h o).
Proof. unfold parsePBRData. sound_tac; apply sound_texture_member. Qed.

Lemma sound_parseMaterial h v : sound false (parseMaterial h v).
Proof.
  unfold parseMaterial. sound_tac;
    try apply sound_texture_member; try apply sound_parsePBRData.
Qed.

Lemma sound_parseAttributes fields attributes : sound false (parseAttributes fields attributes).
Proof.
  revert attributes. induction fields as [| [key value] fields IH]; intros attributes; simpl.
  - exact I.
  - apply sound_bind; [apply sound_required | intros a; apply IH].
Qed.

Lemma sound_parsePrimitive v : sound false (parsePrimitive v).
Proof. unfold parsePrimitive. sound_tac. apply sound_parseAttributes. Qed.

Lemma sound_parseMesh v : sound false (parseMesh v).
Proof. unfold parseMesh. sound_tac. apply sound_parsePrimitive. Qed.

Lemma sound_parseNodeArray o key size initial default :
  sound true (parseNodeArray o key size initial default).
Proof. unfold parseNodeArray. sound_tac. reflexivity. Qed.

Lemma sound_parseNode v : sound true (parseNode v).
Proof.
  unfold parseNode. sound_tac; try apply sound_parseNodeArray; try reflexivity.
Qed.

Lemma sound_parseScene v : sound false (parseScene v).
Proof. unfold parseScene. sound_tac. Qed.

Lemma sound_parseTexture h v : sound false (parseTexture h v).
Proof. unfold parseTexture. sound_tac. Qed.

Lemma emplace_turn_ok {A} ub (p : parsed (option A)) (push : A -> Asset.t -> Asset.t) h :
  sound ub p -> turn_ok ub h (emplace p push h).
Proof.
  destruct p as [[a |] | e |]; simpl; intros H; auto.
Qed.

Lemma for_each_outcome_ok ub (body : element -> glTF -> flow) :
  (∀ v h, turn_ok ub h (body v h)) ->
  ∀ values h, outcome_ok ub h (for_each body values h).
Proof.
  intros Hbody values. induction values as [| v values IH]; intros h; simpl.
  - left. split; [reflexivity | right; reflexivity].
  - specialize (Hbody v h). destruct (body v h) as [h1 | [e h1 |]]; simpl in Hbody.
    + specialize (IH h1). destruct (for_each body values h1) as [e h2 |]; simpl in *.
      * unfold error_kept_or_replaced in *. rewrite Hbody in IH. exact IH.
      * exact IH.
    + right. exact Hbody.
    + exact Hbody.
Qed.

Lemma parseBuffer_handle h i v buffer h' :
  parseBuffer h i v = Parsed (buffer, h') -> errorCode h' = errorCode h.
Proof.
  unfold parseBuffer. intros H.
  repeat match type of H with
         | parsed_bind ?p _ = _ => destruct p eqn:?; simpl in H; try discriminate
         | (let '(_, _) := ?x in _) = _ => destruct x eqn:?
         | (if ?b then _ else _) = _ => destruct b eqn:?; try discriminate
         | (match ?x with _ => _ end) = _ => destruct x eqn:?; try discriminate
         end.
  all: repeat match goal with
         | H : Parsed _ = Parsed _ |- _ => inversion H; subst; clear H
         | H : Failed _ = Parsed _ |- _ => discriminate H
         | H : (if ?b then _ else _) = Parsed _ |- _ => destruct b eqn:?
         | H : (match ?x with _ => _ end) = Parsed _ |- _ => destruct x eqn:?
         | H : (let '(_, _) := ?x in _) = Parsed _ |- _ => destruct x eqn:?
         end.
  all: reflexivity.
Qed.

Lemma parseBuffers_loop_outcome_ok i buffers h :
  outcome_ok false h (parseBuffers_loop i buffers h).
Proof.
  revert i h. induction buffers as [| v buffers IH]; intros i h; simpl.
  - left. split; [reflexivity | right; reflexivity].
  - pose proof (sound_parseBuffer h i v) as Hs.
    destruct (parseBuffer h i v) as [[buffer h1] | e |] eqn:Hp; simpl in Hs.
    + apply parseBuffer_handle in Hp.
      specialize (IH (i + 1)%Z (update_asset (push_buffer buffer) h1)).
      destruct (parseBuffers_loop _ buffers _) as [e h2 |]; simpl in *; [| exact IH].
      unfold error_kept_or_replaced in *. simpl in IH. rewrite Hp in IH. exact IH.
    + right. split; [exact Hs | reflexivity].
    + discriminate Hs.
Qed.

(** The opening lines of a parser, case by case. *)
Lemma top_level_array_cases name (k : array -> glTF -> outcome) h :
  top_level_array name k h = Returned Error.None h
  ∨ (∃ e, e ≠ Error.None ∧ top_level_array name k h = returnError e h)
  ∨ (∃ values, top_level_array name k h = k values h).
Proof.
  unfold top_level_array.
  destruct (getJsonArray (root h) name) as [error values].
  destruct (Error.eqb error Error.MissingField); [left; reflexivity |].
  destruct (negb (Error.eqb error Error.None)) eqn:Hne.
  - right; left. exists error. split; [exact (negb_Error_eqb _ _ Hne) | reflexivity].
  - right; right. exists values. reflexivity.
Qed.


Lemma outcome_ok_same_error ub h1 h o :
  errorCode h1 = errorCode h -> outcome_ok ub h1 o -> outcome_ok ub h o.
Proof.
  intros Heq. destruct o; simpl; [| auto].
  unfold error_kept_or_replaced. rewrite Heq. auto.
Qed.

(** What any of the nine parsers does to the error code of any handle; only
    a null [parsedAsset], or an over-long array of a node, is undefined. *)
Lemma run_outcome (p : parser) (h : glTF) :
  match run p h with
  | Returned e h' => error_kept_or_replaced h e h'
  | Undefined => parsedAsset h = None ∨ p = Nodes
  end.
Proof.
  assert (∀ name loop,
            (∀ values h, outcome_ok (match p with Nodes => true | _ => false end) h
                           (loop values h)) ->
            match top_level_array name (fun values h => with_asset h (loop values)) h with
            | Returned e h' => error_kept_or_replaced h e h'
            | Undefined => parsedAsset h = None ∨ p = Nodes
            end) as Hgeneral.
  { intros name loop Hloop.
    destruct (top_level_array_cases name (fun values h => with_asset h (loop values)) h)
      as [-> | [(e & He & ->) | (values & ->)]].
    - left. split; [reflexivity | left; reflexivity].
    - right. split; [exact He | reflexivity].
    - unfold with_asset. destruct (parsedAsset h); [| left; reflexivity].
      specialize (Hloop values h). destruct (loop values h); simpl in Hloop; [exact Hloop |].
      right. destruct p; first [reflexivity | discriminate Hloop]. }
  destruct p; simpl; apply Hgeneral; intros values h0.
  - apply for_each_outcome_ok; intros v h1; apply emplace_turn_ok, sound_keep, sound_parseAccessor.
  - apply parseBuffers_loop_outcome_ok.
  - apply for_each_outcome_ok; intros v h1; apply emplace_turn_ok, sound_keep, sound_parseBufferView.
  - apply for_each_outcome_ok; intros v h1; apply emplace_turn_ok, sound_keep, sound_parseImage.
  - apply for_each_outcome_ok; intros v h1; apply emplace_turn_ok, sound_keep, sound_parseMaterial.
  - apply for_each_outcome_ok; intros v h1; apply emplace_turn_ok, sound_parseMesh.
  - apply for_each_outcome_ok; intros v h1; apply emplace_turn_ok, sound_keep, sound_parseNode.
  - match goal with
    | |- outcome_ok _ _ (for_each ?body _ ?h1) =>
        apply (outcome_ok_same_error false h1);
          [destruct (get_uint64 (at_key (root h0) "scene")); reflexivity |];
        apply for_each_outcome_ok; intros v h2; apply emplace_turn_ok, sound_parseScene
    end.
  - apply for_each_outcome_ok; intros v h1; apply emplace_turn_ok, sound_keep, sound_parseTexture.
Qed.












(** ** [parseScenes] without a [scenes] array *)

(** C9: when the document has no [scenes] member, [parseScenes] returns
    [Error::None] and leaves the handle as it was, whatever the document has
    under [scene]; the asset's [defaultScene] is therefore not written. *)
Theorem parseScenes_without_scenes (h : glTF) :
  absent "scenes" (root h) -> parseScenes h = Returned Error.None h.
Proof.
  intros H. unfold parseScenes, top_level_array.
  rewrite (getJsonArray_absent _ _ H). reflexivity.
Qed.

Lemma parseScenes_without_scenes_witness :
  absent "scenes" (root leaf_first_handle)
  ∧ get_uint64 (at_key (root leaf_first_handle) "scene") = ok 0%Z
  ∧ parseScenes leaf_first_handle = Returned Error.None leaf_first_handle
  ∧ (Asset.defaultScene <$> parsedAsset leaf_first_handle) = Some None.
Proof.
  assert (absent "scenes" (root leaf_first_handle)) as H
    by (apply at_key_absent; reflexivity).
  split; [exact H |]. split; [reflexivity |].
  split; [apply (parseScenes_without_scenes leaf_first_handle H) | reflexivity].
Defined.

(** ** [getParsedAsset] hands the asset out once *)

Lemma run_without_asset (p : parser) (h : glTF) (e : Error.t) (h' : glTF) :
  parsedAsset h = None -> run p h = Returned e h' -> parsedAsset h' = None.
Proof.
  intros Hnull.
  assert (∀ name loop,
            top_level_array name (fun values h => with_asset h (loop values)) h
            = Returned e h' -> parsedAsset h' = None) as Hgeneral.
  { intros name loop.
    destruct (top_level_array_cases name (fun values h => with_asset h (loop values)) h)
      as [-> | [(e0 & _ & ->) | (values & ->)]].
    - intros [= _ <-]. exact Hnull.
    - unfold returnError. intros [= _ <-]. exact Hnull.
    - unfold with_asset. rewrite Hnull. discriminate. }
  destruct p; simpl; apply Hgeneral.
Qed.

Lemma after_calls_without_asset (calls : list call) (h h' : glTF) :
  parsedAsset h = None -> after_calls calls h = Some h' -> parsedAsset h' = None.
Proof.
  revert h. induction calls as [| [p |] calls IH]; intros h Hnull; simpl.
  - intros [= <-]. exact Hnull.
  - destruct (run p h) as [e h1 |] eqn:Hrun; [| discriminate].
    apply IH. exact (run_without_asset p h e h1 Hnull Hrun).
  - apply IH. unfold getParsedAsset.
    destruct (negb (Error.eqb (errorCode h) Error.None)); [exact Hnull | reflexivity].
Qed.

Lemma getParsedAsset_without_asset (h : glTF) :
  parsedAsset h = None -> fst (getParsedAsset h) = None.
Proof.
  intros Hnull. unfold getParsedAsset.
  destruct (negb (Error.eqb (errorCode h) Error.None)); [reflexivity | exact Hnull].
Qed.

(** C10: on a handle without error that still owns its asset, the first
    [getParsedAsset] returns the asset; every later one returns nothing, with
    the error code still [None] when only [getParsedAsset] is called in
    between, and also after any parser calls that were not undefined. *)
Theorem getParsedAsset_one_shot (h : glTF) (a : Asset.t) :
  errorCode h = Error.None ->
  parsedAsset h = Some a ->
  fst (getParsedAsset h) = Some a
  ∧ (∀ n, let hn := Nat.iter n (fun h => snd (getParsedAsset h)) (snd (getParsedAsset h)) in
          fst (getParsedAsset hn) = None ∧ errorCode hn = Error.None)
  ∧ (∀ calls h', after_calls calls (snd (getParsedAsset h)) = Some h' ->
                 fst (getParsedAsset h') = None).
Proof.
  intros Herr Hasset.
  assert (getParsedAsset h = (Some a, set_parsedAsset None h)) as Hfirst.
  { unfold getParsedAsset. rewrite Herr, Hasset. reflexivity. }
  rewrite Hfirst. simpl. split; [reflexivity |]. split.
  - intros n.
    assert (parsedAsset (Nat.iter n (fun h => snd (getParsedAsset h)) (set_parsedAsset None h)) = None
            ∧ errorCode (Nat.iter n (fun h => snd (getParsedAsset h)) (set_parsedAsset None h))
              = Error.None) as [Hnull Hnone].
    { induction n as [| n [IHa IHe]]; simpl; [split; [reflexivity | exact Herr] |].
      unfold getParsedAsset at 1 3. rewrite IHe. simpl. split; [reflexivity | exact IHe]. }
    split; [apply getParsedAsset_without_asset, Hnull | exact Hnone].
  - intros calls h' Hcalls. apply getParsedAsset_without_asset.
    exact (after_calls_without_asset calls (set_parsedAsset None h) h' eq_refl Hcalls).
Qed.

Lemma getParsedAsset_one_shot_witness :
  errorCode leaf_first_handle = Error.None
  ∧ parsedAsset leaf_first_handle = Some Asset.init
  ∧ fst (getParsedAsset leaf_first_handle) = Some Asset.init
  ∧ fst (getParsedAsset (snd (getParsedAsset leaf_first_handle))) = None
  ∧ errorCode (snd (getParsedAsset leaf_first_handle)) = Error.None.
Proof.
  pose proof (getParsedAsset_one_shot leaf_first_handle Asset.init eq_refl eq_refl)
    as (Hfirst & Hlater & _).
  split; [reflexivity |]. split; [reflexivity |]. split; [exact Hfirst |].
  exact (Hlater 0%nat).
Defined.

(** ** [decodeUri] *)

Lemma free_of_cons (c a : ascii) (s : string) :
  free_of c (String a s) <-> a ≠ c ∧ free_of c s.
Proof. unfold free_of. simpl. tauto. Qed.

Lemma find_first_free (s : string) (c : ascii) :
  free_of c s <-> find_first s c = None.
Proof.
  induction s as [| a s IH]; simpl.
  - split; [reflexivity | intros _ []].
  - rewrite free_of_cons. destruct (Ascii.eqb_spec a c) as [-> | Hne].
    + split; [intros [[] _]; reflexivity | discriminate].
    + rewrite IH. destruct (find_first s c); simpl; split;
        first [ intros [_ ?]; discriminate | discriminate
              | reflexivity | intros _; split; [exact Hne | reflexivity] ].
Qed.

Lemma find_first_app (before rest : string) (c : ascii) :
  free_of c before ->
  find_first (before ++ String c rest) c = Some (String.length before).
Proof.
  induction before as [| a before IH]; simpl; intros Hfree.
  - rewrite Ascii.eqb_refl. reflexivity.
  - apply free_of_cons in Hfree as [Hne Hfree].
    destruct (Ascii.eqb_spec a c) as [-> | _]; [congruence |].
    rewrite (IH Hfree). reflexivity.
Qed.

Lemma free_of_app (c : ascii) (s t : string) :
  free_of c (s ++ t) <-> free_of c s ∧ free_of c t.
Proof.
  induction s as [| a s IH].
  - simpl. split; [intros H; split; [intros [] | exact H] | intros [_ H]; exact H].
  - change (String a s ++ t) with (String a (s ++ t)).
    rewrite !free_of_cons, IH. tauto.
Qed.

Lemma string_drop_app (before rest : string) :
  string_drop (String.length before) (before ++ rest) = rest.
Proof. induction before as [| a before IH]; simpl; [destruct rest |]; auto. Qed.

Lemma string_take_app (s rest : string) :
  string_take (String.length s) (s ++ rest) = s.
Proof. induction s as [| a s IH]; simpl; [destruct rest | rewrite IH]; reflexivity. Qed.

(** [uri.substr(0, 4) == "data"] says that [uri] begins with [data]. *)
Lemma begins_with_data (uri : string) :
  String.eqb (substr uri 0 (Some 4)) "data" = true <-> ∃ rest, uri = "data" ++ rest.
Proof.
  rewrite String.eqb_eq. unfold substr. simpl. split.
  - intros H.
    destruct uri as [| a1 [| a2 [| a3 [| a4 rest]]]]; simpl in H; try discriminate.
    injection H as -> -> -> ->. exists rest. reflexivity.
  - intros [rest ->]. reflexivity.
Qed.

(** What [uri.find(';')] answers on a string cut at its first [;]. *)
Lemma find_semicolon (before rest : string) :
  free_of ";" before ->
  find (before ++ ";" ++ rest) ";" 0 = Some (String.length before).
Proof.
  intros Hfree. unfold find. simpl string_drop.
  change (";" ++ rest) with (String ";" rest).
  rewrite (find_first_app before rest ";" Hfree). reflexivity.
Qed.

Lemma drop_past_semicolon (before rest : string) :
  string_drop (S (String.length before)) (before ++ ";" ++ rest) = rest.
Proof.
  change (S (String.length before)) with (String.length (String ";" before)).
  induction before as [| a before IH]; simpl; [destruct rest; reflexivity |].
  simpl in IH. exact IH.
Qed.

Lemma string_drop_add (a b : nat) (s : string) :
  string_drop (a + b) s = string_drop b (string_drop a s).
Proof.
  revert s. induction a as [| a IH]; intros s; [reflexivity |].
  destruct s as [| c s]; simpl; [destruct b; reflexivity | apply IH].
Qed.

(** The data-URI branch of [decodeUri] on a URI that has its first [;] after [before]. *)
Lemma decodeUri_data (h : glTF) (before rest : string) :
  (∃ tail, before ++ ";" ++ rest = "data" ++ tail) ->
  free_of ";" before ->
  decodeUri h (before ++ ";" ++ rest)
  = match find_first rest "," with
    | Some n =>
        if negb (String.eqb (string_take n rest) "base64")
        then (Error.InvalidGltf, DataSource.init, DataLocation.None)
        else
          (Error.None,
           DataSource.mk
             (if hasBit (options h) Options.DontUseSIMD
              then base64_fallback_decode (string_drop (S n) rest)
              else base64_decode (string_drop (S n) rest))
             (path_of "")
             (getMimeTypeFromString
                (substr (before ++ ";" ++ rest) 5 (size_t_sub (String.length before) 5)))
             0 None,
           DataLocation.VectorWithMime)
    | None => (Error.InvalidGltf, DataSource.init, DataLocation.None)
    end.
Proof.
  intros Hdata Hfree. unfold decodeUri.
  apply begins_with_data in Hdata. rewrite Hdata.
  rewrite (find_semicolon before rest Hfree).
  unfold find, size_t_succ. rewrite drop_past_semicolon.
  destruct (find_first rest ",") as [n |]; unfold fmap, option_fmap, option_map;
    cbv beta iota; [| reflexivity].
  set (uri := before ++ ";" ++ rest).
  assert (substr uri (String.length before + 1)
            (Some (S (String.length before) + n - String.length before - 1)%nat)
          = string_take n rest) as ->.
  { unfold substr, uri.
    replace (String.length before + 1)%nat with (S (String.length before)) by lia.
    replace (S (String.length before) + n - String.length before - 1)%nat with n by lia.
    rewrite drop_past_semicolon. reflexivity. }
  assert (substr uri (S (String.length before) + n + 1) None = string_drop (S n) rest) as ->.
  { unfold substr, uri.
    replace (S (String.length before) + n + 1)%nat
      with (S (String.length before) + S n)%nat by lia.
    rewrite string_drop_add, drop_past_semicolon. reflexivity. }
  reflexivity.
Qed.

(** C8: a URI that begins with [data] and whose segment between the first
    [;] and the [,] after it is missing or is not exactly [base64] makes
    [decodeUri] return [InvalidGltf]; a URI that does not begin with [data]
    makes it return success, the path [directory / uri] and the location
    [FilePathWithByteRange].  [decodeUri] is a function of the handle and
    the URI alone: nothing is read. *)
Theorem decodeUri_dispatch (h : glTF) (uri : string) :
  (∀ segment,
     (∃ rest, uri = "data" ++ rest) ->
     encoding_segment uri segment ->
     segment ≠ Some "base64" ->
     decodeUri h uri = (Error.InvalidGltf, DataSource.init, DataLocation.None))
  ∧ ((∀ rest, uri ≠ "data" ++ rest) ->
     decodeUri h uri
     = (Error.None,
        DataSource.mk (raw_bytes []) (path_append (directory h) uri) MimeType.None 0 None,
        DataLocation.FilePathWithByteRange)).
Proof.
  split.
  - intros segment Hdata Hsegment Hne.
    destruct Hsegment as [before encoding rest -> Hbefore Hencoding
                         | Hfree | before rest -> Hbefore Hrest].
    + rewrite (decodeUri_data h before (encoding ++ "," ++ rest) Hdata Hbefore).
      change ("," ++ rest) with (String "," rest).
      rewrite (find_first_app encoding rest "," Hencoding), string_take_app.
      destruct (String.eqb_spec encoding "base64") as [-> | _]; [congruence | reflexivity].
    + unfold decodeUri. apply begins_with_data in Hdata. rewrite Hdata.
      apply find_first_free in Hfree. unfold find at 1. simpl string_drop.
      rewrite Hfree. simpl. destruct (find uri "," 0); reflexivity.
    + rewrite (decodeUri_data h before rest Hdata Hbefore).
      apply find_first_free in Hrest. rewrite Hrest. reflexivity.
  - intros Hother. unfold decodeUri.
    destruct (String.eqb (substr uri 0 (Some 4)) "data") eqn:Hdata; [| reflexivity].
    apply begins_with_data in Hdata as [rest ->]. destruct (Hother rest eq_refl).
Qed.

Lemma decodeUri_dispatch_witness :
  decodeUri leaf_first_handle "data:application/octet-stream;Base64,AQID"
  = (Error.InvalidGltf, DataSource.init, DataLocation.None)
  ∧ decodeUri leaf_first_handle "textures/wood.png"
    = (Error.None,
       DataSource.mk (raw_bytes []) (path_append (path_of "models") "textures/wood.png")
         MimeType.None 0 None,
       DataLocation.FilePathWithByteRange).
Proof.
  split.
  - apply (proj1 (decodeUri_dispatch leaf_first_handle
                    "data:application/octet-stream;Base64,AQID") (Some "Base64")).
    + exists ":application/octet-stream;Base64,AQID". reflexivity.
    + apply (segment_between _ "data:application/octet-stream" "Base64" "AQID");
        [reflexivity | apply find_first_free; reflexivity ..].
    + discriminate.
  - apply (proj2 (decodeUri_dispatch leaf_first_handle "textures/wood.png")).
    intros rest. discriminate.
Defined.

(** ** [parseBuffers] *)

Lemma decodeUri_error (h : glTF) (uri : string) e source location :
  decodeUri h uri = (e, source, location) ->
  (e = Error.None ∧ location ≠ DataLocation.None) ∨ e = Error.InvalidGltf.
Proof.
  unfold decodeUri. intros H.
  repeat match type of H with
         | (if ?b then _ else _) = _ => destruct b
         | (match ?x with _ => _ end) = _ => destruct x
         end;
    injection H as <- <- <-; first [right; reflexivity | left; split; [reflexivity | discriminate]].
Qed.

Lemma get_string_absent (o : object) (key : string) :
  absent key o -> get_string (at_key o key) = err NO_SUCH_FIELD.
Proof. intros H. apply at_key_absent in H. rewrite H. reflexivity. Qed.

(** Lines 373-388: what the loop body does with a buffer that has no [uri]. *)
Lemma parseBuffer_without_uri (h : glTF) (i : Z) (o : object) :
  absent "uri" o ->
  parseBuffer h i (OBJECT o)
  = match get_uint64 (at_key o "byteLength") with
    | err _ => Failed Error.InvalidGltf
    | ok byteLength =>
        match (i =? 0)%Z, glb h with
        | true, Some g =>
            if hasBit (options h) Options.LoadGLBBuffers then
              Parsed (Buffer.mk byteLength
                        (DataSource.mk (GLBBuffer.buffer g) (path_of "") MimeType.None 0 None)
                        DataLocation.VectorWithMime
                        (optional (get_string (at_key o "name"))),
                      set_glb (Some (GLBBuffer_set_buffer (raw_bytes []) g)) h)
            else
              Parsed (Buffer.mk byteLength
                        (DataSource.mk (raw_bytes []) (GLBBuffer.file g) MimeType.GltfBuffer
                           (GLBBuffer.fileOffset g) None)
                        DataLocation.FilePathWithByteRange
                        (optional (get_string (at_key o "name"))),
                      h)
        | _, _ => Failed Error.InvalidGltf
        end
    end.
Proof.
  intros Habsent. unfold parseBuffer. simpl.
  rewrite (get_string_absent o "uri" Habsent).
  destruct (get_uint64 (at_key o "byteLength")) as [byteLength | e]; simpl; [| reflexivity].
  destruct (i =? 0)%Z; [| reflexivity].
  destruct (glb h) as [g |]; [| reflexivity].
  destruct (hasBit (options h) Options.LoadGLBBuffers); reflexivity.
Qed.

Lemma parseBuffer_failure (h : glTF) (i : Z) (v : element) (e : Error.t) :
  parseBuffer h i v = Failed e -> e = Error.InvalidGltf.
Proof.
  unfold parseBuffer. intros H.
  destruct (required (as_object v)) as [o | e0 |] eqn:Ho; simpl in H;
    [| destruct (as_object v); simpl in Ho; congruence | discriminate].
  destruct (required (get_uint64 (at_key o "byteLength"))) as [n | e0 |] eqn:Hn; simpl in H;
    [| destruct (get_uint64 (at_key o "byteLength")); simpl in Hn; congruence | discriminate].
  destruct (get_string (at_key o "uri")) as [uri | e0].
  - destruct (decodeUri h uri) as [[e1 source] location] eqn:Hd.
    apply decodeUri_error in Hd as [[-> Hloc] | ->]; simpl in H.
    + destruct location; simpl in H; first [congruence | inversion H; reflexivity].
    + inversion H; reflexivity.
  - destruct (i =? 0)%Z, (glb h); simpl in H; try (inversion H; reflexivity).
    destruct (hasBit (options h) Options.LoadGLBBuffers); simpl in H; inversion H.
Qed.







(** ** Textures *)











(** ** [parseTextureObject] and KHR_texture_transform *)

Lemma read_two_floats (a : array) (dst : list float32) :
  (two_numbers a -> ∃ dst', read_floats a 0 2 dst = (true, dst'))
  ∧ (¬ two_numbers a -> ∃ dst', read_floats a 0 2 dst = (false, dst')).
Proof.
  unfold two_numbers. simpl.
  destruct (get_double (at_index a 0)) as [x | e0].
  - destruct (get_double (at_index a 1)) as [y | e1].
    + split; [intros _; eexists; reflexivity |].
      intros Hnot. destruct Hnot. exists x, y. split; reflexivity.
    + split; [intros (x' & y' & _ & Hy); discriminate Hy | intros _; eexists; reflexivity].
  - split; [intros (x' & y' & Hx & _); discriminate Hx | intros _; eexists; reflexivity].
Qed.

Local Opaque read_floats.

(** Lines 949-980: [parseTextureObject] once it has reached the
    KHR_texture_transform object, as a function of what the two array
    members of that object are. *)
Lemma parseTextureObject_transform (h : glTF) (obj : object) (key : string)
    (info : TextureInfo.t) (child ext transform : object) (index : Z) :
  hasBit (extensions h) Extensions.KHR_texture_transform = true ->
  get_object (at_key obj key) = ok child ->
  get_uint64 (at_key child "index") = ok index ->
  get_object (at_key child "extensions") = ok ext ->
  get_object (at_key ext "KHR_texture_transform") = ok transform ->
  let offset :=
    match get_array (at_key transform "offset") with
    | ok a => fst (read_floats a 0 2 (TextureInfo.uvOffset info))
    | err _ => true
    end in
  let scale :=
    match get_array (at_key transform "scale") with
    | ok a => fst (read_floats a 0 2 (TextureInfo.uvScale info))
    | err _ => true
    end in
  let result := parseTextureObject h obj key info in
  fst result = (if offset && scale then Error.None else Error.InvalidGltf)
  ∧ TextureInfo.textureIndex (snd result) = index
  ∧ TextureInfo.texCoordIndex (snd result)
    = value_or (get_uint64 (at_key transform "texCoord"))
        (value_or (get_uint64 (at_key child "texCoord")) 0%Z)
  ∧ TextureInfo.rotation (snd result)
    = static_cast_float
        (value_or (get_double (at_key transform "rotation")) (double_literal 0)).
Proof.
  intros Hbit Hchild Hindex Hext Htransform.
  unfold parseTextureObject. rewrite Hchild, Hindex, Hbit, Hext, Htransform.
  cbn [negb].
  destruct (get_uint64 (at_key transform "texCoord")) as [c | e1];
    destruct (get_array (at_key transform "offset")) as [a1 | e2];
    destruct (get_array (at_key transform "scale")) as [a2 | e3];
    simpl;
    try (destruct (read_floats a1 0 2 (TextureInfo.uvOffset info)) as [[|] o1]);
    simpl;
    try (destruct (read_floats a2 0 2 (TextureInfo.uvScale info)) as [[|] o2]);
    simpl; repeat split; reflexivity.
Qed.

Local Transparent read_floats.

(** C6, as the code has it.  With KHR_texture_transform enabled and a
    transform object under the member's [extensions]:
    - a [texCoord] in the transform object that is an unsigned integer
      replaces the outer [texCoord];
    - an [offset] or a [scale] that is an array whose first two elements are
      not both numbers (an array shorter than two among them) makes
      [parseTextureObject] return [InvalidGltf];
    - nothing else does: when [offset] and [scale] are each missing, not an
      array, or an array that starts with two numbers, the result is
      [Error::None] whatever [texCoord] and [rotation] are; a [texCoord] that
      is not an unsigned integer leaves the outer one, a [rotation] that is
      not a number leaves 0. *)
Theorem parseTextureObject_texture_transform (h : glTF) (obj : object) (key : string)
    (info : TextureInfo.t) (child ext transform : object) (index : Z) :
  hasBit (extensions h) Extensions.KHR_texture_transform = true ->
  get_object (at_key obj key) = ok child ->
  get_uint64 (at_key child "index") = ok index ->
  get_object (at_key child "extensions") = ok ext ->
  get_object (at_key ext "KHR_texture_transform") = ok transform ->
  let result := parseTextureObject h obj key info in
  (∀ c, get_uint64 (at_key transform "texCoord") = ok c ->
        TextureInfo.texCoordIndex (snd result) = c)
  ∧ (∀ a, get_array (at_key transform "offset") = ok a -> ¬ two_numbers a ->
          fst result = Error.InvalidGltf)
  ∧ (∀ a, get_array (at_key transform "scale") = ok a -> ¬ two_numbers a ->
          fst result = Error.InvalidGltf)
  ∧ (well_formed_pair transform "offset" ->
     well_formed_pair transform "scale" ->
     fst result = Error.None
     ∧ TextureInfo.texCoordIndex (snd result)
       = value_or (get_uint64 (at_key transform "texCoord"))
           (value_or (get_uint64 (at_key child "texCoord")) 0%Z)
     ∧ TextureInfo.rotation (snd result)
       = static_cast_float
           (value_or (get_double (at_key transform "rotation")) (double_literal 0))).
Proof.
  intros Hbit Hchild Hindex Hext Htransform result.
  destruct (parseTextureObject_transform h obj key info child ext transform index
              Hbit Hchild Hindex Hext Htransform) as (Herror & _ & HtexCoord & Hrotation).
  fold result in Herror, HtexCoord, Hrotation.
  split; [| split; [| split]].
  - intros c Hc. rewrite HtexCoord, Hc. reflexivity.
  - intros a Ha Hnot. rewrite Herror, Ha.
    destruct (proj2 (read_two_floats a (TextureInfo.uvOffset info)) Hnot) as [dst ->].
    reflexivity.
  - intros a Ha Hnot. rewrite Herror, Ha.
    destruct (proj2 (read_two_floats a (TextureInfo.uvScale info)) Hnot) as [dst ->].
    simpl. rewrite andb_false_r. reflexivity.
  - unfold well_formed_pair. intros Hoffset Hscale.
    split; [| split; [exact HtexCoord | exact Hrotation]].
    rewrite Herror.
    destruct (get_array (at_key transform "offset")) as [a1 | e1];
      destruct (get_array (at_key transform "scale")) as [a2 | e2];
      try (destruct (proj1 (read_two_floats a1 (TextureInfo.uvOffset info)) Hoffset)
             as [dst1 ->]);
      try (destruct (proj1 (read_two_floats a2 (TextureInfo.uvScale info)) Hscale)
             as [dst2 ->]);
      reflexivity.
Qed.

Lemma parseTextureObject_texture_transform_witness :
  TextureInfo.texCoordIndex
    (snd (parseTextureObject transform_handle (textured shifting_transform)
            "baseColorTexture" TextureInfo.init)) = 2%Z
  ∧ fst (parseTextureObject transform_handle (textured shifting_transform)
           "baseColorTexture" TextureInfo.init) = Error.None
  ∧ fst (parseTextureObject transform_handle (textured short_scale_transform)
           "baseColorTexture" TextureInfo.init) = Error.InvalidGltf.
Proof.
  pose proof (parseTextureObject_texture_transform transform_handle
                (textured shifting_transform) "baseColorTexture" TextureInfo.init
                [ ("index", INT64 0); ("texCoord", INT64 1);
                  ("extensions", OBJECT [("KHR_texture_transform", OBJECT shifting_transform)]) ]
                [("KHR_texture_transform", OBJECT shifting_transform)]
                shifting_transform 0%Z eq_refl eq_refl eq_refl eq_refl eq_refl)
    as (HtexCoord & _ & _ & Hlenient).
  pose proof (parseTextureObject_texture_transform transform_handle
                (textured short_scale_transform) "baseColorTexture" TextureInfo.init
                [ ("index", INT64 0); ("texCoord", INT64 1);
                  ("extensions",
                   OBJECT [("KHR_texture_transform", OBJECT short_scale_transform)]) ]
                [("KHR_texture_transform", OBJECT short_scale_transform)]
                short_scale_transform 0%Z eq_refl eq_refl eq_refl eq_refl eq_refl)
    as (_ & _ & Hscale & _).
  split; [exact (HtexCoord 2%Z eq_refl) |]. split.
  - apply Hlenient; [| exact I].
    exists (double_literal (1 # 2)), (double_literal (1 # 4)). split; reflexivity.
  - apply (Hscale [INT64 2] eq_refl).
    intros (x & y & _ & Hy). discriminate Hy.
Defined.

(** C6 as stated fails: a transform object in which [texCoord] is a string,
    [rotation] is a string, [offset] is a number and [scale] has three
    elements is accepted; the outer [texCoord] and the rotation 0 are kept
    and the first two elements of [scale] are taken. *)
Lemma malformed_transform_is_accepted :
  (∃ e, get_uint64 (at_key malformed_transform "texCoord") = err e)
  ∧ (∃ e, get_double (at_key malformed_transform "rotation") = err e)
  ∧ (∃ e, get_array (at_key malformed_transform "offset") = err e)
  ∧ (length <$> optional (get_array (at_key malformed_transform "scale"))) = Some 3%nat
  ∧ let result :=
      parseTextureObject transform_handle (textured malformed_transform)
        "baseColorTexture" TextureInfo.init in
    fst result = Error.None
    ∧ TextureInfo.texCoordIndex (snd result) = 1%Z
    ∧ TextureInfo.rotation (snd result) = f32 0
    ∧ TextureInfo.uvScale (snd result)
      = [static_cast_float (double_of_integer 1); static_cast_float (double_of_integer 2)].
Proof.
  split; [eexists; reflexivity |]. split; [eexists; reflexivity |].
  split; [eexists; reflexivity |]. split; [reflexivity |].
  repeat split; reflexivity.
Qed.

(** * Further properties *)

(** ** More on the extension gate *)

(** What the registry loop computes for any name, whatever the order in
    which its two flags get set. *)
Lemma checkExtensions_registry_result (flags : Z) (s : string) :
  checkExtensions_registry flags s extensionStrings false false
  = (is_registry_name s, any_enabled flags).
Proof.
  unfold is_registry_name, any_enabled, extensionStrings.
  cbn [checkExtensions_registry].
  destruct (String.eqb "KHR_texture_basisu" s),
           (String.eqb "KHR_texture_transform" s),
           (String.eqb "MSFT_texture_dds" s),
           (hasBit flags Extensions.KHR_texture_basisu),
           (hasBit flags Extensions.KHR_texture_transform),
           (hasBit flags Extensions.MSFT_texture_dds); reflexivity.
Qed.

Lemma checkExtensions_required_cons (flags : Z) (entry : element) (rest : array) :
  (accepted_entry flags entry
   ∧ checkExtensions_required flags (entry :: rest) = checkExtensions_required flags rest)
  ∨ (∃ e, refusal flags entry e
          ∧ ¬ accepted_entry flags entry
          ∧ checkExtensions_required flags (entry :: rest) = Some e).
Proof.
  unfold accepted_entry, refusal.
  destruct entry as [| b | z | z | d | s | items | fields];
    cbn [checkExtensions_required as_string];
    try (right; eexists; split; [reflexivity |];
         split; [intros (s' & Hs & _); discriminate Hs | reflexivity]).
  rewrite checkExtensions_registry_result.
  destruct (is_registry_name s) eqn:Hname; cbn [negb].
  - destruct (any_enabled flags) eqn:Hany; cbn [negb].
    + left. split; [exists s; auto | reflexivity].
    + right. eexists. split; [split; reflexivity |].
      split; [intros (s' & _ & _ & Hs); discriminate Hs | reflexivity].
  - right. eexists. split; [reflexivity |].
    split; [| reflexivity].
    intros (s' & [= <-] & Hs & _). congruence.
Qed.

(** X1: [checkExtensions] lets a document through exactly when it has no
    [extensionsRequired] array, or every entry of the array is a string of
    the registry and, unless the array is empty, at least one of the three
    flags is enabled (whichever it is). *)
Theorem checkExtensions_passes_iff (h : glTF) :
  fst (checkExtensions h) = true
  <-> match get_array (at_key (root h) "extensionsRequired") with
      | ok entries => Forall (accepted_entry (extensions h)) entries
      | err _ => True
      end.
Proof.
  unfold checkExtensions.
  destruct (get_array (at_key (root h) "extensionsRequired")) as [entries | e];
    [| split; reflexivity].
  assert (checkExtensions_required (extensions h) entries = None
          <-> Forall (accepted_entry (extensions h)) entries) as Hiff.
  { induction entries as [| entry rest IH].
    - split; [intros _; constructor | reflexivity].
    - destruct (checkExtensions_required_cons (extensions h) entry rest)
        as [[Hok ->] | (e & _ & Hnot & ->)].
      + rewrite IH. split; [intros H; constructor; assumption |].
        intros H. inversion H; assumption.
      + split; [discriminate | intros H; inversion H; contradiction]. }
  destruct (checkExtensions_required (extensions h) entries) as [e |]; simpl.
  - split; [discriminate | intros H; apply Hiff in H; discriminate H].
  - split; [intros _; apply Hiff; reflexivity | reflexivity].
Qed.

(** X2: when [checkExtensions] fails, the error it records is the one of the
    first entry it refuses: [InvalidGltf] for an entry that is not a string,
    [UnsupportedExtensions] for a string outside the registry, and
    [MissingExtensions] for a registry name, which can only happen when none
    of the three flags is enabled. *)
Theorem checkExtensions_first_refusal (h : glTF) (h' : glTF) :
  checkExtensions h = (false, h') ->
  ∃ entries passed entry rest,
    get_array (at_key (root h) "extensionsRequired") = ok entries
    ∧ entries = (passed ++ entry :: rest)%list
    ∧ Forall (accepted_entry (extensions h)) passed
    ∧ refusal (extensions h) entry (errorCode h')
    ∧ h' = set_errorCode (errorCode h') h.
Proof.
  unfold checkExtensions.
  destruct (get_array (at_key (root h) "extensionsRequired")) as [entries | e];
    [| discriminate].
  destruct (checkExtensions_required (extensions h) entries) as [e |] eqn:Hcheck;
    [| discriminate].
  intros [= <-]. simpl. exists entries.
  assert (∃ passed entry rest,
            entries = (passed ++ entry :: rest)%list
            ∧ Forall (accepted_entry (extensions h)) passed
            ∧ refusal (extensions h) entry e) as (passed & entry & rest & H1 & H2 & H3).
  { clear -Hcheck. induction entries as [| entry rest IH]; [discriminate |].
    destruct (checkExtensions_required_cons (extensions h) entry rest)
      as [[Hok Heq] | (e' & Hrefused & _ & Heq)]; rewrite Heq in Hcheck.
    - destruct (IH Hcheck) as (passed & entry' & rest' & -> & Hpassed & Hrefused).
      exists (entry :: passed), entry', rest'.
      split; [reflexivity |]. split; [constructor; assumption | exact Hrefused].
    - injection Hcheck as <-. exists [], entry, rest.
      split; [reflexivity |]. split; [constructor | exact Hrefused]. }
  exists passed, entry, rest. auto.
Qed.

Lemma checkExtensions_first_refusal_witness :
  ∃ entries passed entry rest,
    get_array (at_key (root unknown_required_handle) "extensionsRequired") = ok entries
    ∧ entries = (passed ++ entry :: rest)%list
    ∧ Forall (accepted_entry (extensions unknown_required_handle)) passed
    ∧ refusal (extensions unknown_required_handle) entry
        (errorCode (set_errorCode Error.UnsupportedExtensions unknown_required_handle))
    ∧ set_errorCode Error.UnsupportedExtensions unknown_required_handle
      = set_errorCode
          (errorCode (set_errorCode Error.UnsupportedExtensions unknown_required_handle))
          unknown_required_handle.
Proof.
  apply (checkExtensions_first_refusal unknown_required_handle
           (set_errorCode Error.UnsupportedExtensions unknown_required_handle)).
  reflexivity.
Defined.

(** ** [loadGLTF] *)

Lemma checkExtensions_required_error (flags : Z) (entries : array) (e : Error.t) :
  checkExtensions_required flags entries = Some e ->
  In e [Error.InvalidGltf; Error.UnsupportedExtensions; Error.MissingExtensions].
Proof.
  induction entries as [| entry rest IH]; [discriminate |].
  destruct (checkExtensions_required_cons flags entry rest)
    as [[_ ->] | (e' & Hrefused & _ & ->)]; [exact IH |].
  intros [= <-]. unfold refusal in Hrefused.
  destruct entry; try (left; congruence).
  destruct (is_registry_name s); [destruct Hrefused as [_ ->] | subst e']; simpl; auto.
Qed.

Lemma checkExtensions_cases (h : glTF) :
  checkExtensions h = (true, h)
  ∨ ∃ e, In e [Error.InvalidGltf; Error.UnsupportedExtensions; Error.MissingExtensions]
         ∧ checkExtensions h = (false, set_errorCode e h).
Proof.
  unfold checkExtensions.
  destruct (get_array (at_key (root h) "extensionsRequired")) as [entries | e];
    [| left; reflexivity].
  destruct (checkExtensions_required (extensions h) entries) as [e |] eqn:Hcheck;
    [| left; reflexivity].
  right. exists e. split; [exact (checkExtensions_required_error _ _ _ Hcheck) | reflexivity].
Qed.

Lemma checkAssetField_passes (h : glTF) :
  fst (checkAssetField h) = true ->
  ∃ asset version,
    get_object (at_key (root h) "asset") = ok asset
    ∧ get_string (at_key asset "version") = ok version.
Proof.
  unfold checkAssetField.
  destruct (get_object (at_key (root h) "asset")) as [asset | e];
    [| simpl; intros H; discriminate H].
  destruct (get_string (at_key asset "version")) as [version | e] eqn:Hversion;
    [| simpl; intros H; discriminate H].
  intros _. exists asset, version. auto.
Qed.

(** X3: [loadGLTF] returns a handle or an error, never both and never
    neither.  A handle comes with the parser's error code reset to [None]
    and is fresh: it holds the parsed root object, the directory, the
    options and the parser's extensions, no error, an empty asset and no
    GLB part; its document has passed the asset check (unless
    [DontRequireValidAssetMember]) and the extension gate.  Without a handle
    the parser's error code is one of six errors.  Whatever error the
    parser held before the call plays no part. *)
Theorem loadGLTF_handle_or_error (parser : Parser.t) (document : simdjson.result element)
    (directory : path) (is_directory : bool) (options : Z) :
  match loadGLTF parser document directory is_directory options with
  | (Some h, parser') =>
      Parser.errorCode parser' = Error.None
      ∧ is_directory = true
      ∧ (∃ data, get_object document = ok data
                 ∧ h = glTF_new data directory options (Parser.extensions parser))
      ∧ (hasBit options Options.DontRequireValidAssetMember = false ->
         ∃ asset version,
           get_object (at_key (root h) "asset") = ok asset
           ∧ get_string (at_key asset "version") = ok version)
      ∧ fst (checkExtensions h) = true
  | (None, parser') =>
      In (Parser.errorCode parser')
        [ Error.InvalidPath; Error.InvalidJson; Error.InvalidOrMissingAssetField;
          Error.InvalidGltf; Error.UnsupportedExtensions; Error.MissingExtensions ]
  end
  ∧ Parser.extensions (snd (loadGLTF parser document directory is_directory options))
    = Parser.extensions parser
  ∧ ∀ stale,
      loadGLTF (Parser.set_errorCode stale parser) document directory is_directory options
      = loadGLTF parser document directory is_directory options.
Proof.
  split; [| split; [| intros stale; reflexivity]].
  - unfold loadGLTF. destruct is_directory; cbn [negb]; [| simpl; auto].
    destruct (get_object document) as [data | e]; [| simpl; auto].
    change (Parser.extensions (Parser.set_errorCode Error.None parser))
      with (Parser.extensions parser).
    set (gltf := glTF_new data directory options (Parser.extensions parser)).
    pose proof (checkAssetField_passes gltf) as Hasset.
    destruct (checkExtensions_cases gltf) as [Hpass | (e & He & Hfail)].
    + rewrite Hpass.
      destruct (hasBit options Options.DontRequireValidAssetMember); cbn [negb andb].
      * split; [reflexivity |]. split; [reflexivity |]. split; [exists data; auto |].
        split; [discriminate | rewrite Hpass; reflexivity].
      * destruct (fst (checkAssetField gltf)); cbn [negb]; [| simpl; auto].
        split; [reflexivity |]. split; [reflexivity |]. split; [exists data; auto |].
        split; [intros _; apply Hasset; reflexivity | rewrite Hpass; reflexivity].
    + rewrite Hfail.
      destruct (negb (hasBit options Options.DontRequireValidAssetMember)
                && negb (fst (checkAssetField gltf))); cbn [negb]; [simpl; auto |].
      simpl in *. tauto.
  - unfold loadGLTF. destruct is_directory; cbn [negb]; [| reflexivity].
    destruct (get_object document) as [data | e]; [| reflexivity].
    destruct (negb (hasBit options Options.DontRequireValidAssetMember)
              && negb (fst (checkAssetField _))); [reflexivity |].
    destruct (checkExtensions _) as [[|] gltf]; reflexivity.
Qed.

(** ** More on [decodeUri] *)

(** X4: a data URI [data?<mime>;base64,<payload>], where [?] is the one
    character after [data] (the colon) and neither it nor [<mime>] holds a
    semicolon, decodes to [VectorWithMime] with the MIME type that
    [getMimeTypeFromString] gives for exactly [<mime>] and with the bytes of
    the whole [<payload>], commas included; [DontUseSIMD] selects the
    fallback decoder.  When the semicolon comes right after [data], the
    MIME type is [None]. *)
Theorem decodeUri_data_uri (h : glTF) (colon : ascii) (mime payload : string) :
  free_of ";" (String colon mime) ->
  decodeUri h ("data" ++ String colon mime ++ ";base64," ++ payload)
  = (Error.None,
     DataSource.mk
       (if hasBit (options h) Options.DontUseSIMD
        then base64_fallback_decode payload
        else base64_decode payload)
       (path_of "") (getMimeTypeFromString mime) 0 None,
     DataLocation.VectorWithMime)
  ∧ decodeUri h ("data;base64," ++ payload)
    = (Error.None,
       DataSource.mk
         (if hasBit (options h) Options.DontUseSIMD
          then base64_fallback_decode payload
          else base64_decode payload)
         (path_of "") MimeType.None 0 None,
       DataLocation.VectorWithMime).
Proof.
  intros Hfree. split.
  - assert (free_of ";" ("data" ++ String colon mime)) as Hbefore.
    { apply free_of_app. split; [| exact Hfree].
      apply find_first_free. reflexivity. }
    change ("data" ++ String colon mime ++ ";base64," ++ payload)
      with (("data" ++ String colon mime) ++ ";" ++ ("base64," ++ payload)).
    rewrite (decodeUri_data h ("data" ++ String colon mime) ("base64," ++ payload));
      [| eexists; reflexivity | exact Hbefore].
    change (find_first ("base64," ++ payload) ",") with (Some 6%nat).
    cbv beta iota.
    change (string_take 6 ("base64," ++ payload)) with "base64".
    change (string_drop 7 ("base64," ++ payload)) with payload.
    change (negb (String.eqb "base64" "base64")) with false. cbv iota.
    change (String.length ("data" ++ String colon mime))
      with (5 + String.length mime)%nat.
    replace (size_t_sub (5 + String.length mime) 5) with (Some (String.length mime))
      by (unfold size_t_sub; change (5 <=? 5 + String.length mime)%nat with true;
          cbv iota; f_equal; lia).
    unfold substr.
    change (string_drop 5 (("data" ++ String colon mime) ++ ";" ++ "base64," ++ payload))
      with (mime ++ ";" ++ "base64," ++ payload).
    rewrite string_take_app. reflexivity.
  - change ("data;base64," ++ payload) with ("data" ++ ";" ++ ("base64," ++ payload)).
    rewrite (decodeUri_data h "data" ("base64," ++ payload));
      [| eexists; reflexivity | apply find_first_free; reflexivity].
    reflexivity.
Qed.

Lemma decodeUri_data_uri_witness :
  decodeUri leaf_first_handle "data:application/octet-stream;base64,AQID"
  = (Error.None,
     DataSource.mk (base64_decode "AQID") (path_of "") MimeType.OctetStream 0 None,
     DataLocation.VectorWithMime).
Proof.
  apply (proj1 (decodeUri_data_uri leaf_first_handle ":" "application/octet-stream" "AQID"
                  ltac:(apply find_first_free; reflexivity))).
Defined.

(** X5: [decodeUri] either succeeds with a location that is not [None], or
    fails with [InvalidGltf], an empty source and the location [None]; it
    gives [FilePathWithByteRange], with no bytes, exactly for the URIs that
    do not begin with [data]. *)
Theorem decodeUri_result_shape (h : glTF) (uri : string) :
  match decodeUri h uri with
  | (e, source, location) =>
      ((e = Error.None ∧ location ≠ DataLocation.None)
       ∨ (e = Error.InvalidGltf ∧ source = DataSource.init
          ∧ location = DataLocation.None))
      ∧ (location = DataLocation.FilePathWithByteRange
         <-> ∀ rest, uri ≠ "data" ++ rest)
      ∧ (location = DataLocation.FilePathWithByteRange ->
         DataSource.bytes source = raw_bytes []
         ∧ DataSource.path source = path_append (directory h) uri)
  end.
Proof.
  unfold decodeUri.
  destruct (String.eqb (substr uri 0 (Some 4)) "data") eqn:Hdata.
  - apply begins_with_data in Hdata as [rest Hrest].
    assert (¬ ∀ rest, uri ≠ "data" ++ rest) as Hnot
      by (intros H; exact (H rest Hrest)).
    destruct (find uri ";" 0) as [index |];
      [destruct (find uri "," (size_t_succ (Some index))) as [encodingEnd |] |];
      try (split; [right; auto | split; [split; [discriminate | contradiction]
                                        | discriminate]]).
    destruct (negb (String.eqb _ "base64"));
      (split; [first [right; auto; fail | left; split; [reflexivity | discriminate]]
              | split; [split; [discriminate | contradiction] | discriminate]]).
  - split; [left; split; [reflexivity | discriminate] |].
    split; [| intros _; split; reflexivity].
    split; [| reflexivity].
    intros _ rest ->.
    assert (String.eqb (substr ("data" ++ rest) 0 (Some 4)) "data" = true) as H
      by (apply begins_with_data; exists rest; reflexivity).
    congruence.
Qed.

(** ** What the array parsers do to the handle *)

Lemma appends_push :
  appends Accessors push_accessor ∧ appends Buffers push_buffer
  ∧ appends BufferViews push_bufferView ∧ appends Images push_image
  ∧ appends Textures push_texture ∧ appends Materials push_material
  ∧ appends Meshes push_mesh ∧ appends Nodes push_node ∧ appends Scenes push_scene.
Proof.
  repeat split; simpl;
    first [reflexivity | apply prefix_app_r; reflexivity
          | rewrite length_app; simpl; lia].
Qed.

Lemma prefix_refl_own (p : parser) (a : Asset.t) : own_prefix p a a.
Proof. destruct p; simpl; reflexivity. Qed.

Lemma own_prefix_trans (p : parser) (a b c : Asset.t) :
  own_prefix p a b -> own_prefix p b c -> own_prefix p a c.
Proof. destruct p; simpl; intros H1 H2; etransitivity; eassumption. Qed.

Lemma same_document_refl (h : glTF) : same_document h h.
Proof. repeat split. Qed.

Lemma progress_start (p : parser) (h : glTF) (a : Asset.t) :
  parsedAsset h = Some a -> progress p h a 0 h.
Proof.
  intros Ha. split; [reflexivity |]. split; [apply same_document_refl |].
  exists a. split; [exact Ha |]. split; [split; [reflexivity | apply prefix_refl_own] |].
  split; [lia | intros _; lia].
Qed.

(** The loop of the eight parsers that end their body with [emplace]. *)
Lemma emplace_loop {A} (p : parser) (body : glTF -> element -> parsed (option A))
    (push : A -> Asset.t -> Asset.t) (h0 : glTF) (a0 : Asset.t) :
  appends p push ->
  (∀ h v, shape p (body h v)) ->
  ∀ values n h,
    progress p h0 a0 n h ->
    match for_each (fun v h => emplace (body h v) push h) values h with
    | Returned e h' =>
        (e = errorCode h' ∧ progress p h0 a0 (n + length values) h')
        ∨ stopped p h0 a0 e h'
    | Undefined => True
    end.
Proof.
  intros Hpush Hshape values.
  induction values as [| v values IH]; intros n h Hprogress; simpl.
  - left. split; [reflexivity |]. rewrite Nat.add_0_r. exact Hprogress.
  - specialize (Hshape h v).
    destruct Hprogress as (Herror & Hdoc & a & Ha & [Helse Hprefix] & Hle & Heq).
    destruct (body h v) as [[x |] | e |]; simpl in *.
    + replace (n + S (length values))%nat with (S n + length values)%nat by lia.
      apply IH. destruct (Hpush x a) as (Hp1 & Hp2 & Hp3).
      split; [exact Herror |]. split; [exact Hdoc |].
      exists (push x a). unfold update_asset. simpl. rewrite Ha.
      split; [reflexivity |].
      split; [split; [congruence | exact (own_prefix_trans p a0 a _ Hprefix Hp2)] |].
      rewrite Hp3. split; [lia | intros Hp; specialize (Heq Hp); lia].
    + replace (n + S (length values))%nat with (S n + length values)%nat by lia.
      apply IH. split; [exact Herror |]. split; [exact Hdoc |].
      exists a. split; [exact Ha |]. split; [split; assumption |].
      split; [lia | intros Hp; contradiction].
    + right. split; [exact Hshape |]. split; [reflexivity |]. split; [exact Hdoc |].
      exists a. split; [exact Ha | split; assumption].
    + exact I.
Qed.

(** What the body of the loop of [parseBuffers] leaves of the handle. *)
Lemma parseBuffer_frame (h : glTF) (i : Z) (v : element) (buffer : Buffer.t) (h' : glTF) :
  parseBuffer h i v = Parsed (buffer, h') ->
  errorCode h' = errorCode h ∧ same_document h h' ∧ parsedAsset h' = parsedAsset h.
Proof.
  unfold parseBuffer. intros H.
  destruct (required (as_object v)) as [o | |]; simpl in H; try discriminate.
  destruct (required (get_uint64 (at_key o "byteLength"))) as [n | |]; simpl in H;
    try discriminate.
  destruct (get_string (at_key o "uri")) as [uri | e0].
  - destruct (decodeUri h uri) as [[e1 source] location].
    destruct (negb (Error.eqb e1 Error.None)); simpl in H; [discriminate |].
    destruct (DataLocation.eqb location DataLocation.None); [discriminate |].
    injection H as _ <-. repeat split.
  - destruct (i =? 0)%Z, (glb h); simpl in H; try discriminate.
    destruct (hasBit (options h) Options.LoadGLBBuffers); simpl in H;
      injection H as _ <-; repeat split.
Qed.

Lemma parseBuffers_loop_progress (h0 : glTF) (a0 : Asset.t) (buffers : array) :
  ∀ i n h,
    progress Buffers h0 a0 n h ->
    match parseBuffers_loop i buffers h with
    | Returned e h' =>
        (e = errorCode h' ∧ progress Buffers h0 a0 (n + length buffers) h')
        ∨ stopped Buffers h0 a0 e h'
    | Undefined => False
    end.
Proof.
  induction buffers as [| v buffers IH]; intros i n h Hprogress; simpl.
  - left. split; [reflexivity |]. rewrite Nat.add_0_r. exact Hprogress.
  - destruct Hprogress as (Herror & Hdoc & a & Ha & [Helse Hprefix] & Hle & Heq).
    pose proof (sound_parseBuffer h i v) as Hsound.
    destruct (parseBuffer h i v) as [[buffer h1] | e |] eqn:Hbody; simpl in Hsound.
    + apply parseBuffer_frame in Hbody as (Herror1 & Hdoc1 & Hasset1).
      replace (n + S (length buffers))%nat with (S n + length buffers)%nat by lia.
      apply IH.
      split; [simpl; congruence |].
      split.
      { destruct Hdoc as (? & ? & ? & ?), Hdoc1 as (? & ? & ? & ?).
        repeat split; simpl; congruence. }
      exists (push_buffer buffer a). unfold update_asset. simpl. rewrite Hasset1, Ha.
      split; [reflexivity |].
      split; [split; [simpl in *; congruence |] |].
      * simpl in *. etransitivity; [exact Hprefix | apply prefix_app_r; reflexivity].
      * simpl in *. rewrite length_app. simpl.
        split; [lia | intros Hp; specialize (Heq Hp); lia].
    + apply parseBuffer_failure in Hbody as ->. right.
      split; [simpl; auto |]. split; [reflexivity |]. split; [exact Hdoc |].
      exists a. split; [exact Ha | split; assumption].
    + discriminate Hsound.
Qed.

Lemma within_bind {A B} allowed (p : parsed A) (k : A -> parsed B) :
  fails_within allowed p -> (∀ a, fails_within allowed (k a)) ->
  fails_within allowed (parsed_bind p k).
Proof. destruct p; simpl; auto. Qed.

Lemma within_required {A} allowed (r : simdjson.result A) :
  In Error.InvalidGltf allowed -> fails_within allowed (required r).
Proof. destruct r; simpl; auto. Qed.

Lemma within_parse_all {A} allowed (body : element -> parsed A) (values : array) :
  (∀ v, fails_within allowed (body v)) -> fails_within allowed (parse_all body values).
Proof.
  intros Hbody. induction values as [| v values IH]; simpl; [exact I |].
  apply within_bind; [apply Hbody | intros a].
  apply within_bind; [exact IH | intros others; exact I].
Qed.

Lemma shape_keep {A} (p : parser) (x : parsed A) :
  fails_within (recordable p) x -> shape p (keep x).
Proof. destruct x; simpl; auto. Qed.

(** Takes a goal [fails_within allowed p] apart like [sound_step]; a failure
    with an error that is not written out is left to the caller. *)
Ltac within_step :=
  lazymatch goal with
  | |- fails_within _ (parsed_bind _ _) => apply within_bind; [| intros ?]
  | |- fails_within _ (required _) => apply within_required; simpl; auto
  | |- fails_within _ (parse_all _ _) => apply within_parse_all; intros ?
  | |- fails_within _ (Parsed _) => exact I
  | |- fails_within _ Overrun => exact I
  | |- fails_within _ (Failed Error.InvalidGltf) => simpl; auto
  | |- fails_within _ (if ?b then _ else _) => destruct b eqn:?
  | |- fails_within _ (match ?x with _ => _ end) => destruct x eqn:?
  end.

Ltac within_tac := repeat within_step.

Lemma getJsonArray_error (o : object) (key : string) (e : Error.t) (values : array) :
  getJsonArray o key = (e, values) ->
  e = Error.None ∨ e = Error.MissingField ∨ e = Error.InvalidGltf.
Proof.
  unfold getJsonArray.
  destruct (get_array (at_key o key)) as [a | []]; intros [= <- _]; auto.
Qed.

Lemma parseTextureObject_error (h : glTF) (o : object) (key : string) (info : TextureInfo.t) :
  fst (parseTextureObject h o key info) = Error.None
  ∨ fst (parseTextureObject h o key info) = Error.InvalidGltf.
Proof.
  unfold parseTextureObject.
  repeat match goal with
         | |- context [match ?x with _ => _ end] => destruct x
         end; simpl; auto.
Qed.

Lemma within_parseAccessor h v : fails_within [Error.InvalidGltf] (parseAccessor h v).
Proof. unfold parseAccessor. within_tac. Qed.

Lemma within_parseBufferView v : fails_within [Error.InvalidGltf] (parseBufferView v).
Proof. unfold parseBufferView. within_tac. Qed.

Lemma within_parseImage h v : fails_within [Error.InvalidGltf] (parseImage h v).
Proof.
  unfold parseImage. within_tac.
  match goal with
  | H : decodeUri _ _ = (?e, _, _), Hne : negb (Error.eqb ?e Error.None) = true |- _ =>
      apply decodeUri_error in H as [[-> _] | ->]; [discriminate Hne | simpl; auto]
  end.
Qed.

Lemma within_texture_member h o key :
  fails_within [Error.InvalidGltf] (texture_member h o key).
Proof.
  unfold texture_member.
  pose proof (parseTextureObject_error h o key TextureInfo.init) as H.
  destruct (parseTextureObject h o key TextureInfo.init) as [e info]. simpl in H.
  destruct H as [-> | ->]; simpl; auto.
Qed.

Lemma within_parsePBRData h o : fails_within [Error.InvalidGltf] (parsePBRData h o).
Proof. unfold parsePBRData. within_tac; apply within_texture_member. Qed.

Lemma within_parseMaterial h v : fails_within [Error.InvalidGltf] (parseMaterial h v).
Proof.
  unfold parseMaterial. within_tac;
    try apply within_texture_member; try apply within_parsePBRData.
Qed.

Lemma within_parseAttributes fields attributes :
  fails_within [Error.InvalidGltf] (parseAttributes fields attributes).
Proof.
  revert attributes. induction fields as [| [key value] fields IH]; intros attributes; simpl.
  - exact I.
  - apply within_bind; [apply within_required; simpl; auto | intros a; apply IH].
Qed.

Lemma within_parsePrimitive v : fails_within [Error.InvalidGltf] (parsePrimitive v).
Proof. unfold parsePrimitive. within_tac. apply within_parseAttributes. Qed.

Lemma within_parseTexture h v : fails_within [Error.InvalidGltf] (parseTexture h v).
Proof. unfold parseTexture. within_tac. Qed.

Lemma shape_parseMesh v : shape Meshes (parseMesh v).
Proof.
  unfold parseMesh.
  destruct (required (as_object v)) as [o | e |] eqn:Ho; simpl;
    [| destruct (as_object v); simpl in Ho; [discriminate | injection Ho as <-; auto]
     | exact I].
  destruct (getJsonArray o "primitives") as [meshError primitives] eqn:Harray.
  destruct (Error.eqb meshError Error.MissingField) eqn:Hmissing; [reflexivity |].
  destruct (negb (Error.eqb meshError Error.None)) eqn:Hnone.
  - apply getJsonArray_error in Harray as [-> | [-> | ->]];
      first [discriminate Hnone | discriminate Hmissing | simpl; auto].
  - pose proof (within_parse_all [Error.InvalidGltf] parsePrimitive primitives
                  within_parsePrimitive) as H.
    destruct (parse_all parsePrimitive primitives); simpl in *; auto.
Qed.

Lemma within_parseNodeArray o key size initial default :
  fails_within [Error.InvalidGltf; Error.MissingField]
    (parseNodeArray o key size initial default).
Proof. unfold parseNodeArray. within_tac. Qed.

Lemma within_parseNode v :
  fails_within [Error.InvalidGltf; Error.MissingField] (parseNode v).
Proof.
  unfold parseNode. within_tac; try apply within_parseNodeArray.
  match goal with
  | H : getJsonArray _ _ = (?e, _), Hne : Error.eqb ?e Error.None = false |- _ =>
      apply getJsonArray_error in H as [-> | [-> | ->]];
        [discriminate Hne | simpl; auto | simpl; auto]
  end.
Qed.

Lemma shape_parseScene v : shape Scenes (parseScene v).
Proof.
  unfold parseScene.
  destruct (required (as_object v)) as [o | e |] eqn:Ho; simpl;
    [| destruct (as_object v); simpl in Ho; [discriminate | injection Ho as <-; auto]
     | exact I].
  destruct (getJsonArray o "nodes") as [nodeError nodes] eqn:Harray.
  destruct (Error.eqb nodeError Error.None) eqn:Hnone.
  - assert (fails_within [Error.InvalidGltf; Error.MissingField]
              (parse_all (fun nodeValue => required (as_uint64 nodeValue)) nodes)) as H
      by within_tac.
    destruct (parse_all _ nodes); simpl in *; auto.
  - simpl.
    apply getJsonArray_error in Harray as [-> | [-> | ->]];
      [discriminate Hnone | simpl; auto | simpl; auto].
Qed.

Lemma get_array_missing (o : object) (key : string) :
  get_array (at_key o key) = err NO_SUCH_FIELD <-> absent key o.
Proof.
  rewrite at_key_absent. unfold get_array, and_then.
  destruct (at_key o key) as [v | e]; [| split; congruence].
  destruct v; simpl; split; discriminate.
Qed.

(** Everything an array parser does to a handle that still owns its asset. *)
Lemma run_report (p : parser) (h : glTF) (a : Asset.t) :
  parsedAsset h = Some a ->
  match run p h with
  | Returned e h' =>
      (absent (array_name p) (root h) ∧ e = Error.None ∧ h' = h)
      ∨ (∃ values, get_array (at_key (root h) (array_name p)) = ok values
                   ∧ e = errorCode h'
                   ∧ progress p h a (length values) h')
      ∨ stopped p h a e h'
  | Undefined => p = Nodes
  end.
Proof.
  intros Ha.
  destruct appends_push as (Pa & Pb & Pv & Pi & Pt & Pm & Pme & Pn & Ps).
  assert (∀ loop,
            (∀ values,
               match loop values h with
               | Returned e h' =>
                   (e = errorCode h' ∧ progress p h a (0 + length values) h')
                   ∨ stopped p h a e h'
               | Undefined => True
               end) ->
            run p h = top_level_array (array_name p)
                        (fun values h => with_asset h (loop values)) h ->
            match run p h with
            | Returned e h' =>
                (absent (array_name p) (root h) ∧ e = Error.None ∧ h' = h)
                ∨ (∃ values, get_array (at_key (root h) (array_name p)) = ok values
                             ∧ e = errorCode h'
                             ∧ progress p h a (length values) h')
                ∨ stopped p h a e h'
            | Undefined => p = Nodes
            end) as Hgeneral.
  { intros loop Hloop Hrun.
    pose proof (run_outcome p h) as Hub.
    rewrite Hrun in Hub |- *. clear Hrun.
    unfold top_level_array, getJsonArray in *.
    destruct (get_array (at_key (root h) (array_name p))) as [values | e] eqn:Harray.
    - simpl in *. unfold with_asset in *. rewrite Ha in *.
      specialize (Hloop values).
      destruct (loop values h) as [e h' |]; [| destruct Hub; congruence].
      destruct Hloop as [[He Hprogress] | Hstopped]; [| auto].
      right; left. exists values. auto.
    - assert (stopped p h a Error.InvalidGltf (set_errorCode Error.InvalidGltf h)) as Hstop.
      { split; [destruct p; simpl; auto |]. split; [reflexivity |].
        split; [repeat split |].
        exists a. split; [exact Ha | split; [reflexivity | apply prefix_refl_own]]. }
      destruct e; simpl; auto.
      left. split; [apply get_array_missing; exact Harray | auto]. }
  destruct p; (eapply Hgeneral; cycle 1; [reflexivity | intros values; cbv beta]).
  - apply (emplace_loop Accessors (fun h v => keep (parseAccessor h v)));
      [exact Pa | intros; apply shape_keep, within_parseAccessor
      | apply progress_start, Ha].
  - pose proof (parseBuffers_loop_progress h a values 0%Z 0%nat h (progress_start _ _ _ Ha)) as H.
    destruct (parseBuffers_loop 0 values h); [exact H | exact I].
  - apply (emplace_loop BufferViews (fun h v => keep (parseBufferView v)));
      [exact Pv | intros; apply shape_keep, within_parseBufferView
      | apply progress_start, Ha].
  - apply (emplace_loop Images (fun h v => keep (parseImage h v)));
      [exact Pi | intros; apply shape_keep, within_parseImage
      | apply progress_start, Ha].
  - apply (emplace_loop Materials (fun h v => keep (parseMaterial h v)));
      [exact Pm | intros; apply shape_keep, within_parseMaterial
      | apply progress_start, Ha].
  - apply (emplace_loop Meshes (fun h v => parseMesh v));
      [exact Pme | intros; apply shape_parseMesh | apply progress_start, Ha].
  - apply (emplace_loop Nodes (fun h v => keep (parseNode v)));
      [exact Pn | intros; apply shape_keep, within_parseNode
      | apply progress_start, Ha].
  - apply (emplace_loop Scenes (fun h v => parseScene v));
      [exact Ps | intros; apply shape_parseScene |].
    destruct (get_uint64 (at_key (root h) "scene")) as [d |]; [| apply progress_start, Ha].
    split; [reflexivity |]. split; [repeat split |].
    exists (set_defaultScene d a). unfold update_asset. simpl. rewrite Ha.
    split; [reflexivity |]. split; [split; [reflexivity | simpl; reflexivity] |].
    simpl. split; [lia | intros _; lia].
  - apply (emplace_loop Textures (fun h v => keep (parseTexture h v)));
      [exact Pt | intros; apply shape_keep, within_parseTexture
      | apply progress_start, Ha].
Qed.

(** How each parser opens: without its array, or with something else under
    that name, the loop is never entered. *)
Lemma run_opening (p : parser) (h : glTF) :
  match get_array (at_key (root h) (array_name p)) with
  | ok values => True
  | err NO_SUCH_FIELD => run p h = Returned Error.None h
  | err _ => run p h = returnError Error.InvalidGltf h
  end.
Proof.
  destruct p; simpl run; simpl array_name;
    match goal with
    | |- context [get_array (at_key (root h) ?name)] =>
        match goal with
        | |- context [?f h] =>
            unfold f, top_level_array, getJsonArray;
            destruct (get_array (at_key (root h) name)) as [values | []]; reflexivity
        end
    end.
Qed.

Lemma run_absent (p : parser) (h : glTF) :
  absent (array_name p) (root h) -> run p h = Returned Error.None h.
Proof.
  intros H. apply get_array_missing in H.
  pose proof (run_opening p h) as Hopen. rewrite H in Hopen. exact Hopen.
Qed.

(** On a handle whose asset was taken, an array under the parser's name is
    the one case that dereferences the null asset. *)
Lemma run_null (p : parser) (h : glTF) (values : array) :
  parsedAsset h = None ->
  get_array (at_key (root h) (array_name p)) = ok values ->
  run p h = Undefined.
Proof.
  intros Hnull Harray.
  destruct p; simpl run; simpl array_name in Harray;
    match goal with
    | |- ?f h = _ =>
        unfold f, top_level_array, getJsonArray, with_asset;
        rewrite Harray, Hnull; reflexivity
    end.
Qed.

(** ** Parsers whose array is missing *)

(** X6: a parser whose array the document does not have returns
    [Error::None] and leaves the handle exactly as it was, also when the
    handle already records an error or no longer owns its asset; so any
    sequence of such parsers leaves the handle untouched. *)
Theorem parsers_skip_missing_arrays (ps : list parser) (h : glTF) :
  Forall (fun p => absent (array_name p) (root h)) ps ->
  Forall (fun p => run p h = Returned Error.None h) ps
  ∧ after_calls (Parse <$> ps) h = Some h.
Proof.
  induction 1 as [| p ps Hp _ [IHeach IHall]]; [split; [constructor | reflexivity] |].
  pose proof (run_absent p h Hp) as Hrun.
  split; [constructor; assumption |].
  simpl. rewrite Hrun. exact IHall.
Qed.

Lemma parsers_skip_missing_arrays_witness :
  Forall (fun p => run p small_scene_handle = Returned Error.None small_scene_handle)
    [Accessors; Scenes; Buffers]
  ∧ after_calls (Parse <$> [Accessors; Scenes; Buffers]) small_scene_handle
    = Some small_scene_handle.
Proof.
  apply (parsers_skip_missing_arrays [Accessors; Scenes; Buffers] small_scene_handle).
  repeat constructor; apply at_key_absent; reflexivity.
Defined.

(** ** A member that is not an array *)

(** X7: when the document has the parser's member but it is not an array,
    the parser records and returns [Error::InvalidGltf] and changes nothing
    else of the handle; the asset is not dereferenced. *)
Theorem run_member_not_array (p : parser) (h : glTF) (v : element) :
  at_key (root h) (array_name p) = ok v ->
  (∀ values, v ≠ ARRAY values) ->
  run p h = Returned Error.InvalidGltf (set_errorCode Error.InvalidGltf h).
Proof.
  intros Hmember Hkind.
  pose proof (run_opening p h) as Hopen.
  unfold get_array, and_then in Hopen. rewrite Hmember in Hopen.
  destruct v; simpl in Hopen; try exact Hopen.
  exfalso. eapply Hkind. reflexivity.
Qed.

Lemma run_member_not_array_witness :
  run Images small_scene_handle
  = Returned Error.InvalidGltf (set_errorCode Error.InvalidGltf small_scene_handle).
Proof.
  apply (run_member_not_array Images small_scene_handle (INT64 7));
    [reflexivity | discriminate].
Defined.

(** ** The errors a parser can record *)

(** X8: a parser that returns either leaves the handle as it was and returns
    [Error::None], or keeps the stored error code and returns it, or records
    and returns an error of its own, which is [InvalidGltf], or, for
    [parseNodes] and [parseScenes] only, [MissingField]. *)
Theorem run_recorded_errors (p : parser) (h : glTF) (e : Error.t) (h' : glTF) :
  run p h = Returned e h' ->
  (e = Error.None ∧ h' = h)
  ∨ (e = errorCode h ∧ errorCode h' = errorCode h)
  ∨ (In e (recordable p) ∧ errorCode h' = e).
Proof.
  intros Hrun.
  destruct (parsedAsset h) as [a |] eqn:Ha.
  - pose proof (run_report p h a Ha) as Hreport. rewrite Hrun in Hreport.
    destruct Hreport as [(_ & -> & ->) | [(values & _ & -> & Herror & _) | (Hin & Herror & _)]];
      [left; auto | right; left; auto | right; right; auto].
  - pose proof (run_opening p h) as Hopen.
    destruct (get_array (at_key (root h) (array_name p))) as [values | c] eqn:Harray.
    + rewrite (run_null p h values Ha Harray) in Hrun. discriminate.
    + assert (In Error.InvalidGltf (recordable p)) as Hin by (destruct p; simpl; auto).
      destruct c; rewrite Hopen in Hrun; injection Hrun as <- <-;
        first [left; split; reflexivity | right; right; split; [exact Hin | reflexivity]].
Qed.

Lemma run_recorded_errors_witness :
  (Error.MissingField = Error.None ∧ set_errorCode Error.MissingField leaf_first_handle = leaf_first_handle)
  ∨ (Error.MissingField = errorCode leaf_first_handle
     ∧ errorCode (set_errorCode Error.MissingField leaf_first_handle) = errorCode leaf_first_handle)
  ∨ (In Error.MissingField (recordable Nodes)
     ∧ errorCode (set_errorCode Error.MissingField leaf_first_handle) = Error.MissingField).
Proof.
  apply (run_recorded_errors Nodes leaf_first_handle); reflexivity.
Defined.

(** ** What a parser leaves alone *)

(** X9: a parser that returns, with or without an error, has only appended
    to its own sequence of the asset: the document, the directory, the
    options and the extension flags of the handle are the same, every other
    sequence of the asset is the same, and the objects its own sequence
    already held are still its first ones ([parseScenes] may also have
    written [defaultScene]). *)
Theorem run_appends_only (p : parser) (h : glTF) (a : Asset.t) (e : Error.t) (h' : glTF) :
  parsedAsset h = Some a ->
  run p h = Returned e h' ->
  same_document h h' ∧ ∃ a', parsedAsset h' = Some a' ∧ grown p a a'.
Proof.
  intros Ha Hrun.
  pose proof (run_report p h a Ha) as Hreport. rewrite Hrun in Hreport.
  destruct Hreport as [(_ & _ & ->) | [(values & _ & _ & _ & Hsame & a' & Ha' & Hgrown & _)
                                      | (_ & _ & Hsame & a' & Ha' & Hgrown)]].
  - split; [repeat split |]. exists a. split; [exact Ha |].
    split; [reflexivity | apply prefix_refl_own].
  - split; [exact Hsame |]. exists a'. auto.
  - split; [exact Hsame |]. exists a'. auto.
Qed.

Lemma run_appends_only_witness :
  ∃ h', run Nodes small_scene_handle = Returned Error.None h'
        ∧ same_document small_scene_handle h'
        ∧ ∃ a', parsedAsset h' = Some a' ∧ grown Nodes Asset.init a'.
Proof.
  eexists. split; [reflexivity |].
  apply (run_appends_only Nodes small_scene_handle Asset.init Error.None); reflexivity.
Defined.

(** ** One object for each element *)

(** X10: when a parser returns [Error::None] and the document has its array,
    the asset's sequence has grown by exactly one object for each element of
    the array; for [parseMeshes], which skips meshes, by at most that. *)
Theorem run_one_object_per_element (p : parser) (h : glTF) (a : Asset.t)
    (values : array) (h' : glTF) :
  parsedAsset h = Some a ->
  get_array (at_key (root h) (array_name p)) = ok values ->
  run p h = Returned Error.None h' ->
  ∃ a', parsedAsset h' = Some a'
        ∧ (sequence_length p a' <= sequence_length p a + length values)%nat
        ∧ (p ≠ Meshes -> sequence_length p a' = (sequence_length p a + length values)%nat).
Proof.
  intros Ha Harray Hrun.
  pose proof (run_report p h a Ha) as Hreport. rewrite Hrun in Hreport.
  destruct Hreport as [(Habsent & _) | [(values' & Harray' & _ & _ & _ & a' & Ha' & _ & Hle & Heq)
                                       | (Hin & _)]].
  - apply get_array_missing in Habsent. congruence.
  - assert (values' = values) as -> by congruence.
    exists a'. auto.
  - exfalso. destruct p; simpl in Hin; intuition discriminate.
Qed.

Lemma run_one_object_per_element_witness :
  ∃ h' a', run Meshes small_scene_handle = Returned Error.None h'
           ∧ parsedAsset h' = Some a'
           ∧ (sequence_length Meshes a' <= 0 + 2)%nat
           ∧ (Meshes ≠ Meshes -> sequence_length Meshes a' = (0 + 2)%nat)
           ∧ sequence_length Meshes a' = 1%nat.
Proof.
  eexists. 
  destruct (run_one_object_per_element Meshes small_scene_handle Asset.init
              [ OBJECT [("name", STRING "empty")];
                OBJECT [("primitives",
                         ARRAY [OBJECT [("attributes", OBJECT [("POSITION", INT64 0)])]])] ]
              _ eq_refl eq_refl eq_refl) as (a' & Ha' & Hle & Heq).
  exists a'. split; [reflexivity |]. split; [exact Ha' |].
  split; [exact Hle |]. split; [exact Heq |].
  injection Ha' as <-. reflexivity.
Defined.

(** ** Meshes without primitives *)

(** A loop whose body does not look at the handle does the same to two
    handles with the same error code and asset. *)
Lemma for_each_same_result {A} (body : element -> parsed (option A))
    (push : A -> Asset.t -> Asset.t) (values : array) (h1 h2 : glTF) :
  errorCode h1 = errorCode h2 ->
  parsedAsset h1 = parsedAsset h2 ->
  same_result (for_each (fun v h => emplace (body v) push h) values h1)
              (for_each (fun v h => emplace (body v) push h) values h2).
Proof.
  revert h1 h2. induction values as [| v rest IH]; intros h1 h2 He Ha; simpl.
  - auto.
  - destruct (body v) as [[x |] | e |]; simpl; auto.
    apply IH; [exact He | unfold update_asset; simpl; rewrite Ha; reflexivity].
Qed.

(** X11: a mesh without a [primitives] member is skipped: [parseMeshes]
    appends nothing for it and goes on, so that taking such an element out
    of the [meshes] array changes neither the error returned, nor the error
    recorded, nor the asset. *)
Theorem parseMeshes_skips_mesh_without_primitives (h1 h2 : glTF)
    (before after : array) (mesh : object) :
  absent "primitives" mesh ->
  get_array (at_key (root h1) "meshes") = ok (before ++ OBJECT mesh :: after)%list ->
  get_array (at_key (root h2) "meshes") = ok (before ++ after)%list ->
  errorCode h1 = errorCode h2 ->
  parsedAsset h1 = parsedAsset h2 ->
  same_result (parseMeshes h1) (parseMeshes h2).
Proof.
  intros Hskip Harray1 Harray2 He Ha.
  unfold parseMeshes, top_level_array, getJsonArray, with_asset.
  rewrite Harray1, Harray2. simpl. rewrite <- Ha.
  destruct (parsedAsset h1) as [a |] eqn:Ha1; [| exact I].
  assert (∀ h1 h2, errorCode h1 = errorCode h2 -> parsedAsset h1 = parsedAsset h2 ->
            same_result
              (for_each (fun v h => emplace (parseMesh v) push_mesh h)
                 (before ++ OBJECT mesh :: after)%list h1)
              (for_each (fun v h => emplace (parseMesh v) push_mesh h)
                 (before ++ after)%list h2)) as Hloop.
  { clear - Hskip. intros h1 h2. revert h1 h2.
    induction before as [| v rest IH]; intros h1 h2 He Ha.
    - change (([] ++ OBJECT mesh :: after)%list) with (OBJECT mesh :: after).
      change (([] ++ after)%list) with after.
      cbn [for_each]. unfold parseMesh at 1. simpl.
      rewrite (getJsonArray_absent _ _ Hskip). simpl.
      apply for_each_same_result; assumption.
    - change (((v :: rest) ++ OBJECT mesh :: after)%list)
        with (v :: (rest ++ OBJECT mesh :: after)%list).
      change (((v :: rest) ++ after)%list) with (v :: (rest ++ after)%list).
      cbn [for_each].
      destruct (parseMesh v) as [[x |] | e |]; simpl; auto.
      apply IH; [exact He | unfold update_asset; simpl; rewrite Ha; reflexivity]. }
  apply Hloop; [exact He | congruence].
Qed.

Lemma parseMeshes_skips_mesh_without_primitives_witness :
  same_result (parseMeshes small_scene_handle) (parseMeshes one_mesh_handle).
Proof.
  apply (parseMeshes_skips_mesh_without_primitives small_scene_handle one_mesh_handle
           [] [ OBJECT [("primitives",
                         ARRAY [OBJECT [("attributes", OBJECT [("POSITION", INT64 0)])]])] ]
           [("name", STRING "empty")]);
    try reflexivity.
  apply at_key_absent. reflexivity.
Defined.

(** ** The fixed-size arrays of a node *)

(** What the copying loop does, by the number of numbers the array starts with. *)
Lemma assign_each_outcome (size : nat) (values : array) (i : nat) (dst : list float32) :
  match assign_each size values i dst with
  | Assigned _ =>
      leading_numbers values = length values
      ∧ (values = [] ∨ (i + length values <= size)%nat)
  | NotANumber _ =>
      (leading_numbers values < length values)%nat
      ∧ (leading_numbers values = 0%nat ∨ (i + leading_numbers values <= size)%nat)
  | PastTheEnd => (size < i + leading_numbers values)%nat
  end.
Proof.
  revert i dst. induction values as [| v rest IH]; intros i dst; simpl.
  - auto.
  - unfold is_number. destruct (as_double v) as [val | e]; simpl; [| split; [lia | auto]].
    destruct (Nat.ltb_spec i size) as [Hlt | Hge]; [| lia].
    specialize (IH (S i) (<[i := static_cast_float val]> dst)).
    destruct (assign_each size rest (S i) (<[i := static_cast_float val]> dst)).
    + destruct IH as [Hall [-> | Hle]]; simpl in *; split; try lia; right; lia.
    + destruct IH as [Hsome [Hzero | Hle]]; split; try lia; right; lia.
    + lia.
Qed.

Lemma parseNodeArray_defined (o : object) (key : string) (size : nat)
    (initial default : list float32) :
  fits o key size -> parseNodeArray o key size initial default ≠ Overrun.
Proof.
  unfold fits, parseNodeArray.
  destruct (get_array (at_key o key)) as [values | e]; [| discriminate].
  pose proof (assign_each_outcome size values 0 initial) as H.
  destruct (assign_each size values 0 initial); [discriminate | discriminate |].
  simpl in H. lia.
Qed.

Lemma parse_all_defined {A} (body : element -> parsed A) (values : array) :
  (∀ v, body v ≠ Overrun) -> parse_all body values ≠ Overrun.
Proof.
  intros Hbody. induction values as [| v rest IH]; simpl; [discriminate |].
  specialize (Hbody v).
  destruct (body v); simpl; [| discriminate | contradiction].
  destruct (parse_all body rest); simpl; [discriminate | discriminate | contradiction].
Qed.

(** A node whose arrays fit is read without writing past the end of an array. *)
Lemma parseNode_defined (v : element) : node_fits v -> parseNode v ≠ Overrun.
Proof.
  unfold parseNode. destruct v; simpl; try discriminate.
  intros (Hmatrix & Hscale & Htranslation & Hrotation).
  assert (∀ children : array,
            parse_all (fun childValue => required (as_uint64 childValue)) children ≠ Overrun)
    as Hchildren.
  { intros children. apply parse_all_defined. intros c.
    destruct (as_uint64 c); discriminate. }
  destruct (getJsonArray fields "children") as [childError children].
  assert (∃ r, (if Error.eqb childError Error.None
                then parse_all (fun childValue => required (as_uint64 childValue)) children
                else if negb (Error.eqb childError Error.None) then Failed childError
                     else Parsed []) = r ∧ r ≠ Overrun) as (r & -> & Hr).
  { eexists. split; [reflexivity |].
    destruct (Error.eqb childError Error.None); simpl; [apply Hchildren | discriminate]. }
  destruct r as [children' | e |]; simpl; [| discriminate | contradiction].
  unfold fits in Hmatrix.
  destruct (get_array (at_key fields "matrix")) as [matrix | e].
  - pose proof (assign_each_outcome 16 matrix 0 identity_matrix) as H.
    destruct (assign_each 16 matrix 0 identity_matrix); simpl in H |- *; [| | lia].
    all: pose proof (parseNodeArray_defined fields "scale" 3 [f32 1; f32 1; f32 1]
                       [f32 1; f32 1; f32 1] Hscale) as H1;
      destruct (parseNodeArray fields "scale" 3 _ _); simpl; [| discriminate | contradiction];
      pose proof (parseNodeArray_defined fields "translation" 3 [f32 0; f32 0; f32 0]
                    [f32 0; f32 0; f32 0] Htranslation) as H2;
      destruct (parseNodeArray fields "translation" 3 _ _); simpl;
        [| discriminate | contradiction];
      pose proof (parseNodeArray_defined fields "rotation" 4 [f32 0; f32 0; f32 0; f32 1]
                    [f32 0; f32 0; f32 0; f32 1] Hrotation) as H3;
      destruct (parseNodeArray fields "rotation" 4 _ _); simpl;
        [discriminate | discriminate | contradiction].
  - simpl.
    pose proof (parseNodeArray_defined fields "scale" 3 [f32 1; f32 1; f32 1]
                  [f32 1; f32 1; f32 1] Hscale) as H1;
      destruct (parseNodeArray fields "scale" 3 _ _); simpl; [| discriminate | contradiction];
      pose proof (parseNodeArray_defined fields "translation" 3 [f32 0; f32 0; f32 0]
                    [f32 0; f32 0; f32 0] Htranslation) as H2;
      destruct (parseNodeArray fields "translation" 3 _ _); simpl;
        [| discriminate | contradiction];
      pose proof (parseNodeArray_defined fields "rotation" 4 [f32 0; f32 0; f32 0; f32 1]
                    [f32 0; f32 0; f32 0; f32 1] Hrotation) as H3;
      destruct (parseNodeArray fields "rotation" 4 _ _); simpl;
        [discriminate | discriminate | contradiction].
Qed.

Lemma for_each_defined {A} (body : element -> parsed (option A))
    (push : A -> Asset.t -> Asset.t) (values : array) (h : glTF) :
  Forall (fun v => body v ≠ Overrun) values ->
  ∃ e h', for_each (fun v h => emplace (body v) push h) values h = Returned e h'.
Proof.
  intros Hvalues. revert h.
  induction Hvalues as [| v rest Hv _ IH]; intros h; simpl; [eauto |].
  destruct (body v) as [[x |] | e |]; simpl; [apply IH | apply IH | | contradiction].
  unfold returnError. eauto.
Qed.

(** X12: [parseNodes] copies the numbers of [matrix], [scale], [translation]
    and [rotation] into arrays of 16, 3, 3 and 4 floats without checking the
    count.  When each of these arrays, in every node object of the document,
    starts with no more numbers than that, the call writes inside the arrays
    and returns. *)
Theorem parseNodes_within_bounds (h : glTF) (a : Asset.t) :
  parsedAsset h = Some a ->
  (∀ values, get_array (at_key (root h) "nodes") = ok values -> Forall node_fits values) ->
  ∃ e h', parseNodes h = Returned e h'.
Proof.
  intros Ha Hfits.
  unfold parseNodes, top_level_array, getJsonArray, with_asset. rewrite Ha.
  destruct (get_array (at_key (root h) "nodes")) as [values | c].
  - simpl.
    apply (for_each_defined (fun v => keep (parseNode v)) push_node values h).
    eapply Forall_impl; [exact (Hfits values eq_refl) |].
    intros v Hv. simpl in Hv. pose proof (parseNode_defined v Hv) as Hdefined.
    unfold keep. destruct (parseNode v); simpl; [discriminate | discriminate | contradiction].
  - destruct c; simpl; unfold returnError; eauto.
Qed.

Lemma parseNodes_within_bounds_witness :
  ∃ e h', parseNodes short_matrix_handle = Returned e h'.
Proof.
  apply (parseNodes_within_bounds short_matrix_handle Asset.init); [reflexivity |].
  intros values [= <-]. repeat constructor; simpl; unfold fits; simpl; lia.
Defined.

Lemma leading_numbers_all (values : array) :
  leading_numbers values = length values <-> Forall (fun v => is_number v = true) values.
Proof.
  induction values as [| v rest IH]; simpl.
  - split; [constructor | reflexivity].
  - assert (leading_numbers rest <= length rest)%nat as Hle.
    { clear. induction rest as [| w rest IH]; simpl; [lia |].
      destruct (is_number w); lia. }
    destruct (is_number v) eqn:Hv.
    + split.
      * intros H. constructor; [exact Hv | apply IH; lia].
      * intros H. inversion H; subst. f_equal. apply IH. assumption.
    + split; [lia |]. intros H. inversion H; congruence.
Qed.

(** X13: in a node that [parseNodes] accepts, [hasMatrix] is set exactly when
    the node has a [matrix] array that holds numbers only; the array may hold
    fewer than sixteen of them, or none. *)
Theorem parseNode_hasMatrix (o : object) (node : Node.t) :
  parseNode (OBJECT o) = Parsed node ->
  Node.hasMatrix node = true
  <-> ∃ values, get_array (at_key o "matrix") = ok values
                ∧ Forall (fun v => is_number v = true) values
                ∧ (length values <= 16)%nat.
Proof.
  unfold parseNode. simpl.
  match goal with
  | |- parsed_bind ?c _ = _ -> _ => destruct c as [children | e |]; simpl; try discriminate
  end.
  destruct (get_array (at_key o "matrix")) as [matrix |] eqn:Hmatrix.
  - pose proof (assign_each_outcome 16 matrix 0 identity_matrix) as H.
    destruct (assign_each 16 matrix 0 identity_matrix) as [dst | dst |]; simpl;
      try discriminate.
    + destruct (parseNodeArray o "scale" _ _ _); simpl; try discriminate.
      destruct (parseNodeArray o "translation" _ _ _); simpl; try discriminate.
      destruct (parseNodeArray o "rotation" _ _ _); simpl; try discriminate.
      intros [= <-]. simpl. split; [intros _ | reflexivity].
      exists matrix. destruct H as [Hall Hlength].
      split; [reflexivity |]. split; [apply leading_numbers_all; exact Hall |].
      destruct Hlength as [-> | Hle]; simpl in *; lia.
    + destruct (parseNodeArray o "scale" _ _ _); simpl; try discriminate.
      destruct (parseNodeArray o "translation" _ _ _); simpl; try discriminate.
      destruct (parseNodeArray o "rotation" _ _ _); simpl; try discriminate.
      intros [= <-]. simpl. split; [discriminate |].
      intros (values & [= <-] & Hall & _).
      apply leading_numbers_all in Hall. lia.
  - simpl.
    destruct (parseNodeArray o "scale" _ _ _); simpl; try discriminate.
    destruct (parseNodeArray o "translation" _ _ _); simpl; try discriminate.
    destruct (parseNodeArray o "rotation" _ _ _); simpl; try discriminate.
    intros [= <-]. simpl. split; [discriminate |].
    intros (values & Hvalues & _). discriminate.
Qed.

Lemma parseNode_hasMatrix_witness :
  ∃ node, parseNode (OBJECT short_matrix_node) = Parsed node
          ∧ Node.hasMatrix node = true
          ∧ (Node.hasMatrix node = true
             <-> ∃ values, get_array (at_key short_matrix_node "matrix") = ok values
                           ∧ Forall (fun v => is_number v = true) values
                           ∧ (length values <= 16)%nat).
Proof.
  eexists. split; [reflexivity |]. split; [reflexivity |].
  apply (parseNode_hasMatrix short_matrix_node). reflexivity.
Defined.

Lemma parse_all_uint64 (children : array) :
  Forall (fun c => succeeded (as_uint64 c) = true) children ->
  ∃ indices, parse_all (fun childValue => required (as_uint64 childValue)) children
             = Parsed indices.
Proof.
  induction 1 as [| c rest Hc _ [indices IH]]; simpl; [eauto |].
  destruct (as_uint64 c) as [index |]; [| discriminate]. simpl.
  rewrite IH. simpl. eauto.
Qed.

(** X14: a node that is reached by the loop, whose [children] are indices
    and whose [matrix] starts with more than sixteen numbers, makes
    [parseNodes] write past the end of [node.matrix]: the behaviour of the
    call is undefined. *)
Theorem parseNodes_matrix_too_long (h : glTF) (a : Asset.t) (before rest : array)
    (o : object) (children matrix : array) :
  parsedAsset h = Some a ->
  get_array (at_key (root h) "nodes") = ok (before ++ OBJECT o :: rest)%list ->
  Forall (fun v => ∃ node, parseNode v = Parsed node) before ->
  get_array (at_key o "children") = ok children ->
  Forall (fun c => succeeded (as_uint64 c) = true) children ->
  get_array (at_key o "matrix") = ok matrix ->
  (16 < leading_numbers matrix)%nat ->
  parseNodes h = Undefined.
Proof.
  intros Ha Hnodes Hbefore Hchildren Hindices Hmatrix Hlong.
  unfold parseNodes, top_level_array, getJsonArray, with_asset.
  rewrite Hnodes, Ha. simpl.
  assert (parseNode (OBJECT o) = Overrun) as Hnode.
  { unfold parseNode. simpl. unfold getJsonArray. rewrite Hchildren. simpl.
    destruct (parse_all_uint64 children Hindices) as [indices ->]. simpl.
    rewrite Hmatrix.
    pose proof (assign_each_outcome 16 matrix 0 identity_matrix) as H.
    destruct (assign_each 16 matrix 0 identity_matrix); simpl in H |- *;
      [| | reflexivity].
    - destruct H as [Hall [-> | Hle]]; simpl in *; lia.
    - destruct H as [_ [Hzero | Hle]]; lia. }
  clear Ha Hnodes. revert h.
  induction Hbefore as [| v before' [node Hv] _ IH]; intros h.
  - change (([] ++ OBJECT o :: rest)%list) with (OBJECT o :: rest).
    cbn [for_each]. rewrite Hnode. reflexivity.
  - change (((v :: before') ++ OBJECT o :: rest)%list)
      with (v :: (before' ++ OBJECT o :: rest)%list).
    cbn [for_each]. rewrite Hv. simpl. apply IH.
Qed.

Lemma parseNodes_matrix_too_long_witness : parseNodes long_matrix_handle = Undefined.
Proof.
  apply (parseNodes_matrix_too_long long_matrix_handle Asset.init
           [OBJECT [("children", ARRAY [])]] [] long_matrix_node [] (repeat (INT64 0) 17));
    try reflexivity.
  - repeat constructor. eexists. reflexivity.
  - constructor.
  - simpl. lia.
Defined.

(** ** Images *)

(** X15: an image that [parseImages] accepts has a location other than
    [None]; its object does not have a string [uri] together with a
    [bufferView] member of any kind; and when it has a string [uri], the
    image holds the location and the source that [decodeUri] gives for it,
    with the MIME type replaced by the one of a string [mimeType] member, if
    there is one. *)
Theorem parseImage_accepted (h : glTF) (o : object) (image : Image.t) :
  parseImage h (OBJECT o) = Parsed image ->
  Image.location image ≠ DataLocation.None
  ∧ ¬ (succeeded (get_string (at_key o "uri")) = true
       ∧ succeeded (at_key o "bufferView") = true)
  ∧ (∀ uri, get_string (at_key o "uri") = ok uri ->
       ∃ source,
         decodeUri h uri = (Error.None, source, Image.location image)
         ∧ Image.data image
           = match get_string (at_key o "mimeType") with
             | ok mimeType => DataSource_set_mimeType (getMimeTypeFromString mimeType) source
             | err _ => source
             end).
Proof.
  unfold parseImage. simpl.
  destruct (get_string (at_key o "uri")) as [uri |] eqn:Huri.
  - destruct (at_key o "bufferView") as [view |] eqn:Hview; simpl; [discriminate |].
    destruct (decodeUri h uri) as [[error source] location] eqn:Hdecode.
    destruct (Error.eqb error Error.None) eqn:Herror; simpl; [| discriminate].
    apply Error_eqb_eq in Herror. subst error.
    destruct (get_string (at_key o "mimeType")) as [mimeType |]; simpl;
      (destruct (DataLocation.eqb location DataLocation.None) eqn:Hlocation;
       [discriminate |]);
      intros [= <-]; simpl;
      (split; [intros ->; discriminate Hlocation |]);
      (split; [intros [_ H]; discriminate H |]);
      intros uri' [= <-]; exists source; (split; [exact Hdecode | reflexivity]).
  - simpl.
    destruct (get_uint64 (at_key o "bufferView")) as [index |] eqn:Hindex; simpl.
    + destruct (get_string (at_key o "mimeType")) as [mimeType |]; simpl; discriminate.
    + discriminate.
Qed.

Lemma parseImage_accepted_witness :
  ∃ image, parseImage small_scene_handle (OBJECT wood_image) = Parsed image
    ∧ Image.location image = DataLocation.FilePathWithByteRange
    ∧ DataSource.mimeType (Image.data image) = MimeType.PNG
    ∧ Image.location image ≠ DataLocation.None
    ∧ ¬ (succeeded (get_string (at_key wood_image "uri")) = true
         ∧ succeeded (at_key wood_image "bufferView") = true)
    ∧ (∀ uri, get_string (at_key wood_image "uri") = ok uri ->
         ∃ source,
           decodeUri small_scene_handle uri = (Error.None, source, Image.location image)
           ∧ Image.data image
             = match get_string (at_key wood_image "mimeType") with
               | ok mimeType =>
                   DataSource_set_mimeType (getMimeTypeFromString mimeType) source
               | err _ => source
               end).
Proof.
  eexists. split; [reflexivity |]. split; [reflexivity |]. split; [reflexivity |].
  apply (parseImage_accepted small_scene_handle wood_image). reflexivity.
Defined.

(** ** Textures with an [extensions] object *)

Lemma parseTextureExtensions_found (flags : Z) (ext : object) (texture texture' : Texture.t) :
  parseTextureExtensions texture ext flags = (true, texture') ->
  ∃ n, supplies_source flags ext n ∧ texture' = Texture_set_imageIndex n texture.
Proof.
  unfold parseTextureExtensions, getImageIndexForExtension, supplies_source, has_source,
    not_present.
  destruct (hasBit flags Extensions.KHR_texture_basisu) eqn:Hbasisu.
  - destruct (get_object (at_key ext "KHR_texture_basisu")) as [o | c] eqn:Ho.
    + destruct (get_uint64 (at_key o "source")) as [n | c] eqn:Hn; simpl; [| discriminate].
      intros [= <-]. exists n. split; [| reflexivity]. left. split; [reflexivity |].
      exists o. auto.
    + simpl. destruct (hasBit flags Extensions.MSFT_texture_dds) eqn:Hdds; [| discriminate].
      destruct (get_object (at_key ext "MSFT_texture_dds")) as [o | c'] eqn:Ho';
        [| discriminate].
      destruct (get_uint64 (at_key o "source")) as [n | c'] eqn:Hn; simpl; [| discriminate].
      intros [= <-]. exists n. split; [| reflexivity]. right.
      split; [right; exists c; reflexivity |]. split; [reflexivity |]. exists o. auto.
  - destruct (hasBit flags Extensions.MSFT_texture_dds) eqn:Hdds; [| discriminate].
    destruct (get_object (at_key ext "MSFT_texture_dds")) as [o | c'] eqn:Ho';
      [| discriminate].
    destruct (get_uint64 (at_key o "source")) as [n | c'] eqn:Hn; simpl; [| discriminate].
    intros [= <-]. exists n. split; [| reflexivity]. right.
    split; [left; reflexivity |]. split; [reflexivity |]. exists o. auto.
Qed.

(** X16: a texture that [parseTextures] accepts either has no [extensions]
    object, and then its image is its [source], without fallback; or it has
    one, and then its image is the index that the enabled extensions
    (KHR_texture_basisu before MSFT_texture_dds) supply.  So a texture with
    an [extensions] object in which no enabled extension supplies a source
    is refused, whether or not it has a [source] of its own. *)
Theorem parseTexture_accepted (h : glTF) (o : object) (texture : Texture.t) :
  parseTexture h (OBJECT o) = Parsed texture ->
  match get_object (at_key o "extensions") with
  | ok ext => supplies_source (extensions h) ext (Texture.imageIndex texture)
  | err _ =>
      get_uint64 (at_key o "source") = ok (Texture.imageIndex texture)
      ∧ Texture.fallbackImageIndex texture = None
  end.
Proof.
  unfold parseTexture. simpl.
  destruct (get_object (at_key o "extensions")) as [ext | c].
  - destruct (get_uint64 (at_key o "source")) as [source | c']; simpl.
    + match goal with
      | |- context [parseTextureExtensions ?t ext (extensions h)] =>
          destruct (parseTextureExtensions t ext (extensions h)) as [[|] texture'] eqn:Hfound
      end; simpl; [| discriminate].
      apply parseTextureExtensions_found in Hfound as (n & Hsupplies & ->).
      intros [= <-]. exact Hsupplies.
    + match goal with
      | |- context [parseTextureExtensions ?t ext (extensions h)] =>
          destruct (parseTextureExtensions t ext (extensions h)) as [[|] texture'] eqn:Hfound
      end; simpl; [| discriminate].
      apply parseTextureExtensions_found in Hfound as (n & Hsupplies & ->).
      intros [= <-]. exact Hsupplies.
  - destruct (get_uint64 (at_key o "source")) as [source | c']; simpl; [| discriminate].
    intros [= <-]. split; reflexivity.
Qed.

Lemma parseTexture_accepted_witness :
  ∃ texture,
    parseTexture textures_handle (OBJECT basisu_texture) = Parsed texture
    ∧ Texture.imageIndex texture = 9%Z
    ∧ match get_object (at_key basisu_texture "extensions") with
      | ok ext => supplies_source (extensions textures_handle) ext (Texture.imageIndex texture)
      | err _ =>
          get_uint64 (at_key basisu_texture "source") = ok (Texture.imageIndex texture)
          ∧ Texture.fallbackImageIndex texture = None
      end.
Proof.
  eexists. split; [reflexivity |]. split; [reflexivity |].
  apply (parseTexture_accepted textures_handle basisu_texture). reflexivity.
Defined.

(** ** Accessors of doubles *)




(** ** Binary glTF *)

Lemma byte_of_value (z : Z) : Z.of_N (Byte.to_N (byte_of z)) = (z mod 256)%Z.
Proof.
  unfold byte_of.
  assert (0 <= z mod 256 < 256)%Z as Hrange by (apply Z.mod_pos_bound; lia).
  destruct (Byte.of_N (Z.to_N (z mod 256))) as [b |] eqn:Hb; simpl.
  - apply Byte.to_of_N in Hb. rewrite Hb. apply Z2N.id. lia.
  - apply Byte.of_N_None_iff in Hb. lia.
Qed.

(** Four bytes written and read back give the same [uint32_t]. *)
Lemma uint32_le_bytes (z : Z) :
  (0 <= z < 2 ^ 32)%Z -> uint32_le (uint32_bytes z) = z.
Proof.
  intros Hrange. unfold uint32_le, uint32_bytes. cbn [fold_right].
  rewrite !byte_of_value.
  pose proof (Z.div_mod z 256 ltac:(lia)) as H0.
  pose proof (Z.div_mod (z / 256) 256 ltac:(lia)) as H1.
  pose proof (Z.div_mod (z / 65536) 256 ltac:(lia)) as H2.
  replace (z / 256 / 256)%Z with (z / 65536)%Z in H1
    by (rewrite Z.div_div by lia; reflexivity).
  replace (z / 65536 / 256)%Z with (z / 16777216)%Z in H2
    by (rewrite Z.div_div by lia; reflexivity).
  assert (z / 16777216 < 256)%Z as Htop by (apply Z.div_lt_upper_bound; lia).
  assert (0 <= z / 16777216)%Z as Hpos by (apply Z.div_pos; lia).
  rewrite (Z.mod_small (z / 16777216) 256) by lia.
  lia.
Qed.

Lemma uint32_le_bound (b0 b1 b2 : Byte.byte) :
  (0 <= uint32_le [b0; b1; b2; Byte.x00] < 2 ^ 24)%Z.
Proof.
  unfold uint32_le. cbn [fold_right].
  pose proof (Byte.to_N_bounded b0). pose proof (Byte.to_N_bounded b1).
  pose proof (Byte.to_N_bounded b2).
  change (Byte.to_N Byte.x00) with 0%N. lia.
Qed.

(** A read that does not get all its bytes, or comes after one, leaves the
    last byte of the destination zero and the stream failed. *)
Lemma read_incomplete (size : nat) (s : ifstream.t) :
  ifstream.failbit s = true
  ∨ (length (ifstream.content s) < ifstream.position s + S size)%nat ->
  length (fst (ifstream.read (S size) s)) = S size
  ∧ fst (ifstream.read (S size) s) !! size = Some Byte.x00
  ∧ ifstream.failbit (snd (ifstream.read (S size) s)) = true.
Proof.
  intros Hshort. unfold ifstream.read.
  destruct (ifstream.failbit s) eqn:Hfail.
  - cbn [fst snd]. split; [apply length_replicate |]. split; [| exact Hfail].
    apply lookup_replicate_2. lia.
  - destruct Hshort as [Hshort | Hshort]; [discriminate |].
    set (available := take (S size) (drop (ifstream.position s) (ifstream.content s))).
    assert (length available < S size)%nat as Hless.
    { unfold available. rewrite length_take, length_drop. lia. }
    destruct (Nat.ltb_spec (length available) (S size)) as [_ | Hge]; [| lia].
    cbn [fst snd ifstream.failbit].
    split; [rewrite length_app, length_replicate; lia |]. split; [| reflexivity].
    rewrite lookup_app_r by lia.
    apply lookup_replicate_2. lia.
Qed.

(** A read that gets all its bytes. *)
Lemma read_exact (s : ifstream.t) (size : nat) (before chunk after : list Byte.byte) :
  ifstream.failbit s = false ->
  ifstream.content s = (before ++ chunk ++ after)%list ->
  ifstream.position s = length before ->
  size = length chunk ->
  ifstream.read size s
  = (chunk, ifstream.mk (ifstream.content s) (ifstream.position s + size) false).
Proof.
  intros Hfail Hcontent Hposition ->. unfold ifstream.read.
  rewrite Hfail, Hcontent, Hposition.
  rewrite drop_app_length, take_app_length, Nat.ltb_irrefl. reflexivity.
Qed.

Lemma chunk_type_of_short_read (b : list Byte.byte) :
  length b = 8%nat ->
  b !! 7%nat = Some Byte.x00 ->
  BinaryGltfChunk.chunkType (BinaryGltfChunk.of_bytes b) ≠ jsonChunkType.
Proof.
  intros Hlength Hlast.
  do 8 (destruct b as [| ? b]; [discriminate |]). destruct b; [| discriminate].
  simpl in Hlast. injection Hlast as ->.
  unfold BinaryGltfChunk.of_bytes. cbn [take drop BinaryGltfChunk.chunkType].
  match goal with
  | |- uint32_le [?b0; ?b1; ?b2; Byte.x00] ≠ _ => pose proof (uint32_le_bound b0 b1 b2) as H
  end.
  unfold jsonChunkType. lia.
Qed.

(** X18: a regular file of fewer than twenty bytes, or one that cannot be
    opened, is refused with [InvalidGLB], whatever it holds: the bytes that a
    read does not get are zero, and the type of the JSON chunk is not. *)
Theorem loadBinaryGLTF_short_file (parse : list Byte.byte -> simdjson.result element)
    (parser : Parser.t) (file : path) (contents : option (list Byte.byte)) (options : Z) :
  (∀ content, contents = Some content -> (length content < 20)%nat) ->
  loadBinaryGLTF parse parser file true contents options
  = (None, Parser.set_errorCode Error.InvalidGLB parser).
Proof.
  intros Hshort. unfold loadBinaryGLTF. cbn [negb].
  destruct (ifstream.read 12 (ifstream.open contents)) as [bytes1 s1] eqn:H1.
  match goal with
  | |- (if ?c then _ else _) = _ => destruct c; [reflexivity |]
  end.
  assert (ifstream.failbit s1 = true
          ∨ (length (ifstream.content s1) < ifstream.position s1 + 8)%nat) as Hs1.
  { unfold ifstream.read in H1. destruct contents as [content |]; simpl in H1.
    - specialize (Hshort content eq_refl).
      destruct (length (take 12 (drop 0 content)) <? 12)%nat;
        injection H1 as _ <-; simpl; [left; reflexivity | right; lia].
    - injection H1 as _ <-. left. reflexivity. }
  pose proof (read_incomplete 7 s1 Hs1) as (Hlength & Hlast & _).
  destruct (ifstream.read 8 s1) as [bytes2 s2]. simpl in Hlength, Hlast.
  pose proof (chunk_type_of_short_read bytes2 Hlength Hlast) as Htype.
  destruct (Z.eqb_spec (BinaryGltfChunk.chunkType (BinaryGltfChunk.of_bytes bytes2))
              jsonChunkType); [contradiction | reflexivity].
Qed.

Lemma loadBinaryGLTF_short_file_witness :
  loadBinaryGLTF box_parse box_parser (path_of "models/box.glb") true
    (Some [Byte.x67; Byte.x6c; Byte.x54; Byte.x46; Byte.x02]) Options.None
  = (None, Parser.set_errorCode Error.InvalidGLB box_parser).
Proof.
  apply (loadBinaryGLTF_short_file box_parse box_parser (path_of "models/box.glb")
           (Some [Byte.x67; Byte.x6c; Byte.x54; Byte.x46; Byte.x02]) Options.None).
  intros content [= <-]. simpl. lia.
Defined.

Lemma header_of_bytes (magic version total : Z) :
  (0 <= magic < 2 ^ 32)%Z -> (0 <= version < 2 ^ 32)%Z -> (0 <= total < 2 ^ 32)%Z ->
  BinaryGltfHeader.of_bytes
    (uint32_bytes magic ++ uint32_bytes version ++ uint32_bytes total)%list
  = BinaryGltfHeader.mk magic version total.
Proof.
  intros Hm Hv Ht. unfold BinaryGltfHeader.of_bytes.
  change (take 4 (uint32_bytes magic ++ uint32_bytes version ++ uint32_bytes total)%list)
    with (uint32_bytes magic).
  change (take 4 (drop 4 (uint32_bytes magic ++ uint32_bytes version
                          ++ uint32_bytes total)%list))
    with (uint32_bytes version).
  change (take 4 (drop 8 (uint32_bytes magic ++ uint32_bytes version
                          ++ uint32_bytes total)%list))
    with (uint32_bytes total).
  rewrite !uint32_le_bytes by assumption. reflexivity.
Qed.

Lemma chunk_of_bytes (chunkLength chunkType : Z) :
  (0 <= chunkLength < 2 ^ 32)%Z -> (0 <= chunkType < 2 ^ 32)%Z ->
  BinaryGltfChunk.of_bytes (uint32_bytes chunkLength ++ uint32_bytes chunkType)%list
  = BinaryGltfChunk.mk chunkLength chunkType.
Proof.
  intros Hl Ht. unfold BinaryGltfChunk.of_bytes.
  change (take 4 (uint32_bytes chunkLength ++ uint32_bytes chunkType)%list)
    with (uint32_bytes chunkLength).
  change (take 4 (drop 4 (uint32_bytes chunkLength ++ uint32_bytes chunkType)%list))
    with (uint32_bytes chunkType).
  rewrite !uint32_le_bytes by assumption. reflexivity.
Qed.

(** The first three reads of [loadBinaryGLTF] on a file that starts with a
    well-formed header and JSON chunk. *)
Lemma loadBinaryGLTF_head (parse : list Byte.byte -> simdjson.result element)
    (parser : Parser.t) (file : path) (total : Z) (json rest : list Byte.byte)
    (options : Z) :
  (0 <= total < 2 ^ 32)%Z ->
  (Z.of_nat (length json) < 2 ^ 32)%Z ->
  let content := (glb_head total json ++ rest)%list in
  let parser' := Parser.set_errorCode Error.None parser in
  let gltfFile := ifstream.mk content (20 + length json) false in
  loadBinaryGLTF parse parser file true (Some content) options
  = match get_object (parse json) with
    | err _ => (None, Parser.set_errorCode Error.InvalidJson parser')
    | ok data =>
        if (total >? static_cast_uint32 (ifstream.tellg gltfFile) + 8)%Z
        then
          let '(bytes, gltfFile) := ifstream.read 8 gltfFile in
          let binaryChunk := BinaryGltfChunk.of_bytes bytes in
          if negb (BinaryGltfChunk.chunkType binaryChunk =? binaryChunkType)%Z
          then (None, Parser.set_errorCode Error.InvalidGLB parser')
          else
            let gltf :=
              if hasBit options Options.LoadGLBBuffers then
                let '(binary, gltfFile) :=
                  ifstream.read (Z.to_nat (BinaryGltfChunk.chunkLength binaryChunk))
                    gltfFile in
                glTF_new_loaded data file (raw_bytes binary) options
                  (Parser.extensions parser')
              else
                glTF_new_lazy data file
                  (static_cast_size_t (ifstream.tellg gltfFile))
                  (BinaryGltfChunk.chunkLength binaryChunk) options
                  (Parser.extensions parser') in
            checked_handle parser' options gltf
        else
          checked_handle parser' options
            (glTF_new data file options (Parser.extensions parser'))
    end.
Proof.
  intros Htotal Hjson content parser' gltfFile.
  unfold loadBinaryGLTF. cbn [negb ifstream.open].
  rewrite (read_exact (ifstream.mk content 0 false) 12 []
             (uint32_bytes binaryGltfHeaderMagic ++ uint32_bytes 2 ++ uint32_bytes total)
             (uint32_bytes (Z.of_nat (length json)) ++ uint32_bytes jsonChunkType
              ++ json ++ rest))
    by (try reflexivity; unfold content, glb_head; cbn [ifstream.content];
        rewrite <- !app_assoc; reflexivity).
  rewrite header_of_bytes by (unfold binaryGltfHeaderMagic; lia).
  cbn [BinaryGltfHeader.magic BinaryGltfHeader.version BinaryGltfHeader.length
       ifstream.content ifstream.position].
  rewrite !Z.eqb_refl. cbn [negb orb].
  rewrite (read_exact (ifstream.mk content (0 + 12) false) 8
             (uint32_bytes binaryGltfHeaderMagic ++ uint32_bytes 2 ++ uint32_bytes total)
             (uint32_bytes (Z.of_nat (length json)) ++ uint32_bytes jsonChunkType)
             (json ++ rest))
    by (try reflexivity; unfold content, glb_head; cbn [ifstream.content];
        rewrite <- !app_assoc; reflexivity).
  rewrite chunk_of_bytes by (unfold jsonChunkType; lia).
  cbn [BinaryGltfChunk.chunkType BinaryGltfChunk.chunkLength
       ifstream.content ifstream.position].
  rewrite Z.eqb_refl. cbn [negb]. rewrite Nat2Z.id.
  rewrite (read_exact (ifstream.mk content (0 + 12 + 8) false) (length json)
             (uint32_bytes binaryGltfHeaderMagic ++ uint32_bytes 2 ++ uint32_bytes total
              ++ uint32_bytes (Z.of_nat (length json)) ++ uint32_bytes jsonChunkType)
             json rest)
    by (try reflexivity; unfold content, glb_head; cbn [ifstream.content];
        rewrite <- !app_assoc; reflexivity).
  reflexivity.
Qed.

Lemma glb_head_length (total : Z) (json : list Byte.byte) :
  length (glb_head total json) = (20 + length json)%nat.
Proof. unfold glb_head. rewrite !length_app. reflexivity. Qed.



(** The file with a BIN chunk that is not empty, as [loadBinaryGLTF] reads it. *)
Lemma loadBinaryGLTF_bin_chunk (parse : list Byte.byte -> simdjson.result element)
    (parser : Parser.t) (file : path) (json bin : list Byte.byte) (options : Z) :
  (28 + Z.of_nat (length json) + Z.of_nat (length bin) < 2 ^ 32)%Z ->
  bin ≠ [] ->
  loadBinaryGLTF parse parser file true (Some (glb_json_bin json bin)) options
  = match get_object (parse json) with
    | err _ => (None, Parser.set_errorCode Error.InvalidJson parser)
    | ok data =>
        checked_handle (Parser.set_errorCode Error.None parser) options
          (if hasBit options Options.LoadGLBBuffers
           then glTF_new_loaded data file (raw_bytes bin) options (Parser.extensions parser)
           else glTF_new_lazy data file (28 + Z.of_nat (length json))
                  (Z.of_nat (length bin)) options (Parser.extensions parser))
    end.
Proof.
  intros Hsize Hbin.
  assert (0 < length bin)%nat as Hlength by (destruct bin; [contradiction | simpl; lia]).
  set (total := (28 + Z.of_nat (length json) + Z.of_nat (length bin))%Z).
  set (chunk := (uint32_bytes (Z.of_nat (length bin)) ++ uint32_bytes binaryChunkType)%list).
  assert (glb_json_bin json bin = (glb_head total json ++ chunk ++ bin)%list) as Hfile.
  { unfold glb_json_bin, chunk. rewrite <- !app_assoc. reflexivity. }
  pose proof (loadBinaryGLTF_head parse parser file total json (chunk ++ bin)
                options ltac:(unfold total; lia) ltac:(lia)) as Hhead.
  cbv zeta in Hhead. rewrite Hfile, Hhead. clear Hhead.
  destruct (get_object (parse json)) as [data | e]; [| reflexivity].
  cbn [ifstream.tellg ifstream.failbit ifstream.position].
  assert (static_cast_uint32 (Z.of_nat (20 + length json))
          = 20 + Z.of_nat (length json))%Z as ->.
  { unfold static_cast_uint32. rewrite Z.mod_small by lia. lia. }
  destruct (Z.gtb_spec total (20 + Z.of_nat (length json) + 8)); [| unfold total in *; lia].
  rewrite (read_exact _ 8 (glb_head total json) chunk bin)
    by (try reflexivity; cbn [ifstream.position]; rewrite glb_head_length; reflexivity).
  assert (BinaryGltfChunk.of_bytes chunk
          = BinaryGltfChunk.mk (Z.of_nat (length bin)) binaryChunkType) as ->
    by (apply chunk_of_bytes; unfold binaryChunkType; lia).
  cbn [BinaryGltfChunk.chunkType BinaryGltfChunk.chunkLength
       ifstream.content ifstream.position].
  rewrite Z.eqb_refl. cbn [negb]. rewrite Nat2Z.id.
  destruct (hasBit options Options.LoadGLBBuffers).
  - rewrite (read_exact _ (length bin) (glb_head total json ++ chunk) bin [])
      by (try reflexivity;
          first [cbn [ifstream.content]; rewrite app_nil_r, <- app_assoc; reflexivity
                | cbn [ifstream.position]; rewrite length_app, glb_head_length;
                  reflexivity]).
    reflexivity.
  - cbn [ifstream.tellg ifstream.failbit ifstream.position].
    assert (static_cast_size_t (Z.of_nat (20 + length json + 8))
            = 28 + Z.of_nat (length json))%Z as ->.
    { unfold static_cast_size_t. rewrite Z.mod_small by lia. lia. }
    reflexivity.
Qed.

(** X20: a GLB file made of a header, a JSON chunk and a BIN chunk that is
    not empty is read back: with [LoadGLBBuffers] the handle holds the bytes
    of the BIN chunk, without it the handle holds the place of the chunk in
    the file, offset 28 + the length of the JSON chunk and the length of the
    BIN chunk, which is where the bytes are; the handle then has to pass the
    asset check and the extension gate. *)
Theorem loadBinaryGLTF_with_bin (parse : list Byte.byte -> simdjson.result element)
    (parser : Parser.t) (file : path) (json bin : list Byte.byte) (options : Z) :
  (28 + Z.of_nat (length json) + Z.of_nat (length bin) < 2 ^ 32)%Z ->
  bin ≠ [] ->
  loadBinaryGLTF parse parser file true (Some (glb_json_bin json bin)) options
  = match get_object (parse json) with
    | err _ => (None, Parser.set_errorCode Error.InvalidJson parser)
    | ok data =>
        checked_handle (Parser.set_errorCode Error.None parser) options
          (if hasBit options Options.LoadGLBBuffers
           then glTF_new_loaded data file (raw_bytes bin) options (Parser.extensions parser)
           else glTF_new_lazy data file (28 + Z.of_nat (length json))
                  (Z.of_nat (length bin)) options (Parser.extensions parser))
    end
  ∧ take (length bin) (drop (28 + length json) (glb_json_bin json bin)) = bin.
Proof.
  intros Hsize Hbin.
  split; [exact (loadBinaryGLTF_bin_chunk parse parser file json bin options Hsize Hbin) |].
  set (total := (28 + Z.of_nat (length json) + Z.of_nat (length bin))%Z).
  set (chunk := (uint32_bytes (Z.of_nat (length bin)) ++ uint32_bytes binaryChunkType)%list).
  assert (glb_json_bin json bin = (glb_head total json ++ chunk ++ bin)%list) as ->.
  { unfold glb_json_bin, chunk. rewrite <- !app_assoc. reflexivity. }
  replace (28 + length json)%nat with (length (glb_head total json ++ chunk)%list)
    by (rewrite length_app, glb_head_length; simpl; lia).
  rewrite app_assoc, drop_app_length.
  apply firstn_all.
Qed.

Lemma loadBinaryGLTF_with_bin_witness :
  loadBinaryGLTF box_parse box_parser (path_of "models/box.glb") true
    (Some (glb_json_bin box_json box_bin)) Options.DontRequireValidAssetMember
  = (Some (glTF_new_lazy [] (path_of "models/box.glb") 30 3
             Options.DontRequireValidAssetMember Extensions.None),
     Parser.set_errorCode Error.None box_parser)
  ∧ take 3 (drop 30 (glb_json_bin box_json box_bin)) = box_bin.
Proof.
  destruct (loadBinaryGLTF_with_bin box_parse box_parser (path_of "models/box.glb")
              box_json box_bin Options.DontRequireValidAssetMember) as [Hload Hbytes];
    [vm_compute; reflexivity | discriminate |].
  split; [rewrite Hload; reflexivity | exact Hbytes].
Defined.

Lemma checked_handle_cases (parser : Parser.t) (options : Z) (gltf : glTF) :
  match checked_handle parser options gltf with
  | (Some h, parser') =>
      h = gltf ∧ parser' = parser
      ∧ fst (checkExtensions gltf) = true
      ∧ (hasBit options Options.DontRequireValidAssetMember = false ->
         fst (checkAssetField gltf) = true)
  | (None, parser') =>
      In (Parser.errorCode parser')
        [ Error.InvalidOrMissingAssetField; Error.InvalidGltf;
          Error.UnsupportedExtensions; Error.MissingExtensions ]
  end.
Proof.
  unfold checked_handle.
  destruct (checkExtensions_cases gltf) as [Hpass | (e & He & Hfail)].
  - rewrite Hpass.
    destruct (hasBit options Options.DontRequireValidAssetMember); cbn [negb andb].
    + repeat split; discriminate.
    + destruct (fst (checkAssetField gltf)); cbn [negb]; [| simpl; auto].
      repeat split.
  - rewrite Hfail.
    destruct (negb (hasBit options Options.DontRequireValidAssetMember)
              && negb (fst (checkAssetField gltf))); cbn [negb]; [simpl; auto |].
    simpl in *. tauto.
Qed.

(** A read from a stream that has not failed. *)
Lemma read_at (content : list Byte.byte) (p size : nat) :
  (p <= length content)%nat ->
  ifstream.read size (ifstream.mk content p false)
  = (file_bytes content p size,
     if (p + size <=? length content)%nat
     then ifstream.mk content (p + size) false
     else ifstream.mk content (p + length (take size (drop p content))) true).
Proof.
  intros Hp. unfold ifstream.read, file_bytes.
  cbn [ifstream.failbit ifstream.content ifstream.position].
  set (available := take size (drop p content)).
  assert (length available = Nat.min size (length content - p)) as Hlength
    by (unfold available; rewrite length_take, length_drop; reflexivity).
  destruct (Nat.ltb_spec (length available) size) as [Hshort | Hall];
    destruct (Nat.leb_spec (p + size) (length content)) as [Hfits | Hends]; try lia.
  - reflexivity.
  - replace (size - length available)%nat with 0%nat by lia.
    cbn [replicate]. rewrite app_nil_r. reflexivity.
Qed.

Lemma file_bytes_short (content : list Byte.byte) (p size : nat) :
  (length content < p + S size)%nat ->
  length (file_bytes content p (S size)) = S size
  ∧ file_bytes content p (S size) !! size = Some Byte.x00.
Proof.
  intros Hshort. unfold file_bytes.
  set (available := take (S size) (drop p content)).
  assert (length available < S size)%nat as Hless
    by (unfold available; rewrite length_take, length_drop; lia).
  split; [rewrite length_app, length_replicate; lia |].
  rewrite lookup_app_r by lia. apply lookup_replicate_2. lia.
Qed.

Lemma uint32_le_range (b : list Byte.byte) :
  (length b <= 4)%nat -> (0 <= uint32_le b < 2 ^ 32)%Z.
Proof.
  intros Hlength. unfold uint32_le.
  do 5 (destruct b as [| ? b]; [cbn [fold_right];
        repeat match goal with
               | |- context [Byte.to_N ?x] =>
                   lazymatch goal with
                   | H : (Byte.to_N x <= 255)%N |- _ => fail
                   | _ => pose proof (Byte.to_N_bounded x)
                   end
               end; lia |]).
  simpl in Hlength. lia.
Qed.

(** X21: [loadBinaryGLTF] returns a handle or an error, never both and never
    neither.  A handle comes with the parser's error code [None], for a file
    of at least twenty bytes whose header has the magic number and version 2
    and whose first chunk has the JSON type; the text of that chunk, as long
    as the chunk header says, parses to an object, and the handle is the
    fresh handle on that object: with the bytes that follow the header of
    the BIN chunk when [LoadGLBBuffers] is set, with their offset and length
    in the file when it is not, and without a GLB part when the file ends
    within its JSON chunk or its header leaves no room for another chunk
    header; the handle has passed the asset check (unless
    [DontRequireValidAssetMember]) and the extension gate.  Without a handle
    the parser's error code is one of seven errors. *)
Theorem loadBinaryGLTF_handle_or_error (parse : list Byte.byte -> simdjson.result element)
    (parser : Parser.t) (file : path) (is_regular_file : bool)
    (contents : option (list Byte.byte)) (options : Z) :
  match loadBinaryGLTF parse parser file is_regular_file contents options with
  | (Some h, parser') =>
      Parser.errorCode parser' = Error.None
      ∧ Parser.extensions parser' = Parser.extensions parser
      ∧ is_regular_file = true
      ∧ (∃ content data,
           contents = Some content
           ∧ (20 <= length content)%nat
           ∧ BinaryGltfHeader.magic (glb_header content) = binaryGltfHeaderMagic
           ∧ BinaryGltfHeader.version (glb_header content) = 2%Z
           ∧ BinaryGltfChunk.chunkType (glb_json_chunk content) = jsonChunkType
           ∧ get_object (parse (glb_json_text content)) = ok data
           ∧ (glb_has_binary_chunk content = true ->
              BinaryGltfChunk.chunkType (glb_binary_chunk content) = binaryChunkType)
           ∧ h = glb_handle content data file options (Parser.extensions parser))
      ∧ fst (checkExtensions h) = true
      ∧ (hasBit options Options.DontRequireValidAssetMember = false ->
         fst (checkAssetField h) = true)
  | (None, parser') =>
      In (Parser.errorCode parser')
        [ Error.InvalidPath; Error.InvalidGLB; Error.InvalidJson;
          Error.InvalidOrMissingAssetField; Error.InvalidGltf;
          Error.UnsupportedExtensions; Error.MissingExtensions ]
  end.
Proof.
  unfold loadBinaryGLTF.
  destruct is_regular_file; cbn [negb]; [| simpl; auto].
  destruct contents as [content |]; cbn [ifstream.open]; [| vm_compute; auto].
  rewrite (read_at content 0 12) by lia.
  fold (glb_header content).
  destruct (negb (BinaryGltfHeader.magic (glb_header content) =? binaryGltfHeaderMagic)%Z
            || negb (BinaryGltfHeader.version (glb_header content) =? 2)%Z) eqn:Hheader;
    [simpl; auto |].
  apply orb_false_iff in Hheader as [Hmagic Hversion].
  apply negb_false_iff, Z.eqb_eq in Hmagic, Hversion.
  assert (∀ s bytes s',
            ifstream.read 8 s = (bytes, s') ->
            ifstream.failbit s = true
            ∨ (length (ifstream.content s) < ifstream.position s + 8)%nat ->
            (BinaryGltfChunk.chunkType (BinaryGltfChunk.of_bytes bytes) =? jsonChunkType)%Z
            = false) as Hshort.
  { intros s bytes s' Hread Hs.
    pose proof (read_incomplete 7 s Hs) as (Hlength & Hlast & _).
    rewrite Hread in Hlength, Hlast. simpl in Hlength, Hlast.
    apply Z.eqb_neq, chunk_type_of_short_read; assumption. }
  destruct (Nat.leb_spec (0 + 12) (length content)) as [H12 | H12].
  2: { destruct (ifstream.read 8 _) as [bytes s'] eqn:Hread.
       rewrite (Hshort _ _ _ Hread ltac:(left; reflexivity)). simpl. auto. }
  destruct (Nat.leb_spec (0 + 12 + 8) (length content)) as [H20 | H20].
  2: { destruct (ifstream.read 8 _) as [bytes s'] eqn:Hread.
       rewrite (Hshort _ _ _ Hread ltac:(right; simpl; lia)). simpl. auto. }
  clear Hshort.
  rewrite (read_at content (0 + 12) 8) by lia.
  change (BinaryGltfChunk.of_bytes (file_bytes content (0 + 12) 8))
    with (glb_json_chunk content).
  destruct (Nat.leb_spec (0 + 12 + 8) (length content)) as [_ | ?]; [| lia].
  destruct (negb (BinaryGltfChunk.chunkType (glb_json_chunk content) =? jsonChunkType)%Z)
    eqn:Hchunk; [simpl; auto |].
  apply negb_false_iff, Z.eqb_eq in Hchunk.
  change (Z.to_nat (BinaryGltfChunk.chunkLength (glb_json_chunk content)))
    with (glb_json_length content).
  rewrite (read_at content (0 + 12 + 8) (glb_json_length content)) by lia.
  change (file_bytes content (0 + 12 + 8) (glb_json_length content))
    with (glb_json_text content).
  destruct (get_object (parse (glb_json_text content))) as [data | e] eqn:Hdata;
    [| simpl; auto 6].
  change (Parser.extensions (Parser.set_errorCode Error.None parser))
    with (Parser.extensions parser).
  assert (∀ gltf,
            gltf = glb_handle content data file options (Parser.extensions parser) ->
            (glb_has_binary_chunk content = true ->
             BinaryGltfChunk.chunkType (glb_binary_chunk content) = binaryChunkType) ->
            match checked_handle (Parser.set_errorCode Error.None parser) options gltf with
            | (Some h, parser') =>
                Parser.errorCode parser' = Error.None
                ∧ Parser.extensions parser' = Parser.extensions parser
                ∧ true = true
                ∧ (∃ content0 data0,
                     Some content = Some content0
                     ∧ (20 <= length content0)%nat
                     ∧ BinaryGltfHeader.magic (glb_header content0) = binaryGltfHeaderMagic
                     ∧ BinaryGltfHeader.version (glb_header content0) = 2%Z
                     ∧ BinaryGltfChunk.chunkType (glb_json_chunk content0) = jsonChunkType
                     ∧ get_object (parse (glb_json_text content0)) = ok data0
                     ∧ (glb_has_binary_chunk content0 = true ->
                        BinaryGltfChunk.chunkType (glb_binary_chunk content0)
                        = binaryChunkType)
                     ∧ h = glb_handle content0 data0 file options (Parser.extensions parser))
                ∧ fst (checkExtensions h) = true
                ∧ (hasBit options Options.DontRequireValidAssetMember = false ->
                   fst (checkAssetField h) = true)
            | (None, parser') =>
                In (Parser.errorCode parser')
                  [ Error.InvalidPath; Error.InvalidGLB; Error.InvalidJson;
                    Error.InvalidOrMissingAssetField; Error.InvalidGltf;
                    Error.UnsupportedExtensions; Error.MissingExtensions ]
            end) as Hchecked.
  { intros gltf Hgltf Htype.
    pose proof (checked_handle_cases (Parser.set_errorCode Error.None parser) options gltf)
      as Hcases.
    destruct (checked_handle (Parser.set_errorCode Error.None parser) options gltf)
      as [[h |] parser'].
    - destruct Hcases as (-> & -> & Hgate & Hasset).
      split; [reflexivity |]. split; [reflexivity |]. split; [reflexivity |].
      split; [| split; assumption].
      exists content, data. repeat split; try assumption; try (simpl in H20; exact H20).
    - simpl in *. tauto. }
  pose proof (uint32_le_range (take 4 (drop 8 (file_bytes content 0 12)))
                ltac:(rewrite length_take; lia)) as Hrange.
  change (uint32_le (take 4 (drop 8 (file_bytes content 0 12))))
    with (BinaryGltfHeader.length (glb_header content)) in Hrange.
  destruct (Nat.leb_spec (0 + 12 + 8 + glb_json_length content) (length content))
    as [Hjson | Hjson].
  - cbn [ifstream.tellg ifstream.failbit ifstream.position].
    change (0 + 12 + 8 + glb_json_length content)%nat
      with (20 + glb_json_length content)%nat in *.
    assert (glb_has_binary_chunk content
            = (BinaryGltfHeader.length (glb_header content)
               >? static_cast_uint32 (Z.of_nat (20 + glb_json_length content)) + 8)%Z)
      as Hfound.
    { unfold glb_has_binary_chunk.
      destruct (Nat.leb_spec (20 + glb_json_length content) (length content)); [| lia].
      reflexivity. }
    destruct (BinaryGltfHeader.length (glb_header content)
              >? static_cast_uint32 (Z.of_nat (20 + glb_json_length content)) + 8)%Z
      eqn:Hbin.
    + rewrite (read_at content (20 + glb_json_length content) 8) by lia.
      change (BinaryGltfChunk.of_bytes
                (file_bytes content (20 + glb_json_length content) 8))
        with (glb_binary_chunk content).
      destruct (negb (BinaryGltfChunk.chunkType (glb_binary_chunk content)
                      =? binaryChunkType)%Z) eqn:Htype; [simpl; auto |].
      apply negb_false_iff, Z.eqb_eq in Htype.
      apply Hchecked; [| intros _; exact Htype].
      unfold glb_handle. rewrite Hfound.
      destruct (hasBit options Options.LoadGLBBuffers).
      * destruct (Nat.leb_spec (20 + glb_json_length content + 8) (length content))
          as [Hchunk2 | Hchunk2].
        -- rewrite (read_at content (20 + glb_json_length content + 8)) by lia.
           replace (20 + glb_json_length content + 8)%nat
             with (28 + glb_json_length content)%nat by lia.
           reflexivity.
        -- unfold ifstream.read. cbn [ifstream.failbit].
           unfold file_bytes.
           rewrite (drop_ge content (28 + glb_json_length content)) by lia.
           rewrite take_nil. cbn [length app]. rewrite Nat.sub_0_r. reflexivity.
      * destruct (Nat.leb_spec (20 + glb_json_length content + 8) (length content))
          as [Hchunk2 | Hchunk2];
          destruct (Nat.leb_spec (28 + glb_json_length content) (length content));
          try lia; cbn [ifstream.tellg ifstream.failbit ifstream.position].
        -- unfold static_cast_size_t.
           assert (Z.of_nat (glb_json_length content) < 2 ^ 32)%Z as Hn.
           { unfold glb_json_length.
             pose proof (uint32_le_range (take 4 (file_bytes content 12 8))
                           ltac:(rewrite length_take; lia)) as Hlen.
             change (uint32_le (take 4 (file_bytes content 12 8)))
               with (BinaryGltfChunk.chunkLength (glb_json_chunk content)) in Hlen.
             rewrite Z2Nat.id by lia. lia. }
           rewrite Z.mod_small by lia.
           replace (20 + glb_json_length content + 8)%nat
             with (28 + glb_json_length content)%nat by lia.
           reflexivity.
        -- reflexivity.
    + apply Hchecked; [| rewrite Hfound; discriminate].
      unfold glb_handle. rewrite Hfound. reflexivity.
  - cbn [ifstream.tellg ifstream.failbit].
    assert (glb_has_binary_chunk content = false) as Hfound.
    { unfold glb_has_binary_chunk.
      destruct (Nat.leb_spec (20 + glb_json_length content) (length content));
        [simpl in Hjson; lia | reflexivity]. }
    destruct (Z.gtb_spec (BinaryGltfHeader.length (glb_header content))
                (static_cast_uint32 (-1) + 8)) as [Hgt | _].
    + exfalso. change (static_cast_uint32 (-1)) with 4294967295%Z in Hgt. lia.
    + apply Hchecked; [| rewrite Hfound; discriminate].
      unfold glb_handle. rewrite Hfound. reflexivity.
Qed.

(** X22: from the file to the asset.  When [loadBinaryGLTF] gives a handle
    for a GLB file with a BIN chunk that is not empty, and the document
    lists one buffer, without [uri], then [parseBuffers] succeeds and
    [getParsedAsset] gives an asset whose only buffer is the BIN chunk: its
    bytes with [LoadGLBBuffers], and otherwise the file with the offset of
    the chunk, 28 + the length of the JSON chunk.  The [byteLength] of the
    buffer is the one the document gives. *)
Theorem glb_buffer_from_file_to_asset
    (parse : list Byte.byte -> simdjson.result element) (parser parser' : Parser.t)
    (file : path) (json bin : list Byte.byte) (options : Z) (h : glTF)
    (o : object) (byteLength : Z) :
  (28 + Z.of_nat (length json) + Z.of_nat (length bin) < 2 ^ 32)%Z ->
  bin ≠ [] ->
  loadBinaryGLTF parse parser file true (Some (glb_json_bin json bin)) options
  = (Some h, parser') ->
  get_array (at_key (root h) "buffers") = ok [OBJECT o] ->
  absent "uri" o ->
  get_uint64 (at_key o "byteLength") = ok byteLength ->
  ∃ h',
    parseBuffers h = Returned Error.None h'
    ∧ fst (getParsedAsset h')
      = Some (push_buffer
                (Buffer.mk byteLength
                   (if hasBit options Options.LoadGLBBuffers
                    then DataSource.mk (raw_bytes bin) (path_of "") MimeType.None 0 None
                    else DataSource.mk (raw_bytes []) file MimeType.GltfBuffer
                           (28 + Z.of_nat (length json)) None)
                   (if hasBit options Options.LoadGLBBuffers
                    then DataLocation.VectorWithMime
                    else DataLocation.FilePathWithByteRange)
                   (optional (get_string (at_key o "name"))))
                Asset.init).
Proof.
  intros Hsize Hbin Hload Hbuffers Huri Hlength.
  rewrite (loadBinaryGLTF_bin_chunk parse parser file json bin options Hsize Hbin) in Hload.
  destruct (get_object (parse json)) as [data | e]; [| discriminate].
  match type of Hload with
  | checked_handle ?p ?opts ?g = _ =>
      pose proof (checked_handle_cases p opts g) as Hcases; rewrite Hload in Hcases
  end.
  destruct Hcases as (-> & _ & _ & _). clear Hload.
  unfold parseBuffers, top_level_array, getJsonArray. rewrite Hbuffers. simpl.
  destruct (hasBit options Options.LoadGLBBuffers) eqn:Hoption.
  - unfold with_asset. simpl.
    rewrite (parseBuffer_without_uri _ 0 o Huri), Hlength. simpl. rewrite Hoption.
    eexists. split; reflexivity.
  - unfold with_asset. simpl.
    rewrite (parseBuffer_without_uri _ 0 o Huri), Hlength. simpl. rewrite Hoption.
    eexists. split; reflexivity.
Qed.

Lemma glb_buffer_from_file_to_asset_witness :
  ∃ h',
    parseBuffers (glTF_new_lazy box_document (path_of "models/box.glb") 30 3
                    Options.DontRequireValidAssetMember Extensions.None)
    = Returned Error.None h'
    ∧ fst (getParsedAsset h')
      = Some (push_buffer
                (Buffer.mk 3
                   (DataSource.mk (raw_bytes []) (path_of "models/box.glb")
                      MimeType.GltfBuffer 30 None)
                   DataLocation.FilePathWithByteRange None)
                Asset.init).
Proof.
  apply (glb_buffer_from_file_to_asset box_document_parse box_parser
           (Parser.set_errorCode Error.None box_parser) (path_of "models/box.glb")
           box_json box_bin Options.DontRequireValidAssetMember
           (glTF_new_lazy box_document (path_of "models/box.glb") 30 3
              Options.DontRequireValidAssetMember Extensions.None)
           [("byteLength", INT64 3)] 3).
  - vm_compute. reflexivity.
  - discriminate.
  - vm_compute. reflexivity.
  - reflexivity.
  - apply at_key_absent. reflexivity.
  - reflexivity.
Defined.

(** ** The factors of a material *)

Lemma leading_numbers_le (values : array) : (leading_numbers values <= length values)%nat.
Proof.
  induction values as [| v rest IH]; simpl; [lia |].
  destruct (is_number v); lia.
Qed.

(** The indexed loop runs to its end only over numbers. *)
Lemma read_floats_done (values : array) (count i : nat) (dst : list float32) :
  fst (read_floats values i count dst) = true ->
  (count <= leading_numbers (drop i values))%nat.
Proof.
  revert i dst. induction count as [| count IH]; intros i dst; simpl; [lia |].
  unfold get_double, at_index, and_then.
  destruct (values !! i) as [v |] eqn:Hv; [| discriminate].
  destruct (as_double v) as [val |] eqn:Hval; [| discriminate].
  intros Hdone. apply IH in Hdone.
  rewrite (drop_S values v i Hv). simpl. unfold is_number. rewrite Hval. simpl. lia.
Qed.

Local Opaque read_floats.

(** X23: in a material that [parseMaterials] accepts, an [emissiveFactor]
    array holds exactly three elements, all numbers, while a
    [baseColorFactor] array only has to start with four numbers, whatever
    follows them; and the material has PBR data exactly when
    [pbrMetallicRoughness] is an object. *)
Theorem parseMaterial_accepted (h : glTF) (o : object) (material : Material.t) :
  parseMaterial h (OBJECT o) = Parsed material ->
  (∀ values, get_array (at_key o "emissiveFactor") = ok values ->
     length values = 3%nat ∧ Forall (fun v => is_number v = true) values)
  ∧ (∀ pbr values,
       get_object (at_key o "pbrMetallicRoughness") = ok pbr ->
       get_array (at_key pbr "baseColorFactor") = ok values ->
       (4 <= leading_numbers values)%nat)
  ∧ (Material.pbrData material ≠ None
     <-> succeeded (get_object (at_key o "pbrMetallicRoughness")) = true).
Proof.
  unfold parseMaterial. simpl.
  assert (match get_array (at_key o "emissiveFactor") with
          | ok emissiveFactor =>
              if negb (length emissiveFactor =? 3)%nat then Failed Error.InvalidGltf
              else
                let '(done, factor) :=
                  read_floats emissiveFactor 0 3 [f32 0; f32 0; f32 0] in
                if done then Parsed factor else Failed Error.InvalidGltf
          | err _ => Parsed [f32 0; f32 0; f32 0]
          end ≠ Failed Error.MissingField
          ∧ ∀ factor,
              match get_array (at_key o "emissiveFactor") with
              | ok emissiveFactor =>
                  if negb (length emissiveFactor =? 3)%nat then Failed Error.InvalidGltf
                  else
                    let '(done, factor) :=
                      read_floats emissiveFactor 0 3 [f32 0; f32 0; f32 0] in
                    if done then Parsed factor else Failed Error.InvalidGltf
              | err _ => Parsed [f32 0; f32 0; f32 0]
              end = Parsed factor ->
              ∀ values, get_array (at_key o "emissiveFactor") = ok values ->
                length values = 3%nat ∧ Forall (fun v => is_number v = true) values)
    as [_ Hemissive].
  { split.
    - destruct (get_array (at_key o "emissiveFactor")) as [values |]; [| discriminate].
      destruct (negb (length values =? 3)%nat); [discriminate |].
      destruct (read_floats values 0 3 [f32 0; f32 0; f32 0]) as [[|] factor]; discriminate.
    - intros factor. destruct (get_array (at_key o "emissiveFactor")) as [values |];
        [| discriminate].
      destruct (Nat.eqb_spec (length values) 3) as [Hlength | _]; [| discriminate].
      cbn [negb].
      pose proof (read_floats_done values 3 0 [f32 0; f32 0; f32 0]) as Hdone.
      destruct (read_floats values 0 3 [f32 0; f32 0; f32 0]) as [[|] factor'];
        [| discriminate].
      intros _ values' [= <-]. split; [exact Hlength |].
      apply leading_numbers_all. specialize (Hdone eq_refl). rewrite drop_0 in Hdone.
      pose proof (leading_numbers_le values). lia. }
  match goal with
  | |- parsed_bind ?c _ = _ -> _ =>
      destruct c as [emissiveFactor | |] eqn:Hfactor; simpl; try discriminate
  end.
  specialize (Hemissive emissiveFactor eq_refl).
  destruct (texture_member h o "normalTexture"); simpl; try discriminate.
  destruct (texture_member h o "occlusionTexture"); simpl; try discriminate.
  destruct (texture_member h o "emissiveTexture"); simpl; try discriminate.
  destruct (get_object (at_key o "pbrMetallicRoughness")) as [pbr |] eqn:Hpbr; simpl.
  - unfold parsePBRData.
    destruct (get_array (at_key pbr "baseColorFactor")) as [baseColorFactor |] eqn:Hbase.
    + pose proof (read_floats_done baseColorFactor 4 0 [f32 0; f32 0; f32 0; f32 0])
        as Hdone.
      destruct (read_floats baseColorFactor 0 4 [f32 0; f32 0; f32 0; f32 0])
        as [[|] factor]; simpl; [| discriminate].
      destruct (texture_member h pbr "baseColorTexture"); simpl; try discriminate.
      destruct (texture_member h pbr "metallicRoughnessTexture"); simpl; try discriminate.
      intros [= <-]. simpl. split; [exact Hemissive |]. split.
      * intros pbr' values [= <-] Hvalues. rewrite Hbase in Hvalues.
        injection Hvalues as <-. specialize (Hdone eq_refl).
        rewrite drop_0 in Hdone. exact Hdone.
      * split; [reflexivity | discriminate].
    + simpl.
      destruct (texture_member h pbr "baseColorTexture"); simpl; try discriminate.
      destruct (texture_member h pbr "metallicRoughnessTexture"); simpl; try discriminate.
      intros [= <-]. simpl. split; [exact Hemissive |]. split.
      * intros pbr' values [= <-] Hvalues. rewrite Hbase in Hvalues. discriminate.
      * split; [reflexivity | discriminate].
  - intros [= <-]. simpl. split; [exact Hemissive |]. split.
    + intros pbr' values Hpbr'. discriminate.
    + split; [intros H; contradiction | discriminate].
Qed.

Local Transparent read_floats.

Lemma parseMaterial_accepted_witness :
  ∃ material,
    parseMaterial small_scene_handle (OBJECT glowing_material) = Parsed material
    ∧ (∀ values, get_array (at_key glowing_material "emissiveFactor") = ok values ->
         length values = 3%nat ∧ Forall (fun v => is_number v = true) values)
    ∧ (∀ pbr values,
         get_object (at_key glowing_material "pbrMetallicRoughness") = ok pbr ->
         get_array (at_key pbr "baseColorFactor") = ok values ->
         (4 <= leading_numbers values)%nat)
    ∧ (Material.pbrData material ≠ None
       <-> succeeded (get_object (at_key glowing_material "pbrMetallicRoughness")) = true).
Proof.
  eexists. split; [reflexivity |].
  apply (parseMaterial_accepted small_scene_handle glowing_material). reflexivity.
Defined.

(** ** The attributes of a primitive *)

Lemma at_key_app (o : object) (k key : string) (v : element) :
  at_key (o ++ [(k, v)])%list key
  = match at_key o key with
    | ok x => ok x
    | err _ => if String.eqb k key then ok v else err NO_SUCH_FIELD
    end.
Proof.
  induction o as [| [k' v'] o IH]; simpl; [reflexivity |].
  destruct (String.eqb k' key); [reflexivity | exact IH].
Qed.

Lemma parseAttributes_lookup (fields : list (string * element)) :
  ∀ (initial attributes : gmap string Z) (key : string),
    parseAttributes fields initial = Parsed attributes ->
    attributes !! key
    = match at_key (reverse fields) key with
      | ok v => optional (as_uint64 v)
      | err _ => initial !! key
      end.
Proof.
  induction fields as [| [k v] rest IH]; intros initial attributes key; simpl.
  - intros [= <-]. reflexivity.
  - destruct (as_uint64 v) as [index |] eqn:Hv; simpl; [| discriminate].
    intros Hrest. rewrite (IH _ _ key Hrest), reverse_cons, at_key_app.
    destruct (at_key (reverse rest) key) as [x | e]; [reflexivity |].
    destruct (String.eqb_spec k key) as [-> | Hne].
    + rewrite Hv. simpl. apply lookup_insert_eq.
    + apply lookup_insert_ne. exact Hne.
Qed.

(** X24: the attribute map of a primitive that [parseMeshes] accepts gives
    for a name the index that the [attributes] object has under it, and for
    a name that the object has more than once the index of its last
    occurrence (the lookup of the document itself gives the first); a name
    the object does not have is not in the map. *)
Theorem parsePrimitive_attributes (o attributes : object) (primitive : Primitive.t) :
  parsePrimitive (OBJECT o) = Parsed primitive ->
  get_object (at_key o "attributes") = ok attributes ->
  ∀ key,
    Primitive.attributes primitive !! key
    = match at_key (reverse attributes) key with
      | ok v => optional (as_uint64 v)
      | err _ => None
      end.
Proof.
  unfold parsePrimitive. simpl. intros Hparsed Hattributes key.
  rewrite Hattributes in Hparsed. simpl in Hparsed.
  destruct (parseAttributes attributes ∅) as [map | |] eqn:Hmap; simpl in Hparsed;
    try discriminate.
  injection Hparsed as <-. simpl.
  rewrite (parseAttributes_lookup attributes ∅ map key Hmap).
  destruct (at_key (reverse attributes) key); [reflexivity | apply lookup_empty].
Qed.

Lemma parsePrimitive_attributes_witness :
  ∃ primitive,
    parsePrimitive (OBJECT twice_positioned_primitive) = Parsed primitive
    ∧ Primitive.attributes primitive !! "POSITION" = Some 2%Z
    ∧ ∀ key,
        Primitive.attributes primitive !! key
        = match at_key (reverse [("POSITION", INT64 0); ("NORMAL", INT64 1);
                                 ("POSITION", INT64 2)]) key with
          | ok v => optional (as_uint64 v)
          | err _ => None
          end.
Proof.
  eexists. split; [reflexivity |]. split; [vm_compute; reflexivity |].
  apply (parsePrimitive_attributes twice_positioned_primitive); reflexivity.
Defined.

(** ** The default scene *)

(** X25: when the document has a [scenes] array, [parseScenes] leaves the
    asset with the [defaultScene] that the [scene] member gives, if it is an
    index, and with the one it had otherwise; the index is written before
    the scenes are read, so also when the call then fails, and it is not
    compared with the number of scenes. *)
Theorem parseScenes_defaultScene (h : glTF) (a : Asset.t) (values : array)
    (e : Error.t) (h' : glTF) :
  parsedAsset h = Some a ->
  get_array (at_key (root h) "scenes") = ok values ->
  parseScenes h = Returned e h' ->
  (Asset.defaultScene <$> parsedAsset h')
  = Some (match get_uint64 (at_key (root h) "scene") with
          | ok defaultScene => Some defaultScene
          | err _ => Asset.defaultScene a
          end).
Proof.
  intros Ha Hscenes.
  unfold parseScenes, top_level_array, getJsonArray, with_asset.
  rewrite Hscenes, Ha. simpl.
  set (expected := match get_uint64 (at_key (root h) "scene") with
                   | ok defaultScene => Some defaultScene
                   | err _ => Asset.defaultScene a
                   end).
  assert (∀ h1, (Asset.defaultScene <$> parsedAsset h1) = Some expected ->
            for_each (fun sceneValue h => emplace (parseScene sceneValue) push_scene h)
              values h1 = Returned e h' ->
            (Asset.defaultScene <$> parsedAsset h') = Some expected) as Hloop.
  { clear. induction values as [| v rest IH]; intros h1 H1; simpl.
    - intros [= _ <-]. exact H1.
    - destruct (parseScene v) as [[scene |] | e' |]; simpl.
      + apply IH. unfold update_asset. simpl.
        destruct (parsedAsset h1) as [a1 |]; [| discriminate]. exact H1.
      + apply IH. exact H1.
      + unfold returnError. intros [= _ <-]. exact H1.
      + discriminate. }
  apply Hloop. unfold expected.
  destruct (get_uint64 (at_key (root h) "scene")) as [d |].
  - unfold update_asset. simpl. rewrite Ha. reflexivity.
  - rewrite Ha. reflexivity.
Qed.

Lemma parseScenes_defaultScene_witness :
  ∃ h', parseScenes far_default_scene_handle = Returned Error.MissingField h'
        ∧ (Asset.defaultScene <$> parsedAsset h') = Some (Some 5%Z)
        ∧ (sequence_length Scenes <$> parsedAsset h') = Some 1%nat.
Proof.
  eexists. split; [reflexivity |]. split; [| reflexivity].
  apply (parseScenes_defaultScene far_default_scene_handle Asset.init
           [ OBJECT [("nodes", ARRAY [INT64 0])]; OBJECT [("name", STRING "empty")] ]
           Error.MissingField); reflexivity.
Defined.
